(* ===== verification/_CoqProject ===== *)
-Q . S2P
Prelude.v
JsString.v
Types.v
Extern.v
Parser.v
Csv.v
Gemini.v
App.v
Dom.v
View.v
Pipeline.v
