(* ===== verification/Prelude.v ===== *)
(** * Maps Data Extractor: a verification development

    The program is a browser form (React/TypeScript) that asks a generative
    model for a Markdown table of businesses, parses the table into records,
    optionally attaches citation URLs, shows the records and exports them
    as CSV.  Its parts, and the files that model them:

    - [Prelude] (this file): the representation of JavaScript strings
      (sequences of UTF-16 code units, [list N]), truthiness and the [||]
      operator on possibly-undefined strings, the array built-ins the
      sources call ([findIndex], [filter] with an index, [join], [map] with
      a callback that updates a captured variable), the development's
      tactics and hint databases, and the list lemmas the components share.
    - [JsString]: the [String.prototype] built-ins the sources call
      ([trim], [split], [startsWith], [includes], [replace] with the two
      regular expressions of the sources, [toLowerCase] on ASCII), each with
      the lemmas that characterise it.
    - [Types]: [src/types.ts].  The interfaces [PlaceData], [ScrapeStatus]
      and [SearchParams] as records, the six columns of a record and what
      it means for them to be populated.
    - [Extern]: the platform's [crypto.randomUUID] as the class
      [UuidSource] with the law [UuidFresh] (identifiers do not repeat), and
      a concrete source for evaluation.
    - [Parser]: [parseMarkdownTableToData] of [src/utils/parser.ts].  The
      function follows the source line by line ([is_separator],
      [split_columns], [make_place], [parse_row] for the loop's body,
      [parse_rows] for the loop); [extract] is its specification: one record
      for each row of two cells or more after the first separator line.
      [render_table] writes a table, for the round trip; [reply_lines]
      puts a table among lines of prose, and [render_two_tables] writes
      a table after another.
    - [Csv]: [convertToCSV] and [downloadCSV] of [src/utils/parser.ts].
      [csv_read] is a reader of CSV text (lines and cells split outside
      quotes, doubled quotes undone), the specification of the round trip;
      [Page] is the part of the document that [downloadCSV] touches.
    - [Gemini]: [searchPlaces] of [src/services/geminiService.ts].  The
      generation service is the class [GenAI] ([answering] is the service
      as one call sees it); [searchPlaces_request] is the function up to
      its [await]; a promise's result is an [Outcome];
      [enrich_place] and [enrich] are the citation pass, and [attach] its
      specification.
    - [App]: the component of [src/App.tsx].  [State] is its six state
      cells; each handler is a function on [State] ([handleSearch] is split
      at its [await] into [handleSearch_submit] and [handleSearch_settle]);
      the [disabled] attributes and the conditional rendering are the
      predicates [submit_enabled], [export_enabled] and the like.  A session
      is a [System] with the transition relation [step]; its events are
      those of the page and the settling of a pending call, which carries
      the reply of the service, so that the states of a session cover
      every behaviour of the service, the same request answered in two ways
      included.  [run] is the state after a sequence of events.  The
      invariant of a session is in two parts: [invariant] (the pending
      call, the status, the category, the requests sent) holds in every
      [reachable] state whatever the identifiers drawn; [records_ok] (the
      records shown and the downloads started are well formed) holds in
      every reachable state when the identifiers drawn are distinct.
    - [Dom]: what React and the browser make of JSX: a tree of elements
      with props ([Node], [Attr]), polymorphic in the events that its
      handlers carry; the handlers that can run ([listeners]: a disabled
      field or button takes no change and no click, a form is submitted
      through a submit button that is not disabled), the events that a user
      can cause ([offers]), the text of a tree ([textContent]), and what
      makes a tree a well-formed document ([wf], [document]).
    - [View]: the JSX that [App] returns ([src/App.tsx], lines 79 to 239)
      and [src/components/Header.tsx], as the function [App_view] from a
      [State] to a tree of [Dom], one definition for each part of the page
      ([location_field], [category_select], [category_input],
      [reset_button], [category_field], [submit_button], [search_form],
      [search_section], [error_banner], [results_title], [export_button],
      [results_section], [Header_view]), with the tags, props, class names,
      texts and conditions of the source.
    - [Pipeline]: theorems across the components: a search from the form to
      the records and to the page that shows them, and the export of what
      the extractor returns.

    ** How the parts interact

    [handleSearch] builds the query from the form and calls [searchPlaces];
    [searchPlaces] sends one request, at once, and when the reply comes
    parses the text of the response with
    [parseMarkdownTableToData], attaches citation URLs with [enrich] and
    resolves with the records, or is rejected with a message;
    [handleSearch] stores the records or the message.  [handleExport]
    passes the records to [convertToCSV] and the text to [downloadCSV]
    under a file name derived from the form.  The page that [App_view]
    renders for the state decides which of these handlers can run next: an
    event of the session is enabled when the tree offers it.

    ** What the theorems show

    - Extractor: refinement of [extract] ([parse_refines_extract]),
      termination of the loop, with the fuel for which it returns
      ([parse_rows_fuel]), distinct identifiers ([parse_ids_NoDup]), the
      fields of every record ([parse_clean]), idempotence up to
      identifiers ([parse_idempotent]), the behaviour on each kind of line
      ([parse_no_separator], [parse_row_two_cells],
      [make_place_empty_cell], [split_columns_open]), the round trip from
      a written table ([parse_render]), that prose around the table and
      between its rows changes nothing ([parse_surrounding_prose]), and
      that a second table is read as rows of the first
      ([parse_second_table]).
    - Serializer: the round trip through [csv_read] ([csv_roundtrip]), and
      its failure whenever a field that is not escaped holds one quote
      ([csv_quote_breaks], for any records before the one with the quote);
      lemmas give the lines of the text, the empty URL and the download.
    - Request and citations: refinement of [attach]
      ([enrich_refines_attach]), termination of the inner loop, with the
      fuel for which it returns ([enrich_place_fuel]), the pass chunk by
      chunk, a web URI being taken when there is no map URI
      ([enrich_cons], [enrich_three_of_five]), and the outcomes of a
      request ([searchPlaces_returned], [searchPlaces_rejected_iff]).
    - Form: the invariants of a session ([reachable_one_request],
      [reachable_status_ok], and, when the identifiers drawn are distinct,
      [reachable_well_formed] and [reachable_downloads], the only two
      theorems on sessions with that premise), that the busy state is left
      ([settle_leaves_idle]) and no state is stuck ([reachable_progress]),
      that the session implements the busy/idle
      machine of the specification ([session_refines_machine]: [phase] maps
      a state to idle, requesting, succeeded or failed, and every
      transition of a session is a transition of [machine];
      [phases_reachable]: each phase occurs), the file name
      ([make_filename_chars]) and that it follows the form as edited, not
      the query of the records ([export_follows_form]).  The requests of a
      session are accounted for ([run_requests]): the queries that a
      sequence of events submits ([queries]) are those whose call has
      settled, in the order of the requests made, followed by the pending
      one; [reachable_run] and [run_reachable] say that the reachable
      states are the ends of such sequences.
    - View: the page is a well-formed document in every state of a session
      ([reachable_document]); the transition relation of the session is the
      one of the rendered page ([step_view], from [listeners_App_view],
      which computes the handlers that can run from the tree); the page
      offers a submission only when no call is pending, and what the
      submission then does ([offers_submit_idle]); the error banner and the
      results exclude each other ([reachable_banner]); the title counts the
      records ([results_title_count]); the label of the category refers to
      no element while a custom category is edited ([labels_resolve]).
    - Across the components: what the form holds when a pending call
      settles, whatever the reply and the edits since the submission, and
      when that is a success ([settle_outcome], from [search_spec]); a
      whole use of the page, from the location typed to the title shown and
      the file downloaded ([session_export]); a session without
      credential sends nothing and shows the configuration error only
      ([reachable_no_key]); the export of what the extractor returns is
      read back as the rows of the table when no cell holds a quote
      ([export_parsed_roundtrip]), and is not when the last row has one
      quote in a cell from the third column on ([export_parsed_quote]);
      the exported text does not depend on the identifiers
      ([exported_text_ids]): records are compared up to their identifiers
      by an equivalence for which the serializer and the citation pass are
      [Proper].

    ** Fuel

    The two loops of the sources are bounded by the length of an array
    that they do not change.  Each is a [Fixpoint] that spends one unit of
    fuel for each test of the loop's condition, returns [Some] result when
    the loop is left and [None] when the fuel runs out, so that a loop
    that does not end has no result, whatever the fuel.  [parse_rows_fuel]
    and [enrich_place_fuel] say exactly for which fuel each loop returns:
    more than the number of lines left from the index for the first, more
    than the number of chunks without URI passed over for the second.
    [parseMarkdownTableToData] gives [parse_rows] one unit more than there
    are lines, and [enrich] gives [enrich_place] one unit more than there
    are chunks: with these the loops always return, and the default that
    the callers supply for [None] is never used.

    ** What is not modelled

    - The [ResultsTable] component, which is not among the sources: it is an
      element of the page that receives the records.  The icons are
      elements that are not expanded.  What the class names mean (layout
      and styling), the focus, and the constraint validation of [required]
      are not modelled; the loss of the focus is taken to be possible
      whenever the custom input is rendered.
    - The network, the generation service and the model behind it: a reply
      is a parameter ([GenAI] for [searchPlaces], the payload of the event
      [Settle] in a session), and no theorem assumes anything of it.
      [console.error] is not modelled.
    - The format of identifiers.  That they do not repeat is the law
      [UuidFresh]; it is a premise of the theorems that conclude that
      identifiers are distinct ([parse_ids_NoDup], [reachable_well_formed],
      [reachable_downloads]) and of no other theorem.
      [crypto.randomUUID] always returns in the model; a platform without
      it is not modelled.
    - Exceptions other than those of the service: the [try] block of
      [searchPlaces] encloses the parse and the citation pass too, which
      are total functions in the model, so that only the call to the
      service can throw.
    - The order of micro-tasks: a session lets other events come between a
      submission without credential and its rejection, and lets the custom
      category lose the focus while its input is disabled.  The session
      has more behaviours than a browser allows, and what is proved of
      every state of a session holds of every state in a browser.
    - [toLowerCase] outside ASCII (the one call is on ASCII:
      [make_filename_chars]); regular expressions other than the two of
      the sources; the object URL and the style of the download link.
    - React's rendering and batching of state updates: a handler's updates
      take effect together, when the handler returns or awaits.  The
      effect of [e.preventDefault()] is that a submission does not reload
      the page: the state of a session is kept from one event to the
      next.

    ** Conventions

    - A JavaScript string is a [list N] of code units; [str "..."] embeds
      a literal.  No bound on a code unit is needed by any theorem: what is
      proved of every [list N] holds of every JavaScript string.
    - [undefined] is [None]; [o ||| d] is the source's [o || d] for a string
      [o] that may be undefined: the empty string is falsy.
    - A [for]/[while] loop over an array index is a [Fixpoint] with fuel that
      follows the loop's text and has no result when the fuel runs out; a
      theorem then shows for which fuel it returns, that the fuel the caller
      gives is enough, and what the loop computes.
    - Calls to the outside world ([crypto.randomUUID], the generation
      service) are parameters of the model: the n-th identifier drawn in a
      session is [randomUUID n], and the reply to a request is an argument
      of the function that models the handler. *)

From Stdlib Require Import Ascii String.
From stdpp Require Export prelude.
From stdpp Require Export strings.

(** ** JavaScript strings *)

Declare Scope js_scope.
Delimit Scope js_scope with js.
Open Scope js_scope.

(** A code unit, and a string: abbreviations, so that stdpp's list
    operations apply to strings as they are. *)
Abbreviation char := N (only parsing).
Abbreviation jsstring := (list N) (only parsing).

(** A string literal of the sources, as its code units (the literals of the
    sources are ASCII; the byte-order mark is written as its code unit). *)
Definition str (s : string) : jsstring :=
  N_of_ascii <$> list_ascii_of_string s.

(** ** Truthiness *)

(** The empty string is the one falsy string. *)
Definition truthy (s : jsstring) : bool :=
  match s with
  | [] => false
  | _ :: _ => true
  end.

(** A string that may be [undefined], in a condition. *)
Definition truthy_opt (o : option jsstring) : bool :=
  from_option truthy false o.

(** [o || d] where [o : string | undefined] and [d : string]. *)
Definition or_default (o : option jsstring) (d : jsstring) : jsstring :=
  match o with
  | Some s => if truthy s then s else d
  | None => d
  end.

(** [a || b] where both sides may be [undefined]. *)
Definition js_or (a b : option jsstring) : option jsstring :=
  if truthy_opt a then a else b.

Notation "o ||| d" := (or_default o d)
  (at level 50, left associativity) : js_scope.

(** ** Array built-ins *)

(** [arr.findIndex(p)]: the index of the first element that satisfies [p],
    or -1. *)
Fixpoint findIndex_from {A} (p : A → bool) (i : Z) (arr : list A) : Z :=
  match arr with
  | [] => -1
  | x :: arr' => if p x then i else findIndex_from p (i + 1) arr'
  end.

Definition findIndex {A} (p : A → bool) (arr : list A) : Z :=
  findIndex_from p 0 arr.

(** [arr.filter((x, index, arr) => p x index arr)]: the callback sees the
    element, its index and the whole array. *)
Fixpoint filter_index_from {A} (p : A → Z → list A → bool)
    (whole : list A) (i : Z) (arr : list A) : list A :=
  match arr with
  | [] => []
  | x :: arr' =>
      if p x i whole then x :: filter_index_from p whole (i + 1) arr'
      else filter_index_from p whole (i + 1) arr'
  end.

Definition filter_index {A} (p : A → Z → list A → bool) (arr : list A) : list A :=
  filter_index_from p arr 0 arr.

(** [arr.join(sep)] on an array of strings. *)
Fixpoint join (sep : jsstring) (arr : list jsstring) : jsstring :=
  match arr with
  | [] => []
  | [s] => s
  | s :: arr' => s ++ sep ++ join sep arr'
  end.

(** The elements of a list but its first and its last. *)
Definition middle {A} (l : list A) : list A :=
  take (length l - 2) (drop 1 l).

(** The callback [(col, index, arr) => index > 0 && index < arr.length - 1]
    of a [filter]: the indices strictly between the first and the last. *)
Definition strictly_inside {A} (x : A) (index : Z) (arr : list A) : bool :=
  (0 <? index)%Z && (index <? Z.of_nat (length arr) - 1)%Z.

(** [arr.map(f)] where the callback reads and updates a variable that it
    captures: the elements are visited in order, and each call starts from
    the value the call before it left. *)
Fixpoint map_state {A B S} (f : A → S → B * S) (arr : list A) (s : S)
    : list B * S :=
  match arr with
  | [] => ([], s)
  | x :: arr' =>
      let '(y, s') := f x s in
      let '(ys, s'') := map_state f arr' s' in
      (y :: ys, s'')
  end.

(** ** Tactics and hint databases *)

Create HintDb js discriminated.
Create Rewrite HintDb js.

(** Case analysis on the test of an [if] or on a [match] of the goal,
    simplifying after each. *)
Ltac js_case := repeat (case_match; simplify_eq/=); try done.

(** Decide a comparison of numbers that stands as a boolean test. *)
Ltac bool_lia :=
  repeat match goal with
  | H : (_ && _) = true |- _ => apply andb_true_iff in H as [? ?]
  | H : (_ || _) = false |- _ => apply orb_false_iff in H as [? ?]
  | H : (_ && _) = false |- _ => apply andb_false_iff in H as [?|?]
  | H : (_ || _) = true |- _ => apply orb_true_iff in H as [?|?]
  | H : negb _ = true |- _ => apply negb_true_iff in H
  | H : negb _ = false |- _ => apply negb_false_iff in H
  | H : (_ =? _)%N = true |- _ => apply N.eqb_eq in H
  | H : (_ =? _)%N = false |- _ => apply N.eqb_neq in H
  | H : (_ <=? _)%N = true |- _ => apply N.leb_le in H
  | H : (_ <=? _)%N = false |- _ => apply N.leb_gt in H
  | H : (_ <? _)%N = true |- _ => apply N.ltb_lt in H
  | H : (_ <? _)%N = false |- _ => apply N.ltb_ge in H
  | H : (_ =? _)%Z = true |- _ => apply Z.eqb_eq in H
  | H : (_ =? _)%Z = false |- _ => apply Z.eqb_neq in H
  | H : (_ <? _)%Z = true |- _ => apply Z.ltb_lt in H
  | H : (_ <? _)%Z = false |- _ => apply Z.ltb_ge in H
  | H : (_ <=? _)%Z = true |- _ => apply Z.leb_le in H
  | H : (_ <=? _)%Z = false |- _ => apply Z.leb_gt in H
  | H : (_ >=? _)%Z = true |- _ => apply Z.geb_le in H
  | H : (_ >=? _)%Z = false |- _ => rewrite Z.geb_leb in H
  | H : (_ <=? _) = true |- _ => apply Nat.leb_le in H
  | H : (_ <=? _) = false |- _ => apply Nat.leb_gt in H
  | H : (_ <? _) = true |- _ => apply Nat.ltb_lt in H
  | H : (_ <? _) = false |- _ => apply Nat.ltb_ge in H
  end; try lia.

(** ** Literals *)

(** Two literals with the same code units are the same literal. *)
#[export] Instance N_of_ascii_inj : Inj (=) (=) N_of_ascii.
Proof.
  intros a b Hab. by rewrite <- (ascii_N_embedding a), Hab, ascii_N_embedding.
Qed.

#[export] Instance str_inj : Inj (=) (=) str.
Proof.
  intros s s' H. unfold str in H. apply (inj (fmap N_of_ascii)) in H.
  by rewrite <- (string_of_list_ascii_of_string s),
    <- (string_of_list_ascii_of_string s'), H.
Qed.

(** ** Lemmas on truthiness *)

Section truthiness.
Implicit Types (s d : jsstring) (o : option jsstring).

Lemma truthy_nonempty s : truthy s = true ↔ s ≠ [].
Proof. by destruct s. Qed.

Lemma or_default_nonempty o d : d ≠ [] → o ||| d ≠ [].
Proof. destruct o as [[|c s]|]; naive_solver. Qed.

Lemma or_default_Some s d : s ≠ [] → Some s ||| d = s.
Proof. by destruct s. Qed.

Lemma or_default_empty d : Some [] ||| d = d.
Proof. done. Qed.

Lemma or_default_None d : None ||| d = d.
Proof. done. Qed.

Lemma or_default_cases o d :
  (∃ s, o = Some s ∧ s ≠ [] ∧ o ||| d = s) ∨
  ((o = None ∨ o = Some []) ∧ o ||| d = d).
Proof. destruct o as [[|c s]|]; naive_solver. Qed.

Lemma js_or_truthy a b :
  truthy_opt (js_or a b) = truthy_opt a || truthy_opt b.
Proof. unfold js_or. by destruct (truthy_opt a) eqn:E; rewrite ?E. Qed.

End truthiness.

(** ** Lemmas on the array built-ins *)

Section arrays.
Context {A : Type}.
Implicit Types (p : A → bool) (l pre post : list A) (x : A) (i : Z).

(** [findIndex] returns -1 or an index of the array. *)
Lemma findIndex_from_bounds p i l :
  findIndex_from p i l = (-1)%Z ∨
  (i ≤ findIndex_from p i l < i + Z.of_nat (length l))%Z.
Proof.
  revert i. induction l as [|x l IH]; intros i; simpl; [by left|].
  destruct (p x); [right; lia|].
  destruct (IH (i + 1)%Z) as [->|?]; [by left|right; lia].
Qed.

Lemma findIndex_bounds p l :
  findIndex p l = (-1)%Z ∨ (0 ≤ findIndex p l < Z.of_nat (length l))%Z.
Proof. apply (findIndex_from_bounds p 0). Qed.

(** It returns -1 exactly when no element satisfies the predicate. *)
Lemma findIndex_from_none p i l :
  (0 ≤ i)%Z →
  findIndex_from p i l = (-1)%Z ↔ Forall (λ x, p x = false) l.
Proof.
  revert i. induction l as [|x l IH]; intros i Hi; simpl; [done|].
  destruct (p x) eqn:E.
  - split; [lia|]. inversion 1; congruence.
  - rewrite IH by lia. split; [by constructor|by inversion 1].
Qed.

Lemma findIndex_none p l :
  findIndex p l = (-1)%Z ↔ Forall (λ x, p x = false) l.
Proof. by apply findIndex_from_none. Qed.

(** It returns the position of the first element that satisfies it. *)
Lemma findIndex_from_first p i pre x post :
  Forall (λ y, p y = false) pre → p x = true →
  findIndex_from p i (pre ++ x :: post) = (i + Z.of_nat (length pre))%Z.
Proof.
  intros Hpre Hx. revert i.
  induction Hpre as [|y pre Hy _ IH]; intros i; simpl.
  - rewrite Hx. lia.
  - rewrite Hy, IH. lia.
Qed.

Lemma findIndex_first p pre x post :
  Forall (λ y, p y = false) pre → p x = true →
  findIndex p (pre ++ x :: post) = Z.of_nat (length pre).
Proof. intros. unfold findIndex. by rewrite findIndex_from_first. Qed.

(** Conversely, an index it returns splits the array at the first element
    that satisfies the predicate. *)
Lemma findIndex_from_split p i l k :
  (0 ≤ i)%Z → findIndex_from p i l = (i + Z.of_nat k)%Z →
  ∃ pre x post, l = pre ++ x :: post ∧ length pre = k ∧
                Forall (λ y, p y = false) pre ∧ p x = true.
Proof.
  revert i k. induction l as [|x l IH]; intros i k Hi; simpl; [lia|].
  destruct (p x) eqn:E.
  - intros Hk. exists [], x, l. split_and!; simpl; [done|lia|done..].
  - intros Hk. destruct (findIndex_from_bounds p (i + 1) l) as [?|?]; [lia|].
    destruct k as [|k]; [lia|].
    destruct (IH (i + 1)%Z k) as (pre & y & post & -> & <- & Hpre & Hy); [lia..|].
    exists (x :: pre), y, post. split_and!; [done..|by constructor|done].
Qed.

Lemma findIndex_split p l k :
  findIndex p l = Z.of_nat k →
  ∃ pre x post, l = pre ++ x :: post ∧ length pre = k ∧
                Forall (λ y, p y = false) pre ∧ p x = true.
Proof. intros H. by apply (findIndex_from_split p 0). Qed.

(** The filter that keeps the indices strictly between the first and the
    last keeps the middle of the array. *)
Lemma filter_index_from_inside whole i l :
  (1 ≤ i)%Z →
  filter_index_from strictly_inside whole i l =
  take (Z.to_nat (Z.of_nat (length whole) - 1 - i)) l.
Proof.
  revert i. induction l as [|x l IH]; intros i Hi; simpl; [by rewrite take_nil|].
  unfold strictly_inside at 1.
  destruct (Z.ltb_spec 0 i); [|lia]. simpl.
  rewrite IH by lia. destruct (Z.ltb_spec i (Z.of_nat (length whole) - 1)).
  - replace (Z.to_nat (Z.of_nat (length whole) - 1 - i))
      with (S (Z.to_nat (Z.of_nat (length whole) - 1 - (i + 1)))) by lia. done.
  - replace (Z.to_nat (Z.of_nat (length whole) - 1 - i)) with 0 by lia.
    replace (Z.to_nat (Z.of_nat (length whole) - 1 - (i + 1))) with 0 by lia. done.
Qed.

Lemma filter_index_inside l : filter_index strictly_inside l = middle l.
Proof.
  unfold filter_index, middle. destruct l as [|x l]; [done|]. simpl.
  rewrite filter_index_from_inside by lia. f_equal. simpl length. lia.
Qed.

Lemma middle_length l : length (middle l) = length l - 2.
Proof. unfold middle. rewrite length_take, length_drop. lia. Qed.

(** The middle of a list given by its first element, its middle and its
    last element. *)
Lemma middle_app x l y : middle (x :: l ++ [y]) = l.
Proof.
  unfold middle. simpl. rewrite drop_0, length_app. simpl.
  replace (length l + 1 - 1) with (length l) by lia. by rewrite take_app_length.
Qed.

Lemma middle_fmap {B} (f : A → B) l : middle (f <$> l) = f <$> middle l.
Proof. unfold middle. by rewrite length_fmap, fmap_take, fmap_drop. Qed.

Lemma elem_of_middle x l : x ∈ middle l → x ∈ l.
Proof.
  unfold middle. intros H. eapply subseteq_drop, subseteq_take, H.
Qed.

End arrays.

(** ** Lemmas on lists *)

Section lists.
Context {A B C D : Type}.

(** A projection of [zip_with f l k] that depends on the right argument
    only is a map over [k]. *)
Lemma fmap_zip_with_right (f : A → B → C) (g : C → D) (h : B → D)
    (l : list A) (k : list B) :
  (∀ x y, g (f x y) = h y) → length k ≤ length l →
  g <$> zip_with f l k = h <$> k.
Proof.
  intros Hgf. revert l. induction k as [|y k IH]; intros [|x l] Hlen;
    simpl in *; try done; try lia. rewrite Hgf, IH; [done|lia].
Qed.

(** A map that fixes every element of a list fixes the list. *)
Lemma fmap_id_on (f : A → A) (l : list A) :
  Forall (λ x, f x = x) l → f <$> l = l.
Proof. induction 1 as [|x l Hx _ IH]; [done|]. by rewrite fmap_cons, Hx, IH. Qed.

Lemma omap_cons (f : A → option B) (x : A) (l : list A) :
  omap f (x :: l) = from_option (λ y, y :: omap f l) (omap f l) (f x).
Proof. simpl. by destruct (f x). Qed.

Lemma omap_None (f : A → option B) (l : list A) :
  Forall (λ x, f x = None) l → omap f l = [].
Proof. induction 1 as [|x l Hx _ IH]; [done|]. by rewrite omap_cons, Hx. Qed.

Lemma omap_Some (f : A → option B) (l : list A) (k : list B) :
  Forall2 (λ x y, f x = Some y) l k → omap f l = k.
Proof.
  induction 1 as [|x y l k Hx _ IH]; [done|]. by rewrite omap_cons, Hx, IH.
Qed.

Lemma map_state_length {S} (f : A → S → B * S) (l : list A) (s : S) :
  length (map_state f l s).1 = length l.
Proof.
  revert s. induction l as [|x l IH]; intros s; simpl; [done|].
  destruct (f x s) as [y s']. specialize (IH s').
  destruct (map_state f l s'). simpl in *. by rewrite IH.
Qed.

(** A callback that never changes the variable: a plain [map]. *)
Lemma map_state_fmap {S} (f : A → S → B * S) (l : list A) (s : S) :
  (∀ x, (f x s).2 = s) →
  map_state f l s = ((λ x, (f x s).1) <$> l, s).
Proof.
  intros Hf. induction l as [|x l IH]; simpl; [done|].
  specialize (Hf x). destruct (f x s) as [y s']. simpl in *. subst s'.
  by rewrite IH.
Qed.

End lists.

#[export] Hint Rewrite or_default_empty or_default_None : js.
#[export] Hint Resolve or_default_nonempty : js.
