(* ===== verification/JsString.v ===== *)
(** * JsString: the [String.prototype] built-ins the sources call

    Each definition models one built-in on strings as lists of UTF-16 code
    units, for the arguments the sources give it: [trim], [split] on a
    separator of one code unit, [startsWith], [includes], [replace] with a
    global pattern of one character, [replace(/[^a-z0-9]/gi, r)] and
    [toLowerCase] on ASCII.  The lemmas characterise each of them by what it
    returns, so that the components reason with the characterisations and
    never unfold the recursion. *)

From S2P Require Import Prelude.

(** ** Code units the sources name *)

Definition LF : char := 10.
Definition SPACE : char := 32.
Definition QUOTE : char := 34.
Definition COMMA : char := 44.
Definition HYPHEN : char := 45.
Definition PIPE : char := 124.

(** ** Definitions *)

(** ECMAScript's WhiteSpace and LineTerminator code units: what [trim]
    strips.  TAB, LF, VT, FF, CR, SP, NBSP, U+1680, U+2000..U+200A, LS, PS,
    U+202F, U+205F, U+3000 and U+FEFF. *)
Definition is_white_space (c : char) : bool :=
  ((9 <=? c) && (c <=? 13) || (c =? 32) || (c =? 160) || (c =? 5760)
   || (8192 <=? c) && (c <=? 8202) || (c =? 8232) || (c =? 8233)
   || (c =? 8239) || (c =? 8287) || (c =? 12288) || (c =? 65279))%N.

(** [s.trimStart()]. *)
Fixpoint trimStart (s : jsstring) : jsstring :=
  match s with
  | [] => []
  | c :: s' => if is_white_space c then trimStart s' else s
  end.

(** [s.trimEnd()]. *)
Definition trimEnd (s : jsstring) : jsstring :=
  reverse (trimStart (reverse s)).

(** [s.trim()]. *)
Definition trim (s : jsstring) : jsstring :=
  trimEnd (trimStart s).

(** [s.split(sep)] for a separator of one code unit: the segments between
    the occurrences of [sep]; one segment, the string itself, when there is
    none (also for the empty string). *)
Fixpoint split (sep : char) (s : jsstring) : list jsstring :=
  match s with
  | [] => [[]]
  | c :: s' =>
      if (c =? sep)%N then [] :: split sep s'
      else match split sep s' with
           | [] => [[c]]
           | seg :: segs => (c :: seg) :: segs
           end
  end.

(** [s.startsWith(p)]. *)
Fixpoint startsWith (p s : jsstring) : bool :=
  match p, s with
  | [], _ => true
  | _ :: _, [] => false
  | a :: p', b :: s' => (a =? b)%N && startsWith p' s'
  end.

(** [s.includes(p)]. *)
Fixpoint includes (p s : jsstring) : bool :=
  startsWith p s ||
  match s with
  | [] => false
  | _ :: s' => includes p s'
  end.

(** [s.replace(/c/g, r)] for a pattern that is one literal character. *)
Definition replace_char (c : char) (r : jsstring) (s : jsstring) : jsstring :=
  s ≫= λ x, if (x =? c)%N then r else [x].

(** The class [[a-z0-9]] under the flag [i] (no flag [u]): on code units,
    case folding adds exactly [A-Z]. *)
Definition is_alnum (c : char) : bool :=
  ((48 <=? c) && (c <=? 57) || (65 <=? c) && (c <=? 90)
   || (97 <=? c) && (c <=? 122))%N.

(** [s.replace(/[^a-z0-9]/gi, r)] for a replacement of one code unit. *)
Definition replace_non_alnum (r : char) (s : jsstring) : jsstring :=
  (λ c, if is_alnum c then c else r) <$> s.

(** [toLowerCase] on one code unit of the ASCII range. *)
Definition lower_char (c : char) : char :=
  if ((65 <=? c) && (c <=? 90))%N then (c + 32)%N else c.

(** [s.toLowerCase()] for a string of ASCII code units (on other code units
    the built-in consults the Unicode case tables, which are not modelled:
    [is_ascii] is the domain of this definition). *)
Definition toLowerCase (s : jsstring) : jsstring := lower_char <$> s.

Definition is_ascii (c : char) : bool := (c <? 128)%N.

(** The class [[a-z0-9]], with no flag. *)
Definition is_lower_alnum (c : char) : bool :=
  ((48 <=? c) && (c <=? 57) || (97 <=? c) && (c <=? 122))%N.

(** A string with no white space at either end: what [trim] returns. *)
Definition trimmed (s : jsstring) : Prop :=
  (∀ c, head s = Some c → is_white_space c = false) ∧
  (∀ c, last s = Some c → is_white_space c = false).

(** [trimmed], as a test. *)
Definition trimmedb (s : jsstring) : bool :=
  negb (from_option is_white_space false (head s))
  && negb (from_option is_white_space false (last s)).

Lemma trimmedb_spec s : trimmedb s = true ↔ trimmed s.
Proof.
  unfold trimmedb, trimmed.
  rewrite andb_true_iff, !negb_true_iff. split.
  - intros [Hh Hl]. split; intros c Hc; by rewrite Hc in *.
  - intros [Hh Hl]. split; [destruct (head s)|destruct (last s)]; simpl; auto.
Qed.

#[export] Instance trimmed_dec s : Decision (trimmed s).
Proof.
  refine (cast_if (decide (trimmedb s = true))); by rewrite <-trimmedb_spec.
Defined.

(** ** [trim] *)

Section trim.
Implicit Types (s t : jsstring) (c : char).

Lemma trimStart_spec s :
  ∃ ws, s = ws ++ trimStart s ∧ Forall (λ c, is_white_space c = true) ws ∧
        ∀ c, head (trimStart s) = Some c → is_white_space c = false.
Proof.
  induction s as [|c s (ws & Hs & Hws & Hh)]; simpl.
  - by exists [].
  - destruct (is_white_space c) eqn:E.
    + exists (c :: ws). split_and!; [by rewrite Hs at 1|by constructor|done].
    + exists []. split_and!; [done|constructor|]. by intros ? [= <-].
Qed.

Lemma trimStart_ws_app ws s :
  Forall (λ c, is_white_space c = true) ws → trimStart (ws ++ s) = trimStart s.
Proof. induction 1 as [|c ws Hc _ IH]; simpl; [done|by rewrite Hc]. Qed.

Lemma trimStart_head s c :
  head s = Some c → is_white_space c = false → trimStart s = s.
Proof. destruct s; intros [= ->] Hc; simpl. by rewrite Hc. Qed.

Lemma trimStart_nil s :
  trimStart s = [] ↔ Forall (λ c, is_white_space c = true) s.
Proof.
  induction s as [|c s IH]; simpl; [done|].
  destruct (is_white_space c) eqn:E.
  - rewrite IH. split; [by constructor|by inversion 1].
  - split; [done|]. inversion 1; congruence.
Qed.

Lemma trimEnd_spec s :
  ∃ ws, s = trimEnd s ++ ws ∧ Forall (λ c, is_white_space c = true) ws ∧
        ∀ c, last (trimEnd s) = Some c → is_white_space c = false.
Proof.
  destruct (trimStart_spec (reverse s)) as (ws & Hs & Hws & Hh).
  exists (reverse ws). unfold trimEnd. split_and!.
  - by rewrite <-reverse_app, <-Hs, reverse_involutive.
  - by apply Forall_reverse.
  - intros c. rewrite last_reverse. apply Hh.
Qed.

Lemma trimEnd_app_ws s ws :
  Forall (λ c, is_white_space c = true) ws → trimEnd (s ++ ws) = trimEnd s.
Proof.
  intros Hws. unfold trimEnd. rewrite reverse_app, trimStart_ws_app; [done|].
  by apply Forall_reverse.
Qed.

Lemma trimEnd_last s c :
  last s = Some c → is_white_space c = false → trimEnd s = s.
Proof.
  intros Hl Hc. unfold trimEnd.
  rewrite (trimStart_head _ c), reverse_involutive; [done| |done].
  by rewrite head_reverse.
Qed.

Lemma trimEnd_head s c :
  head s = Some c → is_white_space c = false → head (trimEnd s) = Some c.
Proof.
  intros Hh Hc. destruct (trimEnd_spec s) as (ws & Hs & Hws & _).
  destruct (trimEnd s) as [|x t] eqn:E; simpl in *.
  - subst s. destruct Hws as [|y ws Hy _]; simplify_eq/=. congruence.
  - rewrite Hs in Hh. by simplify_eq/=.
Qed.

(** [trim] removes white space at both ends, and nothing else. *)
Lemma trim_spec s :
  ∃ a b, s = a ++ trim s ++ b ∧
         Forall (λ c, is_white_space c = true) a ∧
         Forall (λ c, is_white_space c = true) b ∧ trimmed (trim s).
Proof.
  destruct (trimStart_spec s) as (a & Hs & Ha & Hh).
  destruct (trimEnd_spec (trimStart s)) as (b & Ht & Hb & Hl).
  exists a, b. unfold trim. split_and!; [by rewrite <-Ht|done..|].
  split; [|done]. intros c Hc.
  destruct (trimStart s) as [|x t]; [done|].
  specialize (Hh x eq_refl).
  rewrite (trimEnd_head _ x) in Hc by done. by simplify_eq.
Qed.

Lemma trim_trimmed s : trimmed (trim s).
Proof. by destruct (trim_spec s) as (? & ? & ? & ? & ? & ?). Qed.

(** A string with no white space at its ends is left as it is. *)
Lemma trim_id s : trimmed s → trim s = s.
Proof.
  intros [Hh Hl]. unfold trim.
  destruct s as [|c s]; [done|].
  rewrite (trimStart_head _ c) by (by auto).
  destruct (proj2 (last_is_Some (c :: s))) as [x Hx]; [done|].
  by rewrite (trimEnd_last _ x) by auto.
Qed.

Lemma trim_idemp s : trim (trim s) = trim s.
Proof. apply trim_id, trim_trimmed. Qed.

(** White space around a string does not change what [trim] returns. *)
Lemma trim_ws_app a s b :
  Forall (λ c, is_white_space c = true) a →
  Forall (λ c, is_white_space c = true) b →
  trimmed s → s ≠ [] → trim (a ++ s ++ b) = s.
Proof.
  intros Ha Hb [Hh Hl] Hne. unfold trim. rewrite trimStart_ws_app by done.
  destruct s as [|c s]; [done|].
  rewrite (trimStart_head _ c); [|done|by auto].
  rewrite trimEnd_app_ws by done.
  destruct (proj2 (last_is_Some (c :: s))) as [x Hx]; [done|].
  by rewrite (trimEnd_last _ x) by auto.
Qed.

(** [trim] returns the empty string exactly on strings of white space. *)
Lemma trim_nil s :
  trim s = [] ↔ Forall (λ c, is_white_space c = true) s.
Proof.
  destruct (trimStart_spec s) as (a & Hs & Ha & Hh).
  destruct (trimEnd_spec (trimStart s)) as (b & Ht & Hb & Hl).
  fold (trim s) in Ht, Hl. split.
  - intros E. rewrite E in Ht. rewrite Hs, Ht. by apply Forall_app.
  - intros Hall. apply trimStart_nil in Hall. unfold trim. by rewrite Hall.
Qed.

(** What [trim] returns is a contiguous part of its argument. *)
Lemma trim_elem_of s c : c ∈ trim s → c ∈ s.
Proof.
  destruct (trim_spec s) as (a & b & Hs & _). intros Hc.
  rewrite Hs, !elem_of_app. auto.
Qed.

Lemma trim_head s c : head (trim s) = Some c → is_white_space c = false.
Proof. apply trim_trimmed. Qed.

(** A string between two code units that are no white space is trimmed. *)
Lemma trimmed_wrapped c s :
  is_white_space c = false → trimmed (c :: s ++ [c]).
Proof.
  intros Hc. split; intros x.
  - by intros [= <-].
  - change (c :: s ++ [c]) with ((c :: s) ++ [c]). rewrite last_snoc. by intros [= <-].
Qed.

(** A trimmed string keeps its value when it is padded with spaces and
    trimmed again. *)
Lemma trim_padded s : trimmed s → trim ([SPACE] ++ s ++ [SPACE]) = s.
Proof.
  intros Hs. destruct s as [|c s]; [done|].
  apply trim_ws_app; [by repeat constructor..|done|done].
Qed.

End trim.

(** ** [split] and [join] *)

Section split.
Implicit Types (s t seg : jsstring) (c sep : char) (l : list jsstring).

Lemma split_nonempty sep s : split sep s ≠ [].
Proof. destruct s as [|c s]; simpl; [done|]. by js_case. Qed.

Lemma split_sep sep s : split sep (sep :: s) = [] :: split sep s.
Proof. simpl. by rewrite N.eqb_refl. Qed.

Lemma split_other sep c s seg l :
  c ≠ sep → split sep s = seg :: l → split sep (c :: s) = (c :: seg) :: l.
Proof. intros Hc Hs. simpl. rewrite Hs. by apply N.eqb_neq in Hc as ->. Qed.

(** The first segment runs to the first separator. *)
Lemma split_app sep a s :
  sep ∉ a → split sep (a ++ sep :: s) = a :: split sep s.
Proof.
  induction a as [|c a IH]; intros Ha; [apply split_sep|].
  apply not_elem_of_cons in Ha as [Hc Ha].
  simpl app. by apply split_other, IH.
Qed.

Lemma split_no_sep sep s : sep ∉ s → split sep s = [s].
Proof.
  induction s as [|c s IH]; intros Hs; [done|].
  apply not_elem_of_cons in Hs as [Hc Hs]. by apply split_other, IH.
Qed.

(** No segment holds the separator. *)
Lemma split_Forall sep s : Forall (λ seg, sep ∉ seg) (split sep s).
Proof.
  induction s as [|c s IH]; simpl.
  - repeat constructor. apply not_elem_of_nil.
  - destruct (N.eqb_spec c sep) as [->|Hc].
    + constructor; [apply not_elem_of_nil|done].
    + destruct (split sep s) as [|seg l]; inversion_clear IH;
        repeat constructor; rewrite ?not_elem_of_cons, ?elem_of_nil; naive_solver.
Qed.

(** One more segment than separators. *)
Lemma split_length sep s :
  length (split sep s) = S (length (filter (λ c, c = sep) s)).
Proof.
  induction s as [|c s IH]; [done|]. simpl split.
  destruct (N.eqb_spec c sep) as [->|Hc].
  - rewrite filter_cons_True by done. simpl. by rewrite IH.
  - rewrite filter_cons_False by done. rewrite <-IH.
    by destruct (split sep s).
Qed.

Lemma join_cons (d : jsstring) s l :
  l ≠ [] → join d (s :: l) = s ++ d ++ join d l.
Proof. by destruct l. Qed.

Lemma join_singleton (d : jsstring) s : join d [s] = s.
Proof. done. Qed.

(** [split] undoes nothing: joining the segments gives the string back. *)
Lemma join_split sep s : join [sep] (split sep s) = s.
Proof.
  induction s as [|c s IH]; [done|]. simpl split.
  destruct (N.eqb_spec c sep) as [->|Hc].
  - rewrite join_cons by apply split_nonempty. simpl. by rewrite IH.
  - pose proof (split_nonempty sep s) as Hne.
    destruct (split sep s) as [|seg [|seg' l]]; simplify_eq/=; done.
Qed.

(** [split] recovers the elements that were joined, when none of them
    holds the separator. *)
Lemma split_join sep l :
  l ≠ [] → Forall (λ s, sep ∉ s) l → split sep (join [sep] l) = l.
Proof.
  intros Hne Hall. induction Hall as [|s l Hs Hall IH]; [done|].
  destruct l as [|s' l]; [by apply split_no_sep|].
  rewrite (join_cons [sep]) by done.
  change ([sep] ++ ?t) with (sep :: t). by rewrite split_app, IH.
Qed.

(** Every code unit of a segment is one of the string. *)
Lemma split_elem_of sep s seg c : seg ∈ split sep s → c ∈ seg → c ∈ s.
Proof.
  intros Hseg Hc. rewrite <-(join_split sep s).
  induction (split sep s) as [|t l IH]; [by apply elem_of_nil in Hseg|].
  destruct l as [|t' l].
  - by apply list_elem_of_singleton in Hseg as ->.
  - rewrite join_cons by done. rewrite !elem_of_app.
    apply elem_of_cons in Hseg as [->|Hseg]; auto.
Qed.

(** A string that starts with the separator has an empty first segment. *)
Lemma split_head_sep sep s : split sep (sep :: s) !! 0 = Some [].
Proof. by rewrite split_sep. Qed.

Lemma join_snoc (d : jsstring) l s :
  l ≠ [] → join d (l ++ [s]) = join d l ++ d ++ s.
Proof.
  induction l as [|t l IH]; [done|]. intros _. destruct l as [|t' l]; [done|].
  change ((t :: t' :: l) ++ [s]) with (t :: (t' :: l) ++ [s]).
  rewrite !join_cons, IH by done. by rewrite <-!app_assoc.
Qed.

(** A code unit of a joined string is one of the delimiter or of an
    element. *)
Lemma elem_of_join (d : jsstring) l c :
  c ∈ join d l → c ∈ d ∨ ∃ s, s ∈ l ∧ c ∈ s.
Proof.
  induction l as [|s l IH]; [by intros ?%elem_of_nil|].
  destruct l as [|s' l].
  - intros Hc. right. exists s. split; [apply list_elem_of_here|done].
  - rewrite join_cons by done. rewrite !elem_of_app.
    intros [Hc|[Hc|Hc]]; [right; exists s|by left|].
    + split; [apply list_elem_of_here|done].
    + destruct (IH Hc) as [?|(t & Ht & Hct)]; [by left|right; exists t].
      split; [by apply list_elem_of_further|done].
Qed.

Lemma not_elem_of_join (d : jsstring) l c :
  c ∉ d → Forall (λ s, c ∉ s) l → c ∉ join d l.
Proof.
  intros Hd Hl Hc. apply elem_of_join in Hc as [?|(s & Hs & Hc)]; [done|].
  rewrite Forall_forall in Hl. by eapply Hl.
Qed.

(** The segments of a line that is wrapped in separators: an empty
    segment, the elements, an empty segment. *)
Lemma split_wrapped sep l :
  l ≠ [] → Forall (λ s, sep ∉ s) l →
  split sep (sep :: join [sep] l ++ [sep]) = [] :: l ++ [[]].
Proof.
  intros Hne Hl. rewrite split_sep. f_equal.
  rewrite <-(app_nil_r [sep]), <-join_snoc by done.
  apply split_join; [by destruct l|].
  apply Forall_app. split; [done|]. repeat constructor. apply not_elem_of_nil.
Qed.

(** The segments of a line that opens with a separator and does not close
    with one. *)
Lemma split_open sep l :
  l ≠ [] → Forall (λ s, sep ∉ s) l →
  split sep (sep :: join [sep] l) = [] :: l.
Proof. intros Hne Hl. by rewrite split_sep, split_join. Qed.

Lemma head_join (d : jsstring) s l c :
  head s = Some c → head (join d (s :: l)) = Some c.
Proof. destruct s as [|x s], l; naive_solver. Qed.

Lemma last_join (d : jsstring) l s c :
  last s = Some c → last (join d (l ++ [s])) = Some c.
Proof.
  intros Hs. destruct l as [|t l]; [done|].
  rewrite join_snoc by done. rewrite !last_app, Hs. done.
Qed.

End split.

(** ** [startsWith] and [includes] *)

Section search.
Implicit Types (s p : jsstring) (c : char).

Lemma startsWith_prefix p s : startsWith p s = true ↔ p `prefix_of` s.
Proof.
  revert s. induction p as [|a p IH]; intros [|b s]; simpl.
  - split; [intros _; apply prefix_nil|done].
  - split; [intros _; apply prefix_nil|done].
  - split; [done|]. by intros ?%prefix_nil_inv.
  - rewrite andb_true_iff, N.eqb_eq, IH. split.
    + intros [-> ?]. by apply prefix_cons.
    + intros H. split; [by eapply prefix_cons_inv_1|by eapply prefix_cons_inv_2].
Qed.

(** The test the sources make: does the string start with this code unit? *)
Lemma startsWith_char c s : startsWith [c] s = true ↔ head s = Some c.
Proof. destruct s as [|b s]; simpl; [done|]. rewrite andb_true_r, N.eqb_eq. naive_solver. Qed.

Lemma startsWith_char_cons c s : startsWith [c] (c :: s) = true.
Proof. by apply startsWith_char. Qed.

Lemma includes_spec p s :
  includes p s = true ↔ ∃ a b, s = a ++ p ++ b.
Proof.
  induction s as [|c s IH]; simpl; rewrite orb_true_iff, startsWith_prefix.
  - split.
    + intros [[b ->]|]; [by exists [], b|done].
    + intros (a & b & H). left. symmetry in H.
      apply app_eq_nil in H as [-> H]. by exists b.
  - rewrite IH. split.
    + intros [[b ->]|(a & b & ->)]; [by exists [], b|by exists (c :: a), b].
    + intros ([|x a] & b & H); simplify_eq/=; [left; by exists b|right; eauto].
Qed.

Lemma includes_app_r p a s : includes p s = true → includes p (a ++ s) = true.
Proof.
  rewrite !includes_spec. intros (x & y & ->). exists (a ++ x), y.
  by rewrite <-app_assoc.
Qed.

Lemma includes_elem_of p s c : includes p s = true → c ∈ p → c ∈ s.
Proof.
  rewrite includes_spec. intros (a & b & ->) Hc. rewrite !elem_of_app. auto.
Qed.

End search.

(** ** [replace] and [toLowerCase] *)

Section replace.
Implicit Types (s r : jsstring) (c : char).

Lemma replace_char_nil c r : replace_char c r [] = [].
Proof. done. Qed.

Lemma replace_char_cons c r x s :
  replace_char c r (x :: s) =
  (if (x =? c)%N then r else [x]) ++ replace_char c r s.
Proof. done. Qed.

Lemma replace_char_app c r s t :
  replace_char c r (s ++ t) = replace_char c r s ++ replace_char c r t.
Proof. apply bind_app. Qed.

(** Where the character does not occur, nothing is replaced. *)
Lemma replace_char_id c r s : c ∉ s → replace_char c r s = s.
Proof.
  induction s as [|x s IH]; [done|]. intros [Hx Hs]%not_elem_of_cons.
  rewrite replace_char_cons, IH by done.
  by destruct (N.eqb_spec x c) as [->|].
Qed.

(** A code unit of the result is one of the replacement or of the string. *)
Lemma elem_of_replace_char c r s x :
  x ∈ replace_char c r s → x ∈ r ∨ x ∈ s.
Proof.
  induction s as [|y s IH]; [by intros ?%elem_of_nil|].
  rewrite replace_char_cons, elem_of_app, elem_of_cons.
  intros [Hx|Hx]; [|destruct (IH Hx); auto].
  destruct (N.eqb_spec y c); [by left|].
  apply list_elem_of_singleton in Hx. auto.
Qed.

Lemma replace_non_alnum_length (r : char) s :
  length (replace_non_alnum r s) = length s.
Proof. apply length_fmap. Qed.

Lemma replace_non_alnum_Forall (r : char) s :
  Forall (λ c, is_alnum c = true ∨ c = r) (replace_non_alnum r s).
Proof. apply Forall_fmap, Forall_true. intros c. simpl. case_match; auto. Qed.

Lemma toLowerCase_length s : length (toLowerCase s) = length s.
Proof. apply length_fmap. Qed.

Lemma lower_char_idemp c : lower_char (lower_char c) = lower_char c.
Proof. unfold lower_char. repeat case_match; bool_lia. Qed.

Lemma toLowerCase_idemp s : toLowerCase (toLowerCase s) = toLowerCase s.
Proof.
  unfold toLowerCase. rewrite <-list_fmap_compose.
  apply list_fmap_ext. intros _ c _. apply lower_char_idemp.
Qed.

Lemma is_alnum_ascii c : is_alnum c = true → is_ascii c = true.
Proof. unfold is_alnum, is_ascii. intros H. apply N.ltb_lt. bool_lia. Qed.

Lemma lower_char_alnum c :
  is_alnum c = true → is_lower_alnum (lower_char c) = true.
Proof.
  unfold is_alnum, is_lower_alnum, lower_char. intros H.
  rewrite orb_true_iff, !andb_true_iff, !N.leb_le.
  case_match; bool_lia.
Qed.

(** What the replacement returns is in the domain of [toLowerCase]. *)
Lemma replace_non_alnum_ascii (r : char) s :
  is_ascii r = true → Forall (λ c, is_ascii c = true) (replace_non_alnum r s).
Proof.
  intros Hr. eapply Forall_impl; [apply replace_non_alnum_Forall|].
  intros c [Hc| ->]; [by apply is_alnum_ascii|done].
Qed.

(** The two steps of a file name's derivation: lower-case letters, digits
    and the replacement are what is left. *)
Lemma toLowerCase_replace_non_alnum (r : char) s :
  lower_char r = r →
  Forall (λ c, is_lower_alnum c = true ∨ c = r)
    (toLowerCase (replace_non_alnum r s)).
Proof.
  intros Hr. apply Forall_fmap.
  eapply Forall_impl; [apply replace_non_alnum_Forall|].
  intros c [Hc| ->]; simpl; [left; by apply lower_char_alnum|by right].
Qed.

End replace.

#[export] Hint Resolve split_nonempty split_Forall trim_trimmed : js.
#[export] Hint Rewrite join_split trim_idemp split_sep : js.
