(* ===== verification/Types.v ===== *)
(** * Types: the data contracts of [src/types.ts]

    The records the components exchange, with the source's field names, and
    the predicates on them that the components' theorems speak of: a record
    whose six textual fields are populated, and the fields of a record
    without its identifier.  Records are compared up to their identifiers
    by the equivalence [≡]; the functions that do not read the identifier
    are [Proper] for it, so that equivalent arrays can be rewritten under
    them. *)

From S2P Require Import Prelude.

(** ** Definitions *)

(** One extracted business entry ([interface PlaceData]). The optional
    [googleMapsUrl] is [None] until the enrichment pass attaches one. *)
Record PlaceData := mkPlaceData {
  id : jsstring;
  name : jsstring;
  address : jsstring;
  rating : jsstring;
  reviews : jsstring;
  website : jsstring;
  phone : jsstring;
  googleMapsUrl : option jsstring;
}.

(** The request's progress as the form shows it ([interface ScrapeStatus]). *)
Record ScrapeStatus := mkScrapeStatus {
  loading : bool;
  error : option jsstring;
  complete : bool;
}.

(** [interface SearchParams]. *)
Record SearchParams := mkSearchParams {
  query : jsstring;
}.

#[export] Instance PlaceData_eq_dec : EqDecision PlaceData.
Proof. solve_decision. Defined.

#[export] Instance ScrapeStatus_eq_dec : EqDecision ScrapeStatus.
Proof. solve_decision. Defined.

#[export] Instance SearchParams_eq_dec : EqDecision SearchParams.
Proof. solve_decision. Defined.

(** The six textual fields of a record, in the order of the table's
    columns. *)
Definition columns_of (p : PlaceData) : list jsstring :=
  [name p; address p; rating p; reviews p; website p; phone p].

(** A record whose six textual fields are all populated. *)
Definition populated (p : PlaceData) : Prop :=
  Forall (λ s, s ≠ []) (columns_of p).

(** A record with another identifier: two extractions of the same text
    agree up to this. *)
Definition with_id (i : jsstring) (p : PlaceData) : PlaceData :=
  mkPlaceData i (name p) (address p) (rating p) (reviews p) (website p)
    (phone p) (googleMapsUrl p).

(** A record with a reference URL attached: [{...place, googleMapsUrl: u}]. *)
Definition with_url (u : option jsstring) (p : PlaceData) : PlaceData :=
  mkPlaceData (id p) (name p) (address p) (rating p) (reviews p) (website p)
    (phone p) u.

(** Two records are equivalent when they agree on everything but their
    identifiers; two arrays of records are, when their records are, one by
    one (the equivalence of lists that stdpp derives). *)
#[export] Instance PlaceData_equiv : Equiv PlaceData :=
  λ p q, with_id [] p = with_id [] q.

(** ** Lemmas *)

Section records.
Implicit Types (p : PlaceData) (i : jsstring) (u : option jsstring).

Lemma columns_of_length p : length (columns_of p) = 6.
Proof. done. Qed.

Lemma columns_of_with_id i p : columns_of (with_id i p) = columns_of p.
Proof. done. Qed.

Lemma columns_of_with_url u p : columns_of (with_url u p) = columns_of p.
Proof. done. Qed.

Lemma id_with_url u p : id (with_url u p) = id p.
Proof. done. Qed.

Lemma with_id_id p : with_id (id p) p = p.
Proof. by destruct p. Qed.

Lemma with_url_id p : with_url (googleMapsUrl p) p = p.
Proof. by destruct p. Qed.

Lemma populated_with_url u p : populated (with_url u p) ↔ populated p.
Proof. done. Qed.

(** Two records are equal when their identifiers, columns and URLs are. *)
Lemma PlaceData_eq p q :
  id p = id q → columns_of p = columns_of q →
  googleMapsUrl p = googleMapsUrl q → p = q.
Proof. destruct p, q. unfold columns_of. simpl. by intros -> [= -> -> -> -> -> ->] ->. Qed.

End records.

(** ** Records up to their identifiers *)

Section equiv.
Implicit Types (p q : PlaceData) (i : jsstring) (u : option jsstring).

#[export] Instance PlaceData_equivalence : Equivalence (≡@{PlaceData}).
Proof.
  unfold equiv, PlaceData_equiv. split; [done|by intros ?? ->|].
  by intros ??? -> ->.
Qed.

Lemma PlaceData_equiv_spec p q :
  p ≡ q ↔ columns_of p = columns_of q ∧ googleMapsUrl p = googleMapsUrl q.
Proof.
  unfold equiv, PlaceData_equiv. split.
  - intros H. split; [by rewrite <-(columns_of_with_id [] p), H|].
    by apply (f_equal googleMapsUrl) in H.
  - intros [Hc Hu]. by apply PlaceData_eq.
Qed.

#[export] Instance with_id_proper i : Proper ((≡) ==> (=)) (with_id i).
Proof.
  intros p q [Hc Hu]%PlaceData_equiv_spec. apply PlaceData_eq; by simpl.
Qed.

#[export] Instance columns_of_proper : Proper ((≡) ==> (=)) columns_of.
Proof. by intros p q [Hc _]%PlaceData_equiv_spec. Qed.

#[export] Instance googleMapsUrl_proper : Proper ((≡) ==> (=)) googleMapsUrl.
Proof. by intros p q [_ Hu]%PlaceData_equiv_spec. Qed.

#[export] Instance with_url_proper u : Proper ((≡) ==> (≡)) (with_url u).
Proof.
  intros p q [Hc Hu]%PlaceData_equiv_spec. by apply PlaceData_equiv_spec.
Qed.

#[export] Instance populated_proper : Proper ((≡) ==> iff) populated.
Proof. intros p q Hpq. unfold populated. by rewrite Hpq. Qed.

(** A record is equivalent to itself under any identifier. *)
Lemma with_id_equiv i p : with_id i p ≡ p.
Proof. by apply PlaceData_equiv_spec. Qed.

(** Arrays of records are equivalent when they have the same columns and
    the same URLs, in the same order. *)
Lemma PlaceData_list_equiv (l k : list PlaceData) :
  l ≡ k ↔ columns_of <$> l = columns_of <$> k
          ∧ googleMapsUrl <$> l = googleMapsUrl <$> k.
Proof.
  split.
  - induction 1 as [|p q l k [Hc Hu]%PlaceData_equiv_spec _ [IHc IHu]];
      [done|]. by rewrite !fmap_cons, Hc, Hu, IHc, IHu.
  - revert k. induction l as [|p l IH]; intros [|q k] [Hc Hu]; try done.
    rewrite !fmap_cons in Hc. rewrite !fmap_cons in Hu.
    constructor; [apply PlaceData_equiv_spec|apply IH]; split; congruence.
Qed.

(** A function that does not read the identifier gives equal results on
    equivalent arrays. *)
Lemma fmap_equiv_eq {B} (f : PlaceData → B) `{!Proper ((≡) ==> (=)) f}
    (l k : list PlaceData) :
  l ≡ k → f <$> l = f <$> k.
Proof.
  induction 1 as [|p q l k Hpq _ IH]; [done|].
  by rewrite !fmap_cons, IH, (Proper0 p q Hpq).
Qed.

End equiv.

#[export] Hint Rewrite columns_of_with_id columns_of_with_url id_with_url : js.
