(* ===== verification/Extern.v ===== *)
(** * Extern: what the program asks of the platform

    The sources call [crypto.randomUUID()] for each record they create.  The
    call is modelled by an interface: a session's generator is a function
    from the number of identifiers drawn so far to the next identifier, and
    the components thread that number as state.  What the platform promises
    (version-4 UUIDs do not repeat) is the law [UuidFresh]; theorems that
    need it assume it, and [unary_source] is an instance that satisfies it,
    on which witnesses are evaluated. *)

From S2P Require Import Prelude.

(** ** Definitions *)

(** The identifiers a session draws, in the order of the calls. *)
Class UuidSource := {
  randomUUID : nat → jsstring;
}.

(** The platform's promise: no identifier is drawn twice. *)
Class UuidFresh (U : UuidSource) : Prop := {
  randomUUID_inj : Inj (=) (=) (@randomUUID U);
}.

(** A generator for evaluation: the n-th identifier is n+1 letters [x]. *)
Definition unary_uuid (n : nat) : jsstring := replicate (S n) 120%N.

Definition unary_source : UuidSource := {| randomUUID := unary_uuid |}.

(** The identifiers drawn by [n] calls made after [g] earlier ones. *)
Definition drawn `{UuidSource} (g n : nat) : list jsstring :=
  randomUUID <$> seq g n.

(** ** Lemmas *)

Lemma unary_uuid_inj : Inj (=) (=) unary_uuid.
Proof.
  intros m n H. apply (f_equal length) in H.
  unfold unary_uuid in H. rewrite !length_replicate in H. lia.
Qed.

Lemma unary_fresh : UuidFresh unary_source.
Proof. split. apply unary_uuid_inj. Qed.

Section drawn.
Context `{U : UuidSource}.

Lemma drawn_length g n : length (drawn g n) = n.
Proof. unfold drawn. by rewrite length_fmap, length_seq. Qed.

Lemma drawn_cons g n : drawn g (S n) = randomUUID g :: drawn (S g) n.
Proof. done. Qed.

Lemma drawn_S g n : drawn g (S n) = drawn g n ++ [randomUUID (g + n)].
Proof. unfold drawn. by rewrite seq_S, fmap_app. Qed.

Lemma drawn_lookup g n k : k < n → drawn g n !! k = Some (randomUUID (g + k)).
Proof.
  intros Hk. unfold drawn. rewrite list_lookup_fmap, lookup_seq_lt by done. done.
Qed.

(** Identifiers drawn from a fresh source are pairwise distinct. *)
Lemma drawn_NoDup `{!UuidFresh U} g n : NoDup (drawn g n).
Proof.
  unfold drawn. apply NoDup_fmap_2; [apply randomUUID_inj|apply NoDup_seq].
Qed.

End drawn.
