(* ===== verification/Parser.v ===== *)
(** * Parser: the table extractor of [src/utils/parser.ts]

    [parseMarkdownTableToData] is translated statement by statement: the
    search for the separator line, the guard on its index, the loop over the
    lines that follow it (a fixpoint with fuel, [parse_rows]) and the loop's
    body ([parse_row]).  The state the loop threads is the array [data] it
    pushes to and the number of identifiers drawn from the platform.

    [parse_rows] spends one unit of fuel for each test of the loop's
    condition and returns [None] when the fuel runs out before the loop is
    left.  [parse_rows_fuel] says for which fuel it returns, and that the
    fuel given by [parseMarkdownTableToData], one more than the number of
    lines, is enough.

    [extract] is the extractor's specification: the records are the rows of
    the table's body that have two cells or more, in their order, with the
    identifiers drawn in that order.  [parse_refines_extract] shows that the
    loop computes it. *)

From S2P Require Import Prelude JsString Types Extern.

(** ** Definitions *)

(** The place holder of a cell the row does not have: ['N/A']. *)
Definition NA : jsstring := str "N/A".

(** The run of hyphens that marks the separator line: ['---']. *)
Definition DASHES : jsstring := str "---".

(** The separator line's test:
    [line.trim().startsWith('|') && line.includes('---')]. *)
Definition is_separator (line : jsstring) : bool :=
  startsWith [PIPE] (trim line) && includes DASHES line.

(** The cells of a line:
    [line.split('|').map(col => col.trim()).filter((col, index, arr) =>
    index > 0 && index < arr.length - 1)]. *)
Definition split_columns (line : jsstring) : list jsstring :=
  filter_index strictly_inside (trim <$> split PIPE line).

(** The record a row gives: each of the six columns, or ['N/A'] where the
    column is missing or empty; [uuid] is what [crypto.randomUUID()]
    returned. *)
Definition make_place (uuid : jsstring) (columns : list jsstring) : PlaceData :=
  {| id := uuid;
     name := columns !! 0 ||| NA;
     address := columns !! 1 ||| NA;
     rating := columns !! 2 ||| NA;
     reviews := columns !! 3 ||| NA;
     website := columns !! 4 ||| NA;
     phone := columns !! 5 ||| NA;
     googleMapsUrl := None |}.

Section parser.
Context `{U : UuidSource}.

(** The body of the loop, on the line [lines[i]]: a line that does not
    start with a pipe is passed over, and so is a row of fewer than two
    cells; any other row pushes a record with a new identifier. *)
Definition parse_row (raw : jsstring) (st : list PlaceData * nat)
    : list PlaceData * nat :=
  let line := trim raw in
  if negb (startsWith [PIPE] line) then st
  else
    let columns := split_columns line in
    if 2 <=? length columns
    then (st.1 ++ [make_place (randomUUID st.2) columns], S st.2)
    else st.

(** [for (let i = ...; i < lines.length; i++) { ... }]: one unit of fuel
    for each test of [i < lines.length].  The loop is left, with the state
    it has reached, when the test fails; when the fuel runs out before
    that, there is no result. *)
Fixpoint parse_rows (fuel : nat) (lines : list jsstring) (i : nat)
    (st : list PlaceData * nat) : option (list PlaceData * nat) :=
  match fuel with
  | 0 => None
  | S fuel' =>
      match lines !! i with
      | None => Some st
      | Some raw => parse_rows fuel' lines (S i) (parse_row raw st)
      end
  end.

(** [parseMarkdownTableToData(markdown)], run when [g] identifiers have
    been drawn: the records, and the number of identifiers drawn after it.
    The loop is given one unit of fuel more than there are lines, with
    which it always returns ([parse_rows_fuel]). *)
Definition parseMarkdownTableToData (markdown : jsstring) (g : nat)
    : list PlaceData * nat :=
  let lines := split LF (trim markdown) in
  let separatorIndex := findIndex is_separator lines in
  if (separatorIndex =? -1)%Z
     || (separatorIndex + 1 >=? Z.of_nat (length lines))%Z
  then ([], g)
  else
    default ([], g)
      (parse_rows (S (length lines)) lines (Z.to_nat (separatorIndex + 1))
         ([], g)).

(** ** The extractor's specification *)

(** The cells of a line that is a row of the table, [None] for any other
    line: the line starts with a pipe once trimmed, and has two cells or
    more between its first and its last pipe. *)
Definition row_cells (raw : jsstring) : option (list jsstring) :=
  let line := trim raw in
  if startsWith [PIPE] line then
    let cells := trim <$> middle (split PIPE line) in
    if 2 <=? length cells then Some cells else None
  else None.

(** The lines after the first separator line; none when there is no
    separator line. *)
Fixpoint body_lines (lines : list jsstring) : list jsstring :=
  match lines with
  | [] => []
  | line :: rest => if is_separator line then rest else body_lines rest
  end.

(** The rows of the table in a text. *)
Definition table_rows (markdown : jsstring) : list (list jsstring) :=
  omap row_cells (body_lines (split LF (trim markdown))).

(** The records of a text: one for each row, in order, with the
    identifiers drawn in that order. *)
Definition extract (markdown : jsstring) (g : nat) : list PlaceData :=
  zip_with make_place (drawn g (length (table_rows markdown)))
    (table_rows markdown).

End parser.

(** The six columns a row gives: its cells in order, ['N/A'] for a cell the
    row does not have or leaves empty; cells after the sixth are not read. *)
Definition pad_columns (cells : list jsstring) : list jsstring :=
  (λ k, cells !! k ||| NA) <$> seq 0 6.

(** A cell as it is read from a row: no white space at its ends, no pipe
    and no line feed. *)
Definition tidy_cell (s : jsstring) : Prop :=
  trimmed s ∧ (PIPE ∉ s) ∧ (LF ∉ s).

(** A column as the extractor returns it: a tidy cell that is not empty. *)
Definition clean_cell (s : jsstring) : Prop :=
  tidy_cell s ∧ s ≠ [].

#[export] Instance tidy_cell_dec s : Decision (tidy_cell s).
Proof. unfold tidy_cell. apply _. Defined.

#[export] Instance clean_cell_dec s : Decision (clean_cell s).
Proof. unfold clean_cell. apply _. Defined.

(** ** A well-formed table

    What the generation service is instructed to emit, and what the
    extractor's contract speaks of: a header row, a divider row, and one
    row per record, each cell between two pipes and padded with a space. *)

Definition render_cell (cell : jsstring) : jsstring :=
  [SPACE] ++ cell ++ [SPACE].

Definition render_row (cells : list jsstring) : jsstring :=
  PIPE :: join [PIPE] (render_cell <$> cells) ++ [PIPE].

Definition divider_row (n : nat) : jsstring :=
  PIPE :: join [PIPE] (replicate n DASHES) ++ [PIPE].

Definition table_lines (header : list jsstring)
    (rows : list (list jsstring)) : list jsstring :=
  render_row header :: divider_row (length header) :: (render_row <$> rows).

Definition render_table (header : list jsstring)
    (rows : list (list jsstring)) : jsstring :=
  join [LF] (table_lines header rows).

(** A table and then another, as a text. *)
Definition render_two_tables (header : list jsstring)
    (rows : list (list jsstring)) (header' : list jsstring)
    (rows' : list (list jsstring)) : jsstring :=
  join [LF] (table_lines header rows ++ table_lines header' rows').

(** A line of a table: it stands between two pipes and holds no line
    feed. *)
Definition table_line (s : jsstring) : Prop :=
  (LF ∉ s) ∧ ∃ t, s = PIPE :: t ++ [PIPE].

(** A line of prose: it holds no line feed and does not start with a pipe
    once trimmed.  A blank line is one. *)
Definition prose_line (s : jsstring) : Prop :=
  (LF ∉ s) ∧ head (trim s) ≠ Some PIPE.

#[export] Instance prose_line_dec s : Decision (prose_line s).
Proof. unfold prose_line. apply _. Defined.

(** The lines of a reply that holds a table among prose: an introduction,
    the header and the divider, rows, notes, more rows, a conclusion. *)
Definition reply_lines (intro : list jsstring) (header : list jsstring)
    (rows : list (list jsstring)) (notes : list jsstring)
    (rows' : list (list jsstring)) (outro : list jsstring) : list jsstring :=
  intro ++ table_lines header rows ++ notes ++ (render_row <$> rows') ++ outro.

(** A text for evaluation: prose, a header, the separator line, a full row,
    a line of prose, a row with two empty cells and no closing pipe, a row of
    one cell, and a row of two cells. *)
Definition sample_text : jsstring :=
  join [LF] (str <$>
    [ "Here are the places:";
      "| Name | Address | Rating | Reviews | Website | Phone |";
      "|---|---|---|---|---|---|";
      "| Cafe A | 1 Main St | 4.5 | 120 | http://a.example | 555 |";
      "(some prose)";
      "| B | 2 Side St ||  | w";
      "| Solo |";
      "| C | D |"; EmptyString ])%string.

(** The cells of a row whose fourth cell is empty. *)
Definition sample_cells : list jsstring :=
  [str "A"; str "B"; str "4.5"; []; str "w"; str "p"].

(** A header and two rows of six cells for evaluation. *)
Definition sample_header : list jsstring :=
  str <$> ["Name"; "Address"; "Rating"; "Reviews"; "Website"; "Phone"]%string.

Definition sample_rows : list (list jsstring) :=
  [ str <$> ["Cafe A"; "1 Main St, Baku"; "4.5"; "120"; "http://a.example";
             "+994 12 555"]%string;
    str <$> ["Tea - House"; "2 Side St"; "N/A"; "7"; "N/A"; "N/A"]%string ].

(** ** The loop computes the specification *)

Section refinement.
Context `{U : UuidSource}.
Implicit Types (raw line md : jsstring) (lines rows : list jsstring).
Implicit Types (data : list PlaceData) (g i fuel : nat).
Implicit Types (st : list PlaceData * nat).

(** The filter on indices keeps the cells between the first and the last
    pipe. *)
Lemma split_columns_middle line :
  split_columns line = trim <$> middle (split PIPE line).
Proof. unfold split_columns. by rewrite filter_index_inside, middle_fmap. Qed.

(** The loop's body pushes one record for a row and nothing for any other
    line. *)
Lemma parse_row_cells raw st :
  parse_row raw st =
  match row_cells raw with
  | Some cells => (st.1 ++ [make_place (randomUUID st.2) cells], S st.2)
  | None => st
  end.
Proof.
  unfold parse_row, row_cells. rewrite split_columns_middle.
  destruct (startsWith [PIPE] (trim raw)); simpl; [|done]. by case_match.
Qed.

(** The loop with enough fuel: it is left after one iteration for each
    line from index [i] on, and it is a left fold of its body over these
    lines. *)
Lemma parse_rows_foldl fuel lines i st :
  length lines - i < fuel →
  parse_rows fuel lines i st =
  Some (foldl (λ st raw, parse_row raw st) st (drop i lines)).
Proof.
  revert i st. induction fuel as [|fuel IH]; intros i st Hfuel; simpl; [lia|].
  destruct (lines !! i) as [raw|] eqn:Hi.
  - rewrite (drop_S _ _ _ Hi). simpl. apply IH.
    apply lookup_lt_Some in Hi. lia.
  - apply lookup_ge_None in Hi. by rewrite drop_ge.
Qed.

(** The loop with too little fuel: the test of the loop's condition that
    would end it is not reached. *)
Lemma parse_rows_None fuel lines i st :
  fuel ≤ length lines - i → parse_rows fuel lines i st = None.
Proof.
  revert i st. induction fuel as [|fuel IH]; intros i st Hfuel; simpl; [done|].
  destruct (lookup_lt_is_Some_2 lines i) as [raw ->]; [lia|]. apply IH. lia.
Qed.

(** The fold pushes the rows' records in order, drawing one identifier for
    each. *)
Lemma foldl_parse_row rows data g :
  foldl (λ st raw, parse_row raw st) (data, g) rows =
  (data ++ zip_with make_place (drawn g (length (omap row_cells rows)))
             (omap row_cells rows),
   g + length (omap row_cells rows)).
Proof.
  revert data g. induction rows as [|raw rows IH]; intros data g; simpl.
  - by rewrite app_nil_r, Nat.add_0_r.
  - rewrite parse_row_cells. destruct (row_cells raw) as [cells|]; simpl; [|done].
    by rewrite IH, <-app_assoc, Nat.add_succ_r.
Qed.

Lemma body_lines_cons line lines :
  body_lines (line :: lines) =
  if is_separator line then lines else body_lines lines.
Proof. done. Qed.

Lemma body_lines_none lines :
  Forall (λ line, is_separator line = false) lines → body_lines lines = [].
Proof. induction 1 as [|line lines Hl _ IH]; simpl; [done|by rewrite Hl]. Qed.

Lemma body_lines_app pre line post :
  Forall (λ line, is_separator line = false) pre → is_separator line = true →
  body_lines (pre ++ line :: post) = post.
Proof.
  intros Hpre Hline. induction Hpre as [|l pre Hl _ IH]; simpl.
  - by rewrite Hline.
  - by rewrite Hl.
Qed.

(** The lines after the separator are those after the index that
    [findIndex] returns. *)
Lemma body_lines_findIndex lines :
  body_lines lines =
  if (findIndex is_separator lines =? -1)%Z then []
  else drop (Z.to_nat (findIndex is_separator lines + 1)) lines.
Proof.
  destruct (findIndex_bounds is_separator lines) as [Hnone|Hk].
  - rewrite Hnone. simpl. by apply body_lines_none, findIndex_none.
  - destruct (Z.eqb_spec (findIndex is_separator lines) (-1)); [lia|].
    destruct (findIndex_split is_separator lines
                (Z.to_nat (findIndex is_separator lines)))
      as (pre & line & post & -> & Hlen & Hpre & Hline); [lia|].
    rewrite body_lines_app by done.
    replace (Z.to_nat _) with (length pre + 1) by lia.
    by rewrite drop_app_add.
Qed.

(** The function and the specification, in the form the later proofs
    rewrite with. *)
Lemma parse_extract md g :
  parseMarkdownTableToData md g = (extract md g, g + length (extract md g)).
Proof.
  unfold parseMarkdownTableToData, extract, table_rows.
  rewrite length_zip_with, drawn_length, Nat.min_id.
  rewrite (body_lines_findIndex (split LF (trim md))).
  set (lines := split LF (trim md)).
  destruct (Z.eqb_spec (findIndex is_separator lines) (-1)); cbn [orb].
  { simpl. by rewrite Nat.add_0_r. }
  destruct (Z.geb_spec (findIndex is_separator lines + 1)
              (Z.of_nat (length lines))).
  - rewrite drop_ge by lia. simpl. by rewrite Nat.add_0_r.
  - rewrite parse_rows_foldl by lia. apply foldl_parse_row.
Qed.

(** C1.  Refinement: the translated function, with its guard on the
    separator's index and its loop over the lines, computes the
    specification.  The records it returns are those of [extract], one for
    each row of the table's body in order, and it draws exactly one
    identifier for each row. *)
Theorem parse_refines_extract md g :
  parseMarkdownTableToData md g = (extract md g, g + length (table_rows md)).
Proof.
  rewrite parse_extract. unfold extract.
  by rewrite length_zip_with, drawn_length, Nat.min_id.
Qed.

(** C11.  Termination of the loop: from the index [i] the loop tests its
    condition once for each line that is left and once more to end, and
    then returns the fold of its body over these lines; with less fuel than
    that it does not return.  One unit more than the number of lines,
    which [parseMarkdownTableToData] gives, is enough from every index. *)
Theorem parse_rows_fuel fuel lines i st :
  parse_rows fuel lines i st =
  (if decide (length lines - i < fuel)
   then Some (foldl (λ st raw, parse_row raw st) st (drop i lines))
   else None) ∧
  is_Some (parse_rows (S (length lines)) lines i st).
Proof.
  split; [|by rewrite parse_rows_foldl by lia].
  case_decide; [by apply parse_rows_foldl|apply parse_rows_None; lia].
Qed.

End refinement.

(** The sample text has nine lines: from the line after the separator the
    loop needs seven units of fuel, and does not return with six. *)
Lemma parse_rows_fuel_sample :
  @parse_rows unary_source 6 (split LF sample_text) 3 ([], 0) = None ∧
  is_Some (@parse_rows unary_source 7 (split LF sample_text) 3 ([], 0)).
Proof. split; [by vm_compute|]. vm_compute. by eexists. Qed.

(** ** What the extractor returns *)

Section extract.
Context `{U : UuidSource}.
Implicit Types (md raw : jsstring) (cells : list jsstring) (g k : nat).

Lemma columns_of_make_place uuid cells :
  columns_of (make_place uuid cells) = pad_columns cells.
Proof. done. Qed.

Lemma id_make_place uuid cells : id (make_place uuid cells) = uuid.
Proof. done. Qed.

Lemma extract_length md g : length (extract md g) = length (table_rows md).
Proof.
  unfold extract. by rewrite length_zip_with, drawn_length, Nat.min_id.
Qed.

(** The records' identifiers are the identifiers drawn, in order. *)
Lemma extract_ids md g :
  id <$> extract md g = drawn g (length (table_rows md)).
Proof.
  unfold extract. apply fmap_zip_with_l; [done|]. by rewrite drawn_length.
Qed.

(** The records' columns are the rows' cells, padded: they do not depend
    on the identifiers. *)
Lemma extract_columns md g :
  columns_of <$> extract md g = pad_columns <$> table_rows md.
Proof.
  unfold extract. apply fmap_zip_with_right; [done|]. by rewrite drawn_length.
Qed.

(** No record has a reference URL when it leaves the extractor. *)
Lemma extract_urls md g :
  googleMapsUrl <$> extract md g = (λ _, None) <$> table_rows md.
Proof.
  unfold extract. apply fmap_zip_with_right; [done|]. by rewrite drawn_length.
Qed.

(** The same, record by record: the k-th record comes from the k-th row of
    the table and carries the k-th identifier drawn by the call. *)
Lemma extract_lookup md g k :
  (parseMarkdownTableToData md g).1 !! k =
  make_place (randomUUID (g + k)) <$> table_rows md !! k.
Proof.
  rewrite parse_extract. unfold extract. simpl.
  rewrite lookup_zip_with. destruct (table_rows md !! k) as [cells|] eqn:Hk.
  - rewrite drawn_lookup by (by eapply lookup_lt_Some). done.
  - by destruct (drawn _ _ !! k).
Qed.

(** One record per row: the extractor returns as many records as the
    table's body has rows of two cells or more, and draws as many
    identifiers. *)
Lemma parse_count md g :
  length (parseMarkdownTableToData md g).1 = length (table_rows md) ∧
  (parseMarkdownTableToData md g).2 = g + length (table_rows md).
Proof. rewrite parse_extract. simpl. by rewrite extract_length. Qed.

(** C6.  Unique identifiers: with a platform whose identifiers do not
    repeat, the records of one extraction have pairwise distinct
    identifiers. *)
Theorem parse_ids_NoDup `{!UuidFresh U} md g :
  NoDup (id <$> (parseMarkdownTableToData md g).1).
Proof.
  rewrite parse_extract. simpl. rewrite extract_ids. apply drawn_NoDup.
Qed.

Lemma pad_columns_nonempty cells : Forall (λ s, s ≠ []) (pad_columns cells).
Proof. apply Forall_fmap, Forall_true. intros k. by apply or_default_nonempty. Qed.

(** Populated fields: every record the extractor returns has its six
    textual fields populated, whatever the text. *)
Lemma parse_populated md g :
  Forall populated (parseMarkdownTableToData md g).1.
Proof.
  rewrite parse_extract. simpl.
  change (Forall (Forall (λ s, s ≠ []) ∘ columns_of) (extract md g)).
  rewrite <-Forall_fmap, extract_columns.
  apply Forall_fmap, Forall_true. intros cells. apply pad_columns_nonempty.
Qed.

End extract.

(** The records of a text, whatever the identifiers: the specification
    gives equivalent arrays for any two generators and any two counts of
    identifiers drawn. *)
Lemma extract_equiv (U U' : UuidSource) md g g' :
  @extract U md g ≡ @extract U' md g'.
Proof.
  apply PlaceData_list_equiv. by rewrite !extract_columns, !extract_urls.
Qed.

(** C16.  Idempotence: two extractions of the same text, at any two
    moments of a session and even with two generators of identifiers,
    return as many records, with the same fields and the same absent URL
    in the same order; only the identifiers differ. *)
Theorem parse_idempotent (U U' : UuidSource) md g g' :
  (@parseMarkdownTableToData U md g).1 ≡ (@parseMarkdownTableToData U' md g').1.
Proof. rewrite !parse_extract. apply extract_equiv. Qed.

(** The identifiers of the sample's three records are pairwise distinct. *)
Lemma parse_ids_NoDup_witness :
  NoDup (id <$> (@parseMarkdownTableToData unary_source sample_text 0).1).
Proof. apply (@parse_ids_NoDup unary_source unary_fresh). Defined.

(** ** Lines that are rows, and lines that are not *)

Section rows.
Context `{U : UuidSource}.
Implicit Types (md raw line : jsstring) (cells : list jsstring) (g k : nat).
Implicit Types (st : list PlaceData * nat) (lines : list jsstring).

(** The separator line: a pipe first once trimmed, and three hyphens in a
    row somewhere. *)
Lemma is_separator_spec line :
  is_separator line = true ↔
  head (trim line) = Some PIPE ∧ ∃ a b, line = a ++ DASHES ++ b.
Proof.
  unfold is_separator. by rewrite andb_true_iff, startsWith_char, includes_spec.
Qed.

Lemma row_cells_Some raw cells :
  row_cells raw = Some cells ↔
  head (trim raw) = Some PIPE ∧ 2 ≤ length cells ∧
  cells = trim <$> middle (split PIPE (trim raw)).
Proof.
  unfold row_cells. destruct (startsWith [PIPE] (trim raw)) eqn:Hp.
  - apply startsWith_char in Hp.
    destruct (Nat.leb_spec 2 (length (trim <$> middle (split PIPE (trim raw))))).
    + split; [by intros [= <-]|by intros (_ & _ & ->)].
    + split; [done|]. intros (_ & Hlen & ->). lia.
  - split; [done|]. intros [Hh _]. apply startsWith_char in Hh. congruence.
Qed.

Lemma row_cells_prose raw :
  head (trim raw) ≠ Some PIPE → row_cells raw = None.
Proof.
  intros Hh. destruct (row_cells raw) as [cells|] eqn:E; [|done].
  by apply row_cells_Some in E as [? _].
Qed.

Lemma table_rows_nil md :
  Forall (λ line, is_separator line = false) (split LF (trim md)) →
  table_rows md = [].
Proof. intros H. unfold table_rows. by rewrite body_lines_none. Qed.

(** C17.  No separator, no table: a text none of whose lines starts with a
    pipe (once trimmed) and holds three hyphens in a row gives no record,
    and no identifier is drawn. *)
Theorem parse_no_separator md g :
  Forall (λ line, is_separator line = false) (split LF (trim md)) →
  parseMarkdownTableToData md g = ([], g).
Proof.
  intros H. rewrite parse_extract. unfold extract.
  rewrite table_rows_nil by done. simpl. by rewrite Nat.add_0_r.
Qed.

(** The extractor returns no record exactly when the table's body has no
    row of two cells or more: a separator line with nothing usable after it
    is no error. *)
Lemma parse_nil_iff md g :
  (parseMarkdownTableToData md g).1 = [] ↔ table_rows md = [].
Proof.
  rewrite <-!length_zero_iff_nil. rewrite parse_extract. simpl.
  by rewrite extract_length.
Qed.

(** Stray prose: a line that does not start with a pipe once trimmed
    changes nothing, wherever it stands after the separator; the loop goes
    on to the lines that follow it. *)
Lemma parse_rows_prose lines lines' raw st :
  head (trim raw) ≠ Some PIPE →
  parse_rows (S (length (lines ++ raw :: lines'))) (lines ++ raw :: lines') 0 st
  = parse_rows (S (length (lines ++ lines'))) (lines ++ lines') 0 st.
Proof.
  intros Hraw. rewrite !parse_rows_foldl, !drop_0 by lia.
  rewrite !foldl_app. simpl. by rewrite parse_row_cells, row_cells_prose.
Qed.

(** C39.  A row of exactly two cells gives a record with its name and
    address, and ['N/A'] in the four other fields. *)
Theorem parse_row_two_cells raw a b st :
  row_cells raw = Some [a; b] → a ≠ [] → b ≠ [] →
  parse_row raw st =
  (st.1 ++ [mkPlaceData (randomUUID st.2) a b NA NA NA NA None], S st.2).
Proof.
  intros Hraw Ha Hb. rewrite parse_row_cells, Hraw. by destruct a, b.
Qed.

(** C20.  An empty cell is not kept as an empty string: the record has
    ['N/A'] in its place, as it has for a cell the row lacks. *)
Theorem make_place_empty_cell uuid cells k :
  cells !! k = Some [] → k < 6 →
  columns_of (make_place uuid cells) !! k = Some NA ∧
  columns_of (make_place uuid (take k cells)) !! k = Some NA.
Proof.
  intros Hk Hlt. rewrite !columns_of_make_place. unfold pad_columns.
  rewrite !list_lookup_fmap, !lookup_seq_lt by done. simpl.
  rewrite Hk, lookup_take_ge by lia. done.
Qed.

(** Cells after the sixth are not read. *)
Lemma make_place_extra_cells uuid cells :
  make_place uuid (take 6 cells) = make_place uuid cells.
Proof.
  unfold make_place. by rewrite !lookup_take_lt by lia.
Qed.

Lemma body_lines_subseteq lines : body_lines lines ⊆ lines.
Proof.
  induction lines as [|line lines IH]; simpl; [done|].
  destruct (is_separator line); by apply list_subseteq_cons.
Qed.

Lemma NA_clean : clean_cell NA.
Proof.
  repeat split; try (by intros c [= <-]); compute_done.
Qed.

(** The cells of a row that has no line feed are tidy. *)
Lemma row_cells_tidy raw cells :
  LF ∉ raw → row_cells raw = Some cells → Forall tidy_cell cells.
Proof.
  intros Hraw (_ & _ & ->)%row_cells_Some.
  apply Forall_fmap, Forall_forall. intros seg Hseg%elem_of_middle. simpl.
  split_and!; [apply trim_trimmed|..]; intros Hc%trim_elem_of.
  - pose proof (split_Forall PIPE (trim raw)) as Hall.
    rewrite Forall_forall in Hall. by eapply Hall.
  - by eapply Hraw, trim_elem_of, split_elem_of.
Qed.

Lemma table_rows_tidy md : Forall (Forall tidy_cell) (table_rows md).
Proof.
  apply Forall_forall. intros cells (raw & Hraw & Hcells)%list_elem_of_omap.
  apply (row_cells_tidy raw); [|done].
  apply body_lines_subseteq in Hraw.
  pose proof (split_Forall LF (trim md)) as Hall.
  rewrite Forall_forall in Hall. by apply Hall.
Qed.

Lemma pad_columns_clean cells :
  Forall tidy_cell cells → Forall clean_cell (pad_columns cells).
Proof.
  intros Hall. apply Forall_fmap, Forall_true. intros k. simpl.
  destruct (or_default_cases (cells !! k) NA) as [(s & Hs & Hne & ->)|[_ ->]];
    [|apply NA_clean].
  split; [|done]. rewrite Forall_forall in Hall.
  by eapply Hall, list_elem_of_lookup_2.
Qed.

Lemma extract_clean md g :
  Forall (λ p, Forall clean_cell (columns_of p)) (extract md g).
Proof.
  change (Forall (Forall clean_cell ∘ columns_of) (extract md g)).
  rewrite <-Forall_fmap, extract_columns.
  apply Forall_fmap. eapply Forall_impl; [apply table_rows_tidy|].
  intros cells. apply pad_columns_clean.
Qed.

(** C15.  Populated and clean fields: whatever the text, every record the
    extractor returns has its six textual fields populated, and each of
    them is free of pipes and line feeds and has no white space at its
    ends. *)
Theorem parse_clean md g :
  Forall populated (parseMarkdownTableToData md g).1 ∧
  Forall (λ p, Forall clean_cell (columns_of p)) (parseMarkdownTableToData md g).1.
Proof.
  split; [apply parse_populated|]. rewrite parse_extract. apply extract_clean.
Qed.

End rows.

(** ** Round trip: a well-formed table is read back as it was written *)

Section render.
Context `{U : UuidSource}.
Implicit Types (cell : jsstring) (cells header : list jsstring).
Implicit Types (rows : list (list jsstring)) (g : nat).

Lemma render_cell_no_char c cell :
  c ≠ SPACE → c ∉ cell → c ∉ render_cell cell.
Proof.
  intros Hc Hcell. unfold render_cell.
  rewrite !not_elem_of_app, !not_elem_of_cons.
  split_and!; try done; apply not_elem_of_nil.
Qed.

Lemma render_row_no_LF cells : Forall tidy_cell cells → LF ∉ render_row cells.
Proof.
  intros Hall. unfold render_row.
  rewrite not_elem_of_cons, not_elem_of_app. split_and!; [done| |compute_done].
  apply not_elem_of_join; [compute_done|]. apply Forall_fmap.
  eapply Forall_impl; [done|]. intros cell (_ & _ & Hlf).
  by apply render_cell_no_char.
Qed.

Lemma divider_row_no_LF n : LF ∉ divider_row n.
Proof.
  unfold divider_row.
  rewrite not_elem_of_cons, not_elem_of_app. split_and!; [done| |compute_done].
  apply not_elem_of_join; [compute_done|]. apply Forall_replicate. compute_done.
Qed.

Lemma divider_row_separator n : is_separator (divider_row (S n)) = true.
Proof.
  apply is_separator_spec. unfold divider_row. split.
  - by rewrite trim_id by (by apply trimmed_wrapped).
  - destruct n as [|n].
    + by exists [PIPE], [PIPE].
    + exists [PIPE], ([PIPE] ++ join [PIPE] (replicate (S n) DASHES) ++ [PIPE]).
      simpl replicate. rewrite join_cons by done. by rewrite <-!app_assoc.
Qed.

(** A rendered row is read back as its cells. *)
Lemma row_cells_render cells :
  2 ≤ length cells → Forall tidy_cell cells →
  row_cells (render_row cells) = Some cells.
Proof.
  intros Hlen Hall. apply row_cells_Some. unfold render_row.
  rewrite trim_id by (by apply trimmed_wrapped). split_and!; [done..|].
  rewrite split_wrapped, middle_app.
  - rewrite <-list_fmap_compose. symmetry. apply fmap_id_on.
    eapply Forall_impl; [done|]. intros cell (Ht & _). by apply trim_padded.
  - destruct cells; [simpl in Hlen; lia|done].
  - apply Forall_fmap. eapply Forall_impl; [done|]. intros cell (_ & Hp & _).
    by apply render_cell_no_char.
Qed.

(** Lines of tables, joined and trimmed, are split into the lines. *)
Lemma split_table_lines lines :
  lines ≠ [] → Forall table_line lines →
  split LF (trim (join [LF] lines)) = lines.
Proof.
  intros Hne Hall. rewrite trim_id.
  { apply split_join; [done|]. eapply Forall_impl; [done|]. by intros s [? _]. }
  split; intros c.
  - destruct Hall as [|s l (_ & t & ->) _]; [done|]. destruct l; by intros [= <-].
  - destruct (proj2 (last_is_Some lines)) as [s Hs]; [done|].
    pose proof Hs as (l & Hl)%last_Some. rewrite Hl in Hall |- *.
    apply Forall_app in Hall as [_ [(_ & t & ->) _]%Forall_cons].
    rewrite (last_join _ _ _ PIPE); [by intros [= <-]|].
    by rewrite app_comm_cons, last_snoc.
Qed.

Lemma render_row_line cells : Forall tidy_cell cells → table_line (render_row cells).
Proof. intros Hall. split; [by apply render_row_no_LF|]. by eexists. Qed.

Lemma divider_row_line n : table_line (divider_row n).
Proof. split; [apply divider_row_no_LF|]. by eexists. Qed.

Lemma table_lines_line header rows :
  Forall tidy_cell header → Forall (Forall tidy_cell) rows →
  Forall table_line (table_lines header rows).
Proof.
  intros Hh Hrows.
  repeat constructor; [by apply render_row_no_LF|by eexists|
                       apply divider_row_no_LF|by eexists|].
  apply Forall_fmap. eapply Forall_impl; [done|]. apply render_row_line.
Qed.

(** The lines of a rendered table. *)
Lemma render_table_lines header rows :
  Forall tidy_cell header → Forall (Forall tidy_cell) rows →
  split LF (trim (render_table header rows)) = table_lines header rows.
Proof. intros. apply split_table_lines; [done|by apply table_lines_line]. Qed.

(** The rows of a rendered table are the rows that were rendered. *)
Lemma table_rows_render header rows :
  header ≠ [] → Forall tidy_cell header →
  is_separator (render_row header) = false →
  Forall (λ cells, 2 ≤ length cells ∧ Forall tidy_cell cells) rows →
  table_rows (render_table header rows) = rows.
Proof.
  intros Hne Hh Hsep Hrows. unfold table_rows.
  rewrite render_table_lines; [|done|by eapply Forall_impl; [done|]; intros ? []].
  destruct header as [|c header]; [done|]. unfold table_lines.
  rewrite body_lines_cons, Hsep, body_lines_cons.
  change (length (c :: header)) with (S (length header)).
  rewrite divider_row_separator. apply omap_Some, Forall2_fmap_l, Forall_Forall2_diag.
  eapply Forall_impl; [done|]. intros cells [? ?]. by apply row_cells_render.
Qed.

Lemma pad_columns_id cells :
  length cells = 6 → Forall (λ s, s ≠ []) cells → pad_columns cells = cells.
Proof.
  intros Hlen Hall. do 7 (destruct cells as [|? cells]; try done).
  repeat (apply Forall_cons in Hall as [?%truthy_nonempty Hall]).
  unfold pad_columns, or_default. simpl.
  by repeat match goal with H : truthy _ = true |- _ => rewrite H; clear H end.
Qed.

(** The records of a rendered table: the columns of the k-th record are
    those of the k-th row. *)
Lemma extract_render header rows g :
  header ≠ [] → Forall tidy_cell header →
  is_separator (render_row header) = false →
  Forall (λ cells, 2 ≤ length cells ∧ Forall tidy_cell cells) rows →
  columns_of <$> extract (render_table header rows) g = pad_columns <$> rows.
Proof. intros. by rewrite extract_columns, table_rows_render. Qed.

(** C5.  Round trip: a well-formed table with a header that is no
    separator line and N rows of two cells or more is read back as N
    records, in order; the fields of a record are the cells of its row,
    with [N/A] for a cell that is empty or missing; when the rows have six
    cells that are not empty, the fields are the cells as they were
    written. *)
Theorem parse_render header rows g :
  header ≠ [] → Forall tidy_cell header →
  is_separator (render_row header) = false →
  Forall (λ cells, 2 ≤ length cells ∧ Forall tidy_cell cells) rows →
  length (parseMarkdownTableToData (render_table header rows) g).1
  = length rows ∧
  columns_of <$> (parseMarkdownTableToData (render_table header rows) g).1
  = pad_columns <$> rows ∧
  (Forall (λ cells, length cells = 6 ∧ Forall (λ s, s ≠ []) cells) rows →
   columns_of <$> (parseMarkdownTableToData (render_table header rows) g).1
   = rows).
Proof.
  intros Hne Hh Hsep Hrows. rewrite parse_extract. simpl.
  rewrite extract_length, extract_render, table_rows_render by done.
  split_and!; [done..|]. intros Hsix. apply fmap_id_on.
  eapply Forall_impl; [done|]. intros cells [? ?]. by apply pad_columns_id.
Qed.

(** C21.  A row that opens with a pipe and does not close with one loses
    its last cell: the filter drops the last segment whether or not it is
    empty. *)
Theorem split_columns_open cells :
  cells ≠ [] → Forall (λ s, PIPE ∉ s) cells →
  split_columns (PIPE :: join [PIPE] cells) =
  trim <$> take (length cells - 1) cells.
Proof.
  intros Hne Hall. rewrite split_columns_middle, split_open by done.
  unfold middle. simpl. by rewrite ?drop_0, ?Nat.sub_0_r.
Qed.

(** A divider line of two columns or more is a row of the table, whose
    cells are runs of hyphens. *)
Lemma row_cells_divider n :
  2 ≤ n → row_cells (divider_row n) = Some (replicate n DASHES).
Proof.
  intros Hn. apply row_cells_Some. unfold divider_row.
  rewrite trim_id by (by apply trimmed_wrapped).
  split_and!; [done|by rewrite length_replicate|].
  rewrite split_wrapped, middle_app.
  - symmetry. apply fmap_id_on, Forall_replicate. compute_done.
  - destruct n; [lia|done].
  - apply Forall_replicate. compute_done.
Qed.

(** The rows of a table followed by another: those of the first, the
    header and the divider of the second, those of the second. *)
Lemma table_rows_two_tables header rows header' rows' :
  header ≠ [] → Forall tidy_cell header →
  is_separator (render_row header) = false →
  Forall (λ cells, 2 ≤ length cells ∧ Forall tidy_cell cells)
    (rows ++ header' :: rows') →
  table_rows (render_two_tables header rows header' rows')
  = rows ++ header' :: replicate (length header') DASHES :: rows'.
Proof.
  intros Hne Hh Hsep Hrows. unfold table_rows, render_two_tables.
  assert (Forall (λ cells, row_cells (render_row cells) = Some cells)
            (rows ++ header' :: rows')) as Hread.
  { eapply Forall_impl; [done|]. intros cells [? ?]. by apply row_cells_render. }
  assert (Forall (Forall tidy_cell) (rows ++ header' :: rows')) as Htidy.
  { eapply Forall_impl; [exact Hrows|]. by intros cells [_ ?]. }
  apply Forall_app in Hrows as [_ [[Hlen _] _]%Forall_cons].
  apply Forall_app in Htidy as [Hr [Hh' Hr']%Forall_cons].
  apply Forall_app in Hread as [Hrr [Hrh Hrr']%Forall_cons].
  rewrite split_table_lines;
    [|done|apply Forall_app; split; by apply table_lines_line].
  destruct header as [|c header]; [done|]. unfold table_lines at 1.
  rewrite <-!app_comm_cons, body_lines_cons, Hsep, body_lines_cons.
  change (length (c :: header)) with (S (length header)).
  rewrite divider_row_separator, omap_app. unfold table_lines. simpl.
  rewrite Hrh, row_cells_divider by done. simpl.
  rewrite (omap_Some row_cells (render_row <$> rows) rows),
    (omap_Some row_cells (render_row <$> rows') rows');
    [done|by apply Forall2_fmap_l, Forall_Forall2_diag..].
Qed.

(** Two texts with the same rows give the same records. *)
Lemma parse_table_rows md md' g :
  table_rows md = table_rows md' →
  parseMarkdownTableToData md g = parseMarkdownTableToData md' g.
Proof. intros Hrows. rewrite !parse_extract. unfold extract. by rewrite Hrows. Qed.

(** A line of prose is no separator line and no row. *)
Lemma prose_line_separator s : prose_line s → is_separator s = false.
Proof.
  intros [_ Hh]. apply not_true_iff_false. by intros [? _]%is_separator_spec.
Qed.

(** The rows among lines of prose and rendered rows. *)
Lemma omap_row_cells_rows rows :
  Forall (λ cells, 2 ≤ length cells ∧ Forall tidy_cell cells) rows →
  omap row_cells (render_row <$> rows) = rows.
Proof.
  intros Hrows. apply omap_Some, Forall2_fmap_l, Forall_Forall2_diag.
  eapply Forall_impl; [done|]. intros cells [? ?]. by apply row_cells_render.
Qed.

Lemma omap_row_cells_prose lines :
  Forall prose_line lines → omap row_cells lines = [].
Proof.
  intros Hall. apply omap_None. eapply Forall_impl; [done|].
  intros s [_ Hs]. by apply row_cells_prose.
Qed.

(** No line of a reply holds a line feed. *)
Lemma reply_lines_no_LF intro header rows notes rows' outro :
  Forall prose_line (intro ++ notes ++ outro) → Forall tidy_cell header →
  Forall (λ cells, 2 ≤ length cells ∧ Forall tidy_cell cells) (rows ++ rows') →
  Forall (λ s, LF ∉ s) (reply_lines intro header rows notes rows' outro).
Proof.
  rewrite !Forall_app. intros (Hi & Hn & Ho) Hh [Hr Hr'].
  assert (∀ l, Forall prose_line l → Forall (λ s, LF ∉ s) l) as Hprose.
  { intros l Hl. eapply Forall_impl; [done|]. by intros s [? _]. }
  assert (∀ l, Forall (λ cells, 2 ≤ length cells ∧ Forall tidy_cell cells) l →
               Forall (λ s, LF ∉ s) (render_row <$> l)) as Hrow.
  { intros l Hl. apply Forall_fmap. eapply Forall_impl; [done|].
    intros cells [_ ?]. by apply render_row_no_LF. }
  unfold reply_lines, table_lines. rewrite !Forall_app, !Forall_cons.
  split_and!; auto using render_row_no_LF, divider_row_no_LF.
Qed.

(** The rows of a reply are the rows of its table. *)
Lemma table_rows_reply before intro header rows notes rows' outro after :
  let core := join [LF] (reply_lines intro header rows notes rows' outro) in
  Forall (λ c, is_white_space c = true) (before ++ after) → trimmed core →
  Forall prose_line (intro ++ notes ++ outro) →
  header ≠ [] → Forall tidy_cell header →
  is_separator (render_row header) = false →
  Forall (λ cells, 2 ≤ length cells ∧ Forall tidy_cell cells) (rows ++ rows') →
  table_rows (before ++ core ++ after) = rows ++ rows'.
Proof.
  intros core [Hb Ha]%Forall_app Htrim Hprose Hne Hh Hsep Hrows.
  pose proof (reply_lines_no_LF _ _ _ _ _ _ Hprose Hh Hrows) as Hlf.
  assert (split LF core = reply_lines intro header rows notes rows' outro)
    as Hsplit.
  { apply split_join; [|done]. unfold reply_lines, table_lines.
    by destruct intro. }
  assert (core ≠ []) as Hcore.
  { intros E. rewrite E in Hsplit. unfold reply_lines, table_lines in Hsplit.
    by destruct intro as [|? [|??]]. }
  apply Forall_app in Hprose as (Hi & (Hn & Ho)%Forall_app).
  apply Forall_app in Hrows as [Hr Hr'].
  unfold table_rows. rewrite trim_ws_app, Hsplit by done.
  unfold reply_lines, table_lines.
  rewrite <-!app_comm_cons, (cons_middle (render_row header) intro), app_assoc.
  rewrite (body_lines_app (intro ++ [render_row header]));
    [|apply Forall_app; split; [|by constructor]|].
  - rewrite !omap_app, !omap_row_cells_rows, !omap_row_cells_prose by done.
    by rewrite app_nil_r.
  - eapply Forall_impl; [exact Hi|]. apply prose_line_separator.
  - destruct header; [done|]. apply divider_row_separator.
Qed.

(** C13.  Prose around the table is passed over: of a reply that holds
    an introduction, the header and the divider of a table, rows, notes,
    more rows and a conclusion, with any white space before and after, the
    extractor returns what it returns of the table alone, the identifiers
    included: one record for each row, in order.  The introduction, the
    notes and the conclusion are lines that do not start with a pipe once
    trimmed, blank lines included. *)
Theorem parse_surrounding_prose
    before intro header rows notes rows' outro after g :
  let core := join [LF] (reply_lines intro header rows notes rows' outro) in
  Forall (λ c, is_white_space c = true) (before ++ after) → trimmed core →
  Forall prose_line (intro ++ notes ++ outro) →
  header ≠ [] → Forall tidy_cell header →
  is_separator (render_row header) = false →
  Forall (λ cells, 2 ≤ length cells ∧ Forall tidy_cell cells) (rows ++ rows') →
  parseMarkdownTableToData (before ++ core ++ after) g
  = parseMarkdownTableToData (render_table header (rows ++ rows')) g ∧
  columns_of <$> (parseMarkdownTableToData (before ++ core ++ after) g).1
  = pad_columns <$> (rows ++ rows').
Proof.
  intros core Hws Htrim Hprose Hne Hh Hsep Hrows.
  assert (table_rows (before ++ core ++ after) = rows ++ rows') as Hread
    by (by apply table_rows_reply).
  split.
  - apply parse_table_rows. rewrite Hread. symmetry. by apply table_rows_render.
  - rewrite parse_extract. simpl. by rewrite extract_columns, Hread.
Qed.

(** C22.  A second table in the text is not told from the first: the
    extractor goes on after the rows of the first table and returns a
    record for the header of the second and one for its divider, whose
    fields are runs of hyphens, before the records of its rows. *)
Theorem parse_second_table header rows header' rows' g :
  header ≠ [] → Forall tidy_cell header →
  is_separator (render_row header) = false →
  Forall (λ cells, 2 ≤ length cells ∧ Forall tidy_cell cells)
    (rows ++ header' :: rows') →
  columns_of <$>
    (parseMarkdownTableToData (render_two_tables header rows header' rows') g).1
  = pad_columns <$>
      (rows ++ header' :: replicate (length header') DASHES :: rows').
Proof.
  intros. rewrite parse_extract. simpl.
  by rewrite extract_columns, table_rows_two_tables.
Qed.

End render.

(** The row [| A | B]: one cell is left, and the row gives no record. *)
Lemma split_columns_open_witness :
  split_columns (PIPE :: join [PIPE] [str " A "; str " B"]) =
  trim <$> take (length [str " A "; str " B"] - 1) [str " A "; str " B"].
Proof. apply split_columns_open; [done|compute_done]. Defined.

(** The sample table, twice: two records of the first table, then one
    for the second header, one for the second divider and two for the
    rows. *)
Lemma parse_second_table_witness :
  columns_of <$>
    (@parseMarkdownTableToData unary_source
       (render_two_tables sample_header sample_rows sample_header sample_rows)
       0).1
  = pad_columns <$>
      (sample_rows ++ sample_header
         :: replicate (length sample_header) DASHES :: sample_rows).
Proof.
  apply (@parse_second_table unary_source); [done|compute_done..].
Defined.

(** The sample table in a reply: blank lines and an introduction before
    it, a note and a blank line between its two rows, a conclusion and a
    line feed after it. *)
Lemma parse_surrounding_prose_witness :
  let core :=
    join [LF] (reply_lines [str "Here are the places:"; []] sample_header
                 (take 1 sample_rows) [str "(more below)"; str "  "]
                 (drop 1 sample_rows) [[]; str "That is all."]) in
  @parseMarkdownTableToData unary_source ([LF; SPACE] ++ core ++ [LF]) 0
  = @parseMarkdownTableToData unary_source
      (render_table sample_header (take 1 sample_rows ++ drop 1 sample_rows)) 0 ∧
  columns_of <$>
    (@parseMarkdownTableToData unary_source ([LF; SPACE] ++ core ++ [LF]) 0).1
  = pad_columns <$> (take 1 sample_rows ++ drop 1 sample_rows).
Proof.
  apply (@parse_surrounding_prose unary_source);
    [compute_done|compute_done|compute_done|done|compute_done..].
Defined.

(** The sample header and rows, rendered and read back. *)
Lemma parse_render_witness :
  length (@parseMarkdownTableToData unary_source
            (render_table sample_header sample_rows) 0).1
  = length sample_rows ∧
  columns_of <$> (@parseMarkdownTableToData unary_source
                    (render_table sample_header sample_rows) 0).1
  = pad_columns <$> sample_rows ∧
  (Forall (λ cells, length cells = 6 ∧ Forall (λ s, s ≠ []) cells) sample_rows →
   columns_of <$> (@parseMarkdownTableToData unary_source
                     (render_table sample_header sample_rows) 0).1
   = sample_rows).
Proof.
  apply (@parse_render unary_source); [done|compute_done..].
Defined.

(** A table whose divider has two hyphens per column is no table. *)
Lemma parse_no_separator_witness :
  @parseMarkdownTableToData unary_source
    (join [LF] (str <$> ["| Name | Address |"; "|--|--|"; "| A | B |"]%string))
    7 = ([], 7).
Proof.
  apply (@parse_no_separator unary_source). vm_compute. repeat constructor.
Defined.

(** A note between two rows is passed over. *)
Lemma parse_rows_prose_witness :
  @parse_rows unary_source 4 (str <$> ["| A | B |"; "note"; "| C | D |"]%string)
    0 ([], 0) =
  @parse_rows unary_source 3 (str <$> ["| A | B |"; "| C | D |"]%string)
    0 ([], 0).
Proof.
  apply (@parse_rows_prose unary_source [str "| A | B |"] [str "| C | D |"]
           (str "note")). by vm_compute.
Defined.

(** The row [| C | D |]. *)
Lemma parse_row_two_cells_witness :
  @parse_row unary_source (str "| C | D |") ([], 0) =
  ([mkPlaceData (unary_uuid 0) (str "C") (str "D") NA NA NA NA None], 1).
Proof.
  apply (@parse_row_two_cells unary_source (str "| C | D |") (str "C") (str "D")
           ([], 0)); by vm_compute.
Defined.

(** The row [| A | B | 4.5 || w | p |]: its fourth cell is empty. *)
Lemma make_place_empty_cell_witness :
  columns_of (make_place [] sample_cells) !! 3 = Some NA ∧
  columns_of (make_place [] (take 3 sample_cells)) !! 3 = Some NA.
Proof. apply (make_place_empty_cell [] sample_cells 3); [done|lia]. Defined.
