(* ===== verification/Csv.v ===== *)
(** * Csv: the serializer of [src/utils/parser.ts]

    [convertToCSV] and [downloadCSV] as the source writes them, and a
    reader of CSV text ([csv_read]: split on line feeds and commas that
    stand outside quotes, then remove the quotes and undo their doubling)
    against which the serializer's output is read back.

    The source doubles the quotes of the name and of the address only.
    [csv_roundtrip] shows that the text is read back as the records' fields
    when the five other fields hold no quote; [csv_quote_breaks] shows that
    one quote in one of them, the last apart, is enough for the rest of the
    record's line to be read back as one cell. *)

From S2P Require Import Prelude JsString Types.

(** ** Definitions *)

(** The byte-order mark, the code unit U+FEFF. *)
Definition BOM : char := 65279.

(** The header line's names. *)
Definition csv_headers : list jsstring :=
  str <$> ["Name"; "Address"; "Rating"; "Reviews"; "Website"; "Phone";
           "Google Maps URL"]%string.

(** A template literal that wraps a value in quotes. *)
Definition quote (s : jsstring) : jsstring := [QUOTE] ++ s ++ [QUOTE].

(** [s.replace] with the global pattern of one quote character and two
    quote characters as the replacement. *)
Definition escape (s : jsstring) : jsstring :=
  replace_char QUOTE [QUOTE; QUOTE] s.

(** The seven cells of a record's line: the name and the address with
    their quotes doubled, the other fields as they are, each in quotes; a
    record without URL has an empty last cell. *)
Definition csv_row (place : PlaceData) : list jsstring :=
  [ quote (escape (name place));
    quote (escape (address place));
    quote (rating place);
    quote (reviews place);
    quote (website place);
    quote (phone place);
    quote (googleMapsUrl place ||| []) ].

(** [convertToCSV(data)]: the header line and one line per record, in the
    records' order. *)
Definition convertToCSV (data : list PlaceData) : jsstring :=
  join [LF] (join [COMMA] csv_headers
             :: (join [COMMA] <$> (csv_row <$> data))).

(** What [downloadCSV] hands to the browser. *)
Record Download := mkDownload {
  blob_content : jsstring;
  blob_type : jsstring;
  download_name : jsstring;
}.

(** The page as [downloadCSV] sees it: the children of [document.body],
    and the downloads that clicks on links have started. *)
Record Page := mkPage {
  body_children : list Download;
  started : list Download;
}.

(** [downloadCSV(csvContent, filename)] on a page.  [supported] is the
    browser's answer to [link.download !== undefined]: when it is false the
    function does nothing.  Otherwise the link is appended to the body,
    clicked and removed. *)
Definition downloadCSV (supported : bool) (csvContent filename : jsstring)
    (page : Page) : Page :=
  let blob := BOM :: csvContent in
  let link := mkDownload blob (str "text/csv;charset=utf-8;") filename in
  if supported then
    let appended := mkPage (body_children page ++ [link]) (started page) in
    let clicked := mkPage (body_children appended) (started appended ++ [link]) in
    mkPage (take (length (body_children page)) (body_children clicked))
           (started clicked)
  else page.

(** ** A reader of CSV text *)

(** The fields of a record in the order of the header. *)
Definition csv_fields (place : PlaceData) : list jsstring :=
  [ name place; address place; rating place; reviews place; website place;
    phone place; googleMapsUrl place ||| [] ].

(** A code unit put before the first segment. *)
Definition cons_head (c : char) (segs : list jsstring) : list jsstring :=
  match segs with
  | [] => [[c]]
  | seg :: segs' => (c :: seg) :: segs'
  end.

(** Split at the separators that stand outside quotes: [inq] tells whether
    an odd number of quotes has been read. *)
Fixpoint split_outside (sep : char) (inq : bool) (s : jsstring)
    : list jsstring :=
  match s with
  | [] => [[]]
  | c :: s' =>
      if (c =? QUOTE)%N then cons_head c (split_outside sep (negb inq) s')
      else if (c =? sep)%N && negb inq then [] :: split_outside sep inq s'
      else cons_head c (split_outside sep inq s')
  end.

(** Undo the doubling of quotes. *)
Fixpoint undouble (s : jsstring) : jsstring :=
  match s with
  | [] => []
  | c :: s' =>
      match s' with
      | d :: s'' =>
          if (c =? QUOTE)%N && (d =? QUOTE)%N then QUOTE :: undouble s''
          else c :: undouble s'
      | [] => [c]
      end
  end.

(** The value of a cell: a cell in quotes loses them and the doubling of
    the quotes inside; any other cell is its own value. *)
Definition unquote (cell : jsstring) : jsstring :=
  match cell with
  | c :: rest =>
      if (c =? QUOTE)%N then undouble (take (length rest - 1) rest) else cell
  | [] => []
  end.

(** The lines of a CSV text, each as the values of its cells. *)
Definition csv_read (text : jsstring) : list (list jsstring) :=
  (λ line, unquote <$> split_outside COMMA false line)
    <$> split_outside LF false text.

(** A string put before the first segment. *)
Definition prepend (b : jsstring) (segs : list jsstring) : list jsstring :=
  match segs with
  | [] => [b]
  | seg :: segs' => (b ++ seg) :: segs'
  end.

(** The reader passes over [b] without a split, entering with the quote
    state [inq] and leaving with [inq']. *)
Definition passes (sep : char) (inq inq' : bool) (b : jsstring) : Prop :=
  ∀ rest, split_outside sep inq (b ++ rest) =
          prepend b (split_outside sep inq' rest).

(** A cell of the text, and the value it is read as: the reader of lines
    and the reader of cells pass over it, and its value is [value]. *)
Definition reads_as (cell value : jsstring) : Prop :=
  passes LF false false cell ∧ passes COMMA false false cell ∧
  unquote cell = value.

(** The fields the source leaves as they are hold no quote. *)
Definition quote_free (place : PlaceData) : Prop :=
  Forall (λ s, QUOTE ∉ s)
    [rating place; reviews place; website place; phone place;
     googleMapsUrl place ||| []].

#[export] Instance quote_free_dec place : Decision (quote_free place).
Proof. unfold quote_free. apply _. Defined.

(** The fields that the source writes as they are, in the order of the
    line. *)
Definition unescaped (place : PlaceData) : list jsstring :=
  [rating place; reviews place; website place; phone place;
   googleMapsUrl place ||| []].

(** A field that needs no quoting: it holds no quote, no comma and no line
    feed. *)
Definition plain (s : jsstring) : Prop :=
  (QUOTE ∉ s) ∧ (COMMA ∉ s) ∧ (LF ∉ s).

#[export] Instance plain_dec s : Decision (plain s).
Proof. unfold plain. apply _. Defined.

(** A record for evaluation: its name holds a quote and then a comma, its
    address a comma and a line feed; it has no URL. *)
Definition sample_place : PlaceData :=
  mkPlaceData (str "id-1")
    (str "Joe " ++ [QUOTE] ++ str "the Cafe, Inc")
    (str "1 Main St," ++ [LF] ++ str "Baku")
    (str "4.5") (str "120") (str "N/A") (str "555") None.

(** A record whose rating holds a quote. *)
Definition quoted_rating_place : PlaceData :=
  mkPlaceData (str "id-2") (str "B") (str "C")
    (str "4" ++ [QUOTE] ++ str "5") (str "120") (str "N/A") (str "555")
    (Some (str "https://maps.example/b")).

(** ** The reader passes over cells *)

Section reader.
Implicit Types (s b body cell : jsstring) (c sep : char) (inq : bool).
Implicit Types (segs : list jsstring).

Lemma cons_head_prepend c segs : cons_head c segs = prepend [c] segs.
Proof. by destruct segs. Qed.

Lemma prepend_nil segs : segs ≠ [] → prepend [] segs = segs.
Proof. by destruct segs. Qed.

Lemma prepend_app b1 b2 segs :
  prepend (b1 ++ b2) segs = prepend b1 (prepend b2 segs).
Proof. destruct segs; simpl; by rewrite <-?app_assoc. Qed.

Lemma split_outside_nonempty sep inq s : split_outside sep inq s ≠ [].
Proof.
  destruct s as [|c s]; simpl; [done|].
  repeat case_match; try done; by destruct (split_outside _ _ _).
Qed.

Lemma passes_nil sep inq : passes sep inq inq [].
Proof. intros rest. by rewrite prepend_nil by apply split_outside_nonempty. Qed.

Lemma passes_app sep inq inq' inq'' b1 b2 :
  passes sep inq inq' b1 → passes sep inq' inq'' b2 →
  passes sep inq inq'' (b1 ++ b2).
Proof.
  intros H1 H2 rest. by rewrite <-app_assoc, H1, H2, prepend_app.
Qed.

(** A quote flips the state. *)
Lemma passes_quote sep inq : passes sep inq (negb inq) [QUOTE].
Proof. intros rest. simpl. apply cons_head_prepend. Qed.

(** Inside quotes, any other code unit is passed over. *)
Lemma passes_inside sep c : c ≠ QUOTE → passes sep true true [c].
Proof.
  intros Hc rest. simpl. apply N.eqb_neq in Hc as ->.
  rewrite andb_false_r. apply cons_head_prepend.
Qed.

(** Outside quotes, any code unit but the quote and the separator is. *)
Lemma passes_outside sep c : c ≠ QUOTE → c ≠ sep → passes sep false false [c].
Proof.
  intros Hc Hs rest. simpl. apply N.eqb_neq in Hc as ->.
  apply N.eqb_neq in Hs as ->. apply cons_head_prepend.
Qed.

Lemma passes_cons sep inq inq' inq'' c b :
  passes sep inq inq' [c] → passes sep inq' inq'' b →
  passes sep inq inq'' (c :: b).
Proof. apply (passes_app _ _ _ _ [c]). Qed.

(** A string whose quotes are doubled is passed over inside quotes. *)
Lemma passes_escape sep s : passes sep true true (escape s).
Proof.
  induction s as [|c s IH]; [apply passes_nil|].
  unfold escape. rewrite replace_char_cons.
  eapply passes_app; [|apply IH]. destruct (N.eqb_spec c QUOTE) as [->|Hc].
  - apply (passes_cons _ _ false); apply passes_quote.
  - by apply passes_inside.
Qed.

(** So is a string that holds no quote. *)
Lemma passes_quote_free sep s : QUOTE ∉ s → passes sep true true s.
Proof.
  intros Hs. rewrite <-(replace_char_id QUOTE [QUOTE; QUOTE] s) by done.
  apply passes_escape.
Qed.

(** A string with no quote and no separator is passed over outside
    quotes. *)
Lemma passes_plain sep s : QUOTE ∉ s → sep ∉ s → passes sep false false s.
Proof.
  induction s as [|c s IH]; [intros; apply passes_nil|].
  intros [? ?]%not_elem_of_cons [? ?]%not_elem_of_cons.
  eapply passes_cons; [by apply passes_outside|by apply IH].
Qed.

(** A body between two quotes is passed over as one cell. *)
Lemma passes_quoted sep body :
  passes sep true true body → passes sep false false (quote body).
Proof.
  intros Hb. unfold quote.
  eapply passes_app; [apply (passes_quote _ false)|].
  eapply passes_app; [apply Hb|apply (passes_quote _ true)].
Qed.

(** Cells joined by the separator are split into the cells. *)
Lemma split_outside_join sep cells :
  sep ≠ QUOTE → cells ≠ [] → Forall (passes sep false false) cells →
  split_outside sep false (join [sep] cells) = cells.
Proof.
  intros Hsep Hne Hall. induction Hall as [|cell cells Hc Hall IH]; [done|].
  destruct cells as [|cell' cells].
  - rewrite join_singleton, <-(app_nil_r cell), Hc. simpl. by rewrite ?app_nil_r.
  - rewrite join_cons by done. change ([sep] ++ ?t) with (sep :: t).
    rewrite Hc. cbn [split_outside]. apply N.eqb_neq in Hsep as ->.
    rewrite N.eqb_refl, IH by done. simpl. by rewrite app_nil_r.
Qed.

End reader.

(** ** The text is read back as the records' fields *)

Section roundtrip.
Implicit Types (s body cell value : jsstring) (place : PlaceData).
Implicit Types (cells values : list jsstring) (data : list PlaceData).

(** Doubling the quotes and undoing it gives the string back. *)
Lemma undouble_escape s : undouble (escape s) = s.
Proof.
  induction s as [|c s IH]; [done|].
  unfold escape in *. rewrite replace_char_cons.
  destruct (N.eqb_spec c QUOTE) as [->|Hc]; simpl; [by rewrite IH|].
  apply N.eqb_neq in Hc. destruct (replace_char _ _ s) eqn:E.
  - by rewrite <-IH.
  - rewrite Hc. simpl. by rewrite <-IH.
Qed.

Lemma undouble_quote_free s : QUOTE ∉ s → undouble s = s.
Proof.
  intros Hs. rewrite <-(replace_char_id QUOTE [QUOTE; QUOTE] s) at 1 by done.
  apply undouble_escape.
Qed.

Lemma unquote_quote body : unquote (quote body) = undouble body.
Proof.
  unfold quote, unquote. simpl. rewrite length_app. simpl.
  replace (length body + 1 - 1) with (length body) by lia.
  by rewrite take_app_length.
Qed.

Lemma reads_as_escaped s : reads_as (quote (escape s)) s.
Proof.
  split_and!; [apply passes_quoted, passes_escape..|].
  by rewrite unquote_quote, undouble_escape.
Qed.

Lemma reads_as_quoted s : QUOTE ∉ s → reads_as (quote s) s.
Proof.
  intros Hs. split_and!; [by apply passes_quoted, passes_quote_free..|].
  by rewrite unquote_quote, undouble_quote_free.
Qed.

Lemma reads_as_plain s :
  QUOTE ∉ s → LF ∉ s → COMMA ∉ s → reads_as s s.
Proof.
  intros Hq Hl Hc. split_and!; [by apply passes_plain..|].
  destruct s as [|c s]; [done|]. apply not_elem_of_cons in Hq as [Hq _].
  simpl. by destruct (N.eqb_spec c QUOTE).
Qed.

(** A line of cells: the reader of lines passes over it, and the reader
    of cells returns the cells' values. *)
Lemma passes_line cells :
  Forall (passes LF false false) cells →
  passes LF false false (join [COMMA] cells).
Proof.
  induction 1 as [|cell cells Hc Hall IH]; [apply passes_nil|].
  destruct cells as [|cell' cells]; [done|]. rewrite join_cons by done.
  eapply passes_app; [done|]. eapply passes_app; [|done].
  by apply passes_outside.
Qed.

Lemma read_line cells values :
  cells ≠ [] → Forall2 reads_as cells values →
  unquote <$> split_outside COMMA false (join [COMMA] cells) = values.
Proof.
  intros Hne Hall. rewrite split_outside_join; [|done..|].
  - clear Hne. induction Hall as [|cell value cells values (_ & _ & Hv) _ IH];
      [done|]. by rewrite fmap_cons, Hv, IH.
  - eapply Forall2_Forall_l; [done|]. apply Forall_true. by intros ? ? (_ & ? & _).
Qed.

(** A text of lines of cells is read as the lines of values. *)
Lemma csv_read_lines (table : list (list jsstring * list jsstring)) :
  table ≠ [] →
  Forall (λ row, row.1 ≠ [] ∧ Forall2 reads_as row.1 row.2) table →
  csv_read (join [LF] ((λ row, join [COMMA] row.1) <$> table)) = table.*2.
Proof.
  intros Hne Hall. unfold csv_read. rewrite split_outside_join.
  - rewrite <-list_fmap_compose. apply Forall_fmap_ext_1.
    eapply Forall_impl; [done|]. intros row [? ?]. simpl. by apply read_line.
  - done.
  - by destruct table.
  - apply Forall_fmap. eapply Forall_impl; [done|]. intros row [_ Hrow]. simpl.
    apply passes_line. eapply Forall2_Forall_l; [done|].
    apply Forall_true. by intros ? ? (? & _).
Qed.

Lemma csv_headers_reads_as : Forall2 reads_as csv_headers csv_headers.
Proof.
  apply Forall_Forall2_diag. unfold csv_headers.
  repeat (apply Forall_cons; split; [apply reads_as_plain; compute_done|]).
  constructor.
Qed.

(** The cells of a record's line are read as its fields when the fields
    that are left as they are hold no quote. *)
Lemma csv_row_reads_as place :
  quote_free place → Forall2 reads_as (csv_row place) (csv_fields place).
Proof.
  unfold quote_free. intros Hq.
  repeat (apply Forall_cons in Hq as [? Hq]).
  unfold csv_row, csv_fields.
  repeat (constructor;
    [first [by apply reads_as_escaped|by apply reads_as_quoted]|]).
  constructor.
Qed.

(** The text of records is read back as the header and their fields. *)
Lemma csv_read_convertToCSV data :
  Forall quote_free data →
  csv_read (convertToCSV data) = csv_headers :: (csv_fields <$> data).
Proof.
  intros Hdata. unfold convertToCSV.
  pose (table := (csv_headers, csv_headers)
                 :: ((λ p, (csv_row p, csv_fields p)) <$> data)).
  transitivity (table.*2);
    [|by unfold table; rewrite fmap_cons, <-list_fmap_compose].
  rewrite <-(csv_read_lines table); [|done|].
  - unfold table. by rewrite fmap_cons, <-!list_fmap_compose.
  - constructor; [split; [done|apply csv_headers_reads_as]|].
    apply Forall_fmap. eapply Forall_impl; [done|].
    intros p Hp. split; [done|by apply csv_row_reads_as].
Qed.

(** C2.  Round trip: when the fields that the serializer does not escape
    hold no quote, the text of N records, split on line feeds and commas
    outside quotes and with the doubling of quotes reversed, is the
    header's names and then, for each record in order, its seven fields:
    N+1 lines of seven fields each.  The name and the address may hold
    quotes, commas and line feeds. *)
Theorem csv_roundtrip data :
  Forall quote_free data →
  csv_read (convertToCSV data) = csv_headers :: (csv_fields <$> data) ∧
  length (csv_read (convertToCSV data)) = S (length data) ∧
  Forall (λ row, length row = 7) (csv_read (convertToCSV data)).
Proof.
  intros Hdata. rewrite csv_read_convertToCSV by done.
  split_and!; [done|by rewrite length_cons, length_fmap|].
  constructor; [done|]. by apply Forall_fmap, Forall_true.
Qed.

(** A record without reference URL has an empty cell in quotes at the end
    of its line, and so has a record whose URL is the empty string. *)
Lemma csv_row_no_url place :
  googleMapsUrl place = None ∨ googleMapsUrl place = Some [] →
  csv_row place !! 6 = Some [QUOTE; QUOTE] ∧ length (csv_row place) = 7.
Proof. unfold csv_row. by intros [-> | ->]. Qed.

End roundtrip.

(** ** A quote in a field that is not escaped *)

Section breaks.
Implicit Types (s pre post cell last : jsstring) (place : PlaceData).
Implicit Types (cells good values : list jsstring) (data : list PlaceData).
Implicit Types (sep : char) (inq : bool).

(** A field without quote and without separator, in quotes, met inside
    quotes: the reader leaves the quotes, passes over the field and enters
    them again. *)
Lemma passes_quoted_inside sep s :
  QUOTE ∉ s → sep ∉ s → passes sep true true (quote s).
Proof.
  intros Hq Hs. unfold quote.
  eapply passes_app; [apply (passes_quote _ true)|].
  eapply passes_app; [by apply passes_plain|apply (passes_quote _ false)].
Qed.

(** A field with one quote, in quotes: the reader is inside quotes when
    it has passed over it. *)
Lemma passes_one_quote sep pre post :
  QUOTE ∉ pre → QUOTE ∉ post → sep ∉ post →
  passes sep false true (quote (pre ++ [QUOTE] ++ post)).
Proof.
  intros Hpre Hpost Hsep. unfold quote.
  eapply passes_app; [apply (passes_quote _ false)|].
  eapply passes_app; [|apply (passes_quote _ false)].
  eapply passes_app; [by apply passes_quote_free|].
  eapply passes_app; [apply (passes_quote _ true)|by apply passes_plain].
Qed.

(** Cells that are passed over inside quotes, with the commas between
    them. *)
Lemma passes_join_inside sep cells :
  Forall (passes sep true true) cells →
  passes sep true true (join [COMMA] cells).
Proof.
  induction 1 as [|cell cells Hc Hall IH]; [apply passes_nil|].
  destruct cells as [|cell' cells]; [done|]. rewrite join_cons by done.
  eapply passes_app; [done|]. eapply passes_app; [|done].
  by apply passes_inside.
Qed.

Lemma passes_rest sep cell cells :
  passes sep false true cell → Forall (passes sep true true) cells →
  passes sep false true (join [COMMA] (cell :: cells)).
Proof.
  intros Hc Hall. destruct cells as [|cell' cells]; [done|].
  rewrite join_cons by done. eapply passes_app; [done|].
  eapply passes_app; [by apply passes_inside|by apply passes_join_inside].
Qed.

(** The last cells of a line, joined, as one cell of the line. *)
Lemma join_app_join (d : jsstring) (l1 l2 : list jsstring) :
  l2 ≠ [] → join d (l1 ++ l2) = join d (l1 ++ [join d l2]).
Proof.
  intros Hne. induction l1 as [|s l1 IH]; [done|].
  rewrite <-!app_comm_cons, !join_cons, IH; [done|by destruct l1..].
Qed.

(** Cells joined by the separator, the last of which may leave the reader
    inside quotes, are split into the cells. *)
Lemma split_outside_join_last sep cells last inq :
  sep ≠ QUOTE → Forall (passes sep false false) cells →
  passes sep false inq last →
  split_outside sep false (join [sep] (cells ++ [last])) = cells ++ [last].
Proof.
  intros Hsep Hall Hlast. induction Hall as [|cell cells Hc Hall IH].
  - rewrite app_nil_l, join_singleton, <-(app_nil_r last), Hlast. simpl.
    by rewrite app_nil_r.
  - rewrite <-app_comm_cons, join_cons by (by destruct cells).
    change ([sep] ++ ?t) with (sep :: t).
    rewrite Hc. cbn [split_outside]. apply N.eqb_neq in Hsep as ->.
    rewrite N.eqb_refl, IH. simpl. by rewrite app_nil_r.
Qed.

(** A line whose cells are read as [values] up to a cell that leaves the
    reader inside quotes: the rest of the line is one cell. *)
Lemma read_broken_line good values cell cells :
  Forall2 reads_as good values → passes COMMA false true cell →
  Forall (passes COMMA true true) cells →
  unquote <$> split_outside COMMA false (join [COMMA] (good ++ cell :: cells))
  = values ++ [unquote (join [COMMA] (cell :: cells))].
Proof.
  intros Hgood Hc Hall.
  rewrite join_app_join by done.
  rewrite (split_outside_join_last _ _ _ true);
    [|done| |by apply passes_rest].
  - rewrite fmap_app. f_equal.
    induction Hgood as [|c v cs vs (_ & _ & Hv) _ IH]; [done|].
    by rewrite fmap_cons, Hv, IH.
  - eapply Forall2_Forall_l; [done|]. apply Forall_true. by intros ? ? (_ & ? & _).
Qed.

(** The reader of lines passes over such a line and is inside quotes at
    its end. *)
Lemma passes_broken_line good cell cells :
  Forall (passes LF false false) good → passes LF false true cell →
  Forall (passes LF true true) cells →
  passes LF false true (join [COMMA] (good ++ cell :: cells)).
Proof.
  intros Hgood Hc Hall. induction Hgood as [|c cs Hpass _ IH].
  - by apply passes_rest.
  - rewrite <-app_comm_cons, join_cons by (by destruct cs).
    eapply passes_app; [done|]. eapply passes_app; [|done].
    by apply passes_outside.
Qed.

(** A text whose last line leaves the reader inside quotes. *)
Lemma csv_read_lines_last (table : list (list jsstring * list jsstring)) last :
  Forall (λ row, row.1 ≠ [] ∧ Forall2 reads_as row.1 row.2) table →
  passes LF false true last →
  csv_read (join [LF] (((λ row, join [COMMA] row.1) <$> table) ++ [last]))
  = table.*2 ++ [unquote <$> split_outside COMMA false last].
Proof.
  intros Hall Hlast. unfold csv_read.
  rewrite (split_outside_join_last _ _ _ true), fmap_app; [|done| |done].
  - f_equal. rewrite <-list_fmap_compose. apply Forall_fmap_ext_1.
    eapply Forall_impl; [done|]. intros row [? ?]. simpl. by apply read_line.
  - apply Forall_fmap. eapply Forall_impl; [done|]. intros row [_ Hrow]. simpl.
    apply passes_line. eapply Forall2_Forall_l; [done|].
    apply Forall_true. by intros ? ? (? & _).
Qed.

(** The cells of a record's line: two that are escaped, and the fields
    that are not. *)
Lemma csv_row_unescaped place :
  csv_row place =
  [quote (escape (name place)); quote (escape (address place))]
  ++ (quote <$> unescaped place).
Proof. done. Qed.

(** The line of a record one of whose fields holds one quote and is not
    the last. *)
Lemma read_quoted_line place before pre post after :
  unescaped place = before ++ (pre ++ [QUOTE] ++ post) :: after →
  Forall (λ s, QUOTE ∉ s) (pre :: before) → Forall plain (post :: after) →
  let line := join [COMMA] (csv_row place) in
  passes LF false true line ∧
  unquote <$> split_outside COMMA false line
  = [name place; address place] ++ before
    ++ [unquote (join [COMMA] (quote <$> (pre ++ [QUOTE] ++ post) :: after))].
Proof.
  intros Hfields [Hpre Hbefore]%Forall_cons [(Hq & Hc & Hl) Hafter]%Forall_cons.
  rewrite csv_row_unescaped, Hfields, fmap_app, fmap_cons, app_assoc.
  assert (Forall2 reads_as
            ([quote (escape (name place)); quote (escape (address place))]
             ++ (quote <$> before))
            ([name place; address place] ++ before)) as Hgood.
  { apply Forall2_app; [repeat constructor; apply reads_as_escaped|].
    apply Forall2_fmap_l, Forall_Forall2_diag.
    eapply Forall_impl; [done|]. apply reads_as_quoted. }
  split.
  - apply passes_broken_line; [|by apply passes_one_quote|].
    + eapply Forall2_Forall_l; [done|]. apply Forall_true. by intros ? ? (? & _).
    + apply Forall_fmap. eapply Forall_impl; [done|].
      intros s (? & ? & ?). by apply passes_quoted_inside.
  - rewrite (app_assoc _ before).
    apply read_broken_line; [done|by apply passes_one_quote|].
    apply Forall_fmap. eapply Forall_impl; [done|].
    intros s (? & ? & ?). by apply passes_quoted_inside.
Qed.

(** The text of records the last of which holds one quote in a field
    that is not escaped and is not its last field, in the form the later
    proofs use. *)
Lemma csv_read_one_quote data place before pre post after :
  Forall quote_free data →
  unescaped place = before ++ (pre ++ [QUOTE] ++ post) :: after →
  after ≠ [] →
  Forall (λ s, QUOTE ∉ s) (pre :: before) → Forall plain (post :: after) →
  csv_read (convertToCSV (data ++ [place])) =
  csv_headers :: (csv_fields <$> data)
  ++ [[name place; address place] ++ before
      ++ [unquote (join [COMMA] (quote <$> (pre ++ [QUOTE] ++ post) :: after))]]
  ∧ csv_read (convertToCSV (data ++ [place]))
    ≠ csv_headers :: (csv_fields <$> data ++ [place]).
Proof.
  intros Hdata Hfields Hafter Hbefore Hplain.
  destruct (read_quoted_line place before pre post after) as [Hpass Hread];
    [done..|].
  assert (csv_read (convertToCSV (data ++ [place])) =
          csv_headers :: (csv_fields <$> data)
          ++ [unquote <$> split_outside COMMA false
                            (join [COMMA] (csv_row place))]) as ->.
  { unfold convertToCSV. rewrite !fmap_app. simpl.
    pose (table := (csv_headers, csv_headers)
                   :: ((λ p, (csv_row p, csv_fields p)) <$> data)).
    rewrite app_comm_cons.
    transitivity (table.*2 ++ [unquote <$> split_outside COMMA false
                                 (join [COMMA] (csv_row place))]);
      [|by unfold table; rewrite fmap_cons, <-list_fmap_compose].
    rewrite <-(csv_read_lines_last table); [| |done].
    - unfold table. by rewrite fmap_cons, <-!list_fmap_compose.
    - constructor; [split; [done|apply csv_headers_reads_as]|].
      apply Forall_fmap. eapply Forall_impl; [exact Hdata|].
      intros p Hp. split; [done|by apply csv_row_reads_as]. }
  rewrite Hread. split; [done|]. rewrite fmap_app.
  intros [= Heq%app_inj_1]; [|done]. destruct Heq as [_ [= Heq]].
  apply (f_equal length) in Heq. apply (f_equal length) in Hfields.
  rewrite !length_app in Heq, Hfields. simpl in Heq, Hfields.
  destruct after; [done|]. simpl in Hfields. lia.
Qed.

(** C10.  One quote in a field that is not escaped: when a field of the
    last record other than its name, its address and its URL holds one
    quote, the fields before it hold none and the fields after it hold no
    quote, no comma and no line feed, the text is read back with the lines
    of the records before as they were written and, for the last record,
    the fields before the quote and then one cell that holds the rest of
    the line.  That line has fewer than seven cells: the text is not read
    back as the records. *)
Theorem csv_quote_breaks data place before pre post after :
  Forall quote_free data →
  unescaped place = before ++ (pre ++ [QUOTE] ++ post) :: after →
  after ≠ [] →
  Forall (λ s, QUOTE ∉ s) (pre :: before) → Forall plain (post :: after) →
  csv_read (convertToCSV (data ++ [place])) =
  csv_headers :: (csv_fields <$> data)
  ++ [[name place; address place] ++ before
      ++ [unquote (join [COMMA] (quote <$> (pre ++ [QUOTE] ++ post) :: after))]]
  ∧ csv_read (convertToCSV (data ++ [place]))
    ≠ csv_headers :: (csv_fields <$> data ++ [place]).
Proof. apply csv_read_one_quote. Qed.

End breaks.

(** A record whose name and address hold quotes, commas and a line feed is
    read back as it was. *)
Lemma csv_roundtrip_witness :
  csv_read (convertToCSV [sample_place; sample_place]) =
  csv_headers :: (csv_fields <$> [sample_place; sample_place]) ∧
  length (csv_read (convertToCSV [sample_place; sample_place])) =
  S (length [sample_place; sample_place]) ∧
  Forall (λ row, length row = 7)
    (csv_read (convertToCSV [sample_place; sample_place])).
Proof. apply csv_roundtrip. compute_done. Defined.

(** A rating with one quote, in the record after [sample_place]. *)
Lemma csv_quote_breaks_witness :
  csv_read (convertToCSV ([sample_place] ++ [quoted_rating_place])) =
  csv_headers :: (csv_fields <$> [sample_place])
  ++ [[name quoted_rating_place; address quoted_rating_place] ++ []
      ++ [unquote (join [COMMA]
                     (quote <$> (str "4" ++ [QUOTE] ++ str "5")
                        :: [str "120"; str "N/A"; str "555";
                            str "https://maps.example/b"]))]]
  ∧ csv_read (convertToCSV ([sample_place] ++ [quoted_rating_place]))
    ≠ csv_headers :: (csv_fields <$> [sample_place] ++ [quoted_rating_place]).
Proof.
  apply csv_quote_breaks; [compute_done|done|done|compute_done..].
Defined.

(** The cells of the lines read in that case: seven, seven and three. *)
Lemma csv_quote_breaks_lengths :
  length <$> csv_read (convertToCSV [sample_place; quoted_rating_place])
  = [7; 7; 3].
Proof. by vm_compute. Qed.

Lemma csv_row_no_url_witness :
  csv_row sample_place !! 6 = Some [QUOTE; QUOTE] ∧
  length (csv_row sample_place) = 7.
Proof. apply csv_row_no_url. by left. Defined.

(** ** The lines of the text *)

Section lines.
Implicit Types (s : jsstring) (place : PlaceData) (data : list PlaceData).

Lemma quote_no_LF s : LF ∉ s → LF ∉ quote s.
Proof.
  intros Hs. unfold quote. rewrite !not_elem_of_app.
  split_and!; [compute_done|done|compute_done].
Qed.

Lemma escape_no_LF s : LF ∉ s → LF ∉ escape s.
Proof.
  intros Hs [Hc|Hc]%elem_of_replace_char; [|done]. revert Hc. compute_done.
Qed.

(** A record's line holds no line feed when its fields hold none. *)
Lemma csv_row_no_LF place :
  Forall (λ s, LF ∉ s) (csv_fields place) →
  LF ∉ join [COMMA] (csv_row place).
Proof.
  unfold csv_fields, csv_row. intros Hall.
  repeat (apply Forall_cons in Hall as [? Hall]).
  apply not_elem_of_join; [compute_done|].
  repeat (constructor;
    [first [by apply quote_no_LF|by apply quote_no_LF, escape_no_LF]|]).
  constructor.
Qed.

Lemma split_convertToCSV data :
  Forall (λ place, Forall (λ s, LF ∉ s) (csv_fields place)) data →
  split LF (convertToCSV data) =
  join [COMMA] csv_headers :: ((λ place, join [COMMA] (csv_row place)) <$> data).
Proof.
  intros Hdata. unfold convertToCSV. rewrite <-list_fmap_compose.
  apply split_join; [done|]. constructor; [compute_done|].
  apply Forall_fmap. eapply Forall_impl; [done|]. apply csv_row_no_LF.
Qed.

End lines.

(** ** The text does not depend on the identifiers *)

#[export] Instance csv_row_proper : Proper ((≡) ==> (=)) csv_row.
Proof.
  intros p q [Hc Hu]%PlaceData_equiv_spec. unfold csv_row.
  injection Hc as -> -> -> -> -> ->. by rewrite Hu.
Qed.

#[export] Instance csv_fields_proper : Proper ((≡) ==> (=)) csv_fields.
Proof.
  intros p q [Hc Hu]%PlaceData_equiv_spec. unfold csv_fields.
  injection Hc as -> -> -> -> -> ->. by rewrite Hu.
Qed.

#[export] Instance convertToCSV_proper : Proper ((≡) ==> (=)) convertToCSV.
Proof.
  intros data data' Hdata. unfold convertToCSV.
  by rewrite (fmap_equiv_eq csv_row data data').
Qed.

(** ** The download *)

Section download.
Implicit Types (csv filename : jsstring) (page : Page).

(** The download: in a browser that supports it, the page's body is left
    as it was (the link is appended and removed), and exactly one download
    is started, of the text after a byte-order mark, under the type
    [text/csv] and the given file name. *)
Lemma downloadCSV_supported csv filename page :
  downloadCSV true csv filename page =
  mkPage (body_children page)
         (started page ++
          [mkDownload (BOM :: csv) (str "text/csv;charset=utf-8;") filename]).
Proof. unfold downloadCSV. simpl. by rewrite take_app_length. Qed.

(** Without support for the [download] attribute nothing happens. *)
Lemma downloadCSV_unsupported csv filename page :
  downloadCSV false csv filename page = page.
Proof. done. Qed.

(** The page after a download, with or without support. *)
Lemma downloadCSV_page supported csv filename page :
  body_children (downloadCSV supported csv filename page) = body_children page ∧
  started (downloadCSV supported csv filename page) =
  started page ++
  (if supported
   then [mkDownload (BOM :: csv) (str "text/csv;charset=utf-8;") filename]
   else []).
Proof.
  unfold downloadCSV. destruct supported; simpl.
  - by rewrite take_app_length.
  - by rewrite app_nil_r.
Qed.

End download.
