(* ===== verification/Gemini.v ===== *)
(** * The request to the generation service and the citation pass

    Models [src/services/geminiService.ts]: the credential that the module
    reads from the environment ([module_apiKey]) and the function
    [searchPlaces]
    (the credential check, the request, the parse of the reply's text, the
    pass that attaches citation URLs to the records, the conversion of a
    failure of the service into one error message); [searchPlaces_request]
    is the function up to its [await].

    The service itself is a parameter: the class [GenAI] gives, for a
    request, either a response or a thrown error; [answering] is the
    service that one call sees.  Of the library's response
    type only the fields that the source reads are modelled.  A promise's
    result is a value of [Outcome]: resolved with a value or rejected with
    a message.

    The citation pass is the source's [map] with a callback that advances a
    shared index by a [while] loop; the loop is a [Fixpoint] with fuel,
    which returns [None] when the fuel runs out before the loop is left
    ([enrich_place_fuel] says for which fuel it returns).  It is shown to
    implement [attach]: the k-th record receives the k-th citation that
    carries a URI. *)

From S2P Require Import Prelude JsString Types Extern Parser.

(** ** The service's types *)

(** The [web] or [maps] part of a grounding chunk. *)
Record Source := mkSource { uri : option jsstring }.

Record GroundingChunk := mkChunk {
  web : option Source;
  maps : option Source
}.

Record GroundingMetadata := mkMetadata {
  groundingChunks : option (list GroundingChunk)
}.

Record Candidate := mkCandidate {
  groundingMetadata : option GroundingMetadata
}.

Record GenerateContentResponse := mkResponse {
  text : option jsstring;
  candidates : option (list Candidate)
}.

(** The argument of [ai.models.generateContent]; a tool is its name. *)
Record Request := mkRequest {
  model : jsstring;
  contents : jsstring;
  systemInstruction : jsstring;
  tools : list jsstring
}.

(** What a call does: it returns a response, or throws a value whose
    [message] may be undefined. *)
Inductive Reply :=
  | Returned (response : GenerateContentResponse)
  | Threw (message : option jsstring).

(** The generation service. *)
Class GenAI := { generateContent : Request → Reply }.

(** The service as one call sees it: whatever the request, the answer is
    [reply]. *)
Definition answering (reply : Reply) : GenAI :=
  {| generateContent _ := reply |}.

(** The result of a promise. *)
Inductive Outcome (A : Type) :=
  | Resolved (value : A)
  | Rejected (message : jsstring).
Arguments Resolved {A} value.
Arguments Rejected {A} message.

#[export] Instance Source_eq_dec : EqDecision Source.
Proof. solve_decision. Defined.
#[export] Instance GroundingChunk_eq_dec : EqDecision GroundingChunk.
Proof. solve_decision. Defined.
#[export] Instance Request_eq_dec : EqDecision Request.
Proof. solve_decision. Defined.
#[export] Instance Outcome_eq_dec `{EqDecision A} : EqDecision (Outcome A).
Proof. solve_decision. Defined.

(** ** The citation pass *)

(** [chunk.web?.uri] and [chunk.maps?.uri]. *)
Definition web_uri (chunk : GroundingChunk) : option jsstring :=
  web chunk ≫= uri.
Definition maps_uri (chunk : GroundingChunk) : option jsstring :=
  maps chunk ≫= uri.

(** The loop's test of a chunk, [chunk.web?.uri || chunk.maps?.uri].  The
    comment above the loop speaks of the next map chunk; the test accepts a
    chunk for its web URI as well ([enrich_cons]). *)
Definition has_uri (chunk : GroundingChunk) : bool :=
  truthy_opt (js_or (web_uri chunk) (maps_uri chunk)).

(** The URI taken from a chunk, [chunk.maps?.uri || chunk.web?.uri]. *)
Definition chunk_uri (chunk : GroundingChunk) : option jsstring :=
  js_or (maps_uri chunk) (web_uri chunk).

(** The callback of [parsedData.map]: from [chunkIndex] on, the first chunk
    that carries a URI gives the record its URL, and the index is left
    after that chunk; with no such chunk the record is returned as it is
    and the index is the number of chunks.  One unit of fuel is spent for
    each test of the [while] loop's condition; when the fuel runs out
    before the function returns, there is no result. *)
Fixpoint enrich_place (fuel : nat) (groundingChunks : list GroundingChunk)
    (place : PlaceData) (chunkIndex : nat) : option (PlaceData * nat) :=
  match fuel with
  | 0 => None
  | S fuel' =>
      if chunkIndex <? length groundingChunks then
        match groundingChunks !! chunkIndex with
        | Some chunk =>
            let chunkIndex := S chunkIndex in
            if has_uri chunk
            then Some (with_url (chunk_uri chunk) place, chunkIndex)
            else enrich_place fuel' groundingChunks place chunkIndex
        | None => Some (place, chunkIndex)
        end
      else Some (place, chunkIndex)
  end.

(** The pass: [chunkIndex] starts at 0 and is shared by the calls.  Each
    call is given one unit of fuel more than there are chunks, with which
    it always returns ([enrich_place_fuel]). *)
Definition enrich (groundingChunks : list GroundingChunk)
    (parsedData : list PlaceData) : list PlaceData * nat :=
  map_state
    (λ place chunkIndex,
       default (place, chunkIndex)
         (enrich_place (S (length groundingChunks)) groundingChunks place
            chunkIndex))
    parsedData 0.

(** ** The request *)

(** The module's credential, [process.env.API_KEY || ''], read once when
    the module is loaded: the variable of the environment, or the empty
    string when it is not set. *)
Definition module_apiKey (API_KEY : option jsstring) : jsstring :=
  API_KEY ||| [].

Definition API_KEY_MISSING : jsstring :=
  str "API Key is missing. Please check your environment configuration.".

Definition FETCH_FAILED : jsstring := str "Failed to fetch data from Gemini.".

Definition MODEL : jsstring := str "gemini-2.5-flash".

(** The template literal of the source, line by line. *)
Definition SYSTEM_INSTRUCTION : jsstring :=
  join [LF] ([] :: (str <$> [
    "    You are a high-volume data extraction assistant. Your task is to extract an EXHAUSTIVE list of business information from Google Maps for the specific location and category requested by the user.";
    EmptyString;
    "    Rules:";
    "    1. Use the 'googleMaps' tool to find real places matching the query.";
    "    2. MAXIMIZE OUTPUT: Do not limit yourself to the top 10 or 20 results. Retrieve and list EVERY single business returned by the map tool. Aim for 50+ results if possible.";
    "    3. You MUST output the data strictly in a MARKDOWN TABLE.";
    "    4. The table MUST have exactly these columns: | Name | Address | Rating | Reviews | Website | Phone |";
    "    5. Ensure the 'Address' includes the street and city.";
    "    6. If a specific detail (like Website or Phone) is not available, write 'N/A'.";
    "    7. Do not include any intro or outro text. Output ONLY the table.";
    "    8. Do not truncate the table.";
    "  "
  ])).

Definition make_contents (query : jsstring) : jsstring :=
  str "Find all " ++ [QUOTE] ++ query ++ [QUOTE]
  ++ str ". List as many as possible. Format the output as a Markdown table.".

Definition make_request (query : jsstring) : Request :=
  mkRequest MODEL (make_contents query) SYSTEM_INSTRUCTION [str "googleMaps"].

(** [response.candidates?.[0]?.groundingMetadata?.groundingChunks]. *)
Definition grounding_chunks (response : GenerateContentResponse)
    : option (list GroundingChunk) :=
  candidates ← candidates response;
  candidate ← candidates !! 0;
  metadata ← groundingMetadata candidate;
  groundingChunks metadata.

(** What [searchPlaces] resolves with. *)
Record SearchResult := mkSearchResult {
  result_text : jsstring;
  result_data : list PlaceData
}.

(** One run of [searchPlaces]: its outcome, the requests it sent, and the
    number of identifiers drawn when it ends. *)
Record Run := mkRun {
  outcome : Outcome SearchResult;
  calls : list Request;
  uuid_next : nat
}.

Section service.
Context `{U : UuidSource} `{G : GenAI}.

(** What follows a response: the parse and the citation pass. *)
Definition read_response (response : GenerateContentResponse) (g : nat)
    : SearchResult * nat :=
  let text := text response ||| [] in
  let '(parsedData, g') := parseMarkdownTableToData text g in
  let parsedData :=
    match grounding_chunks response with
    | Some groundingChunks =>
        if 0 <? length parsedData then (enrich groundingChunks parsedData).1
        else parsedData
    | None => parsedData
    end in
  (mkSearchResult text parsedData, g').

(** [searchPlaces] up to its [await]: the request that it makes, unless
    the credential is missing. *)
Definition searchPlaces_request (apiKey query : jsstring) : list Request :=
  if negb (truthy apiKey) then [] else [make_request query].

(** [searchPlaces(query)], with the module's [apiKey] and the number [g] of
    identifiers drawn so far. *)
Definition searchPlaces (apiKey : jsstring) (query : jsstring) (g : nat)
    : Run :=
  if negb (truthy apiKey) then mkRun (Rejected API_KEY_MISSING) [] g
  else
    let request := make_request query in
    match generateContent request with
    | Returned response =>
        let '(result, g') := read_response response g in
        mkRun (Resolved result) [request] g'
    | Threw message =>
        mkRun (Rejected (message ||| FETCH_FAILED)) [request] g
    end.

End service.

(** ** The specification of the citation pass *)

(** The URI that a citation contributes, if any. *)
Definition citation_uri (chunk : GroundingChunk) : option jsstring :=
  if has_uri chunk then chunk_uri chunk else None.

(** Records and URIs walked in lock step: each record takes the next URI;
    the records that remain when the URIs are exhausted are unchanged. *)
Fixpoint attach (data : list PlaceData) (uris : list jsstring)
    : list PlaceData :=
  match data, uris with
  | place :: data', u :: uris' => with_url (Some u) place :: attach data' uris'
  | _, _ => data
  end.

(** The chunks at the head of a list that carry no URI: those that the
    loop passes over before it takes a chunk or reaches the end. *)
Fixpoint passed_over (chunks : list GroundingChunk) : nat :=
  match chunks with
  | chunk :: chunks' => if has_uri chunk then 0 else S (passed_over chunks')
  | [] => 0
  end.

(** The URIs of a response's citations, none when it has no list of
    citations. *)
Definition response_uris (response : GenerateContentResponse) : list jsstring :=
  match grounding_chunks response with
  | Some groundingChunks => omap citation_uri groundingChunks
  | None => []
  end.

(** What a run promises of the records it resolves with: pairwise distinct
    identifiers, six populated fields, no empty URL. *)
Definition well_formed (data : list PlaceData) : Prop :=
  NoDup (id <$> data) ∧ Forall populated data
  ∧ Forall (λ place, googleMapsUrl place ≠ Some []) data.

(** ** Values for evaluation *)

(** Citations: a reference without URI, a map reference, a generic
    reference with an empty URI, a reference with both URIs. *)
Definition no_uri_chunk : GroundingChunk := mkChunk None None.
Definition maps_chunk (u : jsstring) : GroundingChunk :=
  mkChunk None (Some (mkSource (Some u))).
Definition web_chunk (u : jsstring) : GroundingChunk :=
  mkChunk (Some (mkSource (Some u))) None.
Definition empty_web_chunk : GroundingChunk :=
  mkChunk (Some (mkSource (Some []))) (Some (mkSource None)).
Definition both_chunk (w m : jsstring) : GroundingChunk :=
  mkChunk (Some (mkSource (Some w))) (Some (mkSource (Some m))).

(** Records: those of the extractor's sample text. *)
Definition sample_data : list PlaceData :=
  (@parseMarkdownTableToData unary_source sample_text 0).1.

(** A service that answers every request with the extractor's sample text
    and two citations. *)
Definition sample_response : GenerateContentResponse :=
  mkResponse (Some sample_text)
    (Some [mkCandidate (Some (mkMetadata
       (Some [no_uri_chunk; maps_chunk (str "https://maps.example/1")])))]).

Definition sample_service : GenAI := answering (Returned sample_response).

(** A service that throws a value without message. *)
Definition failing_service : GenAI := answering (Threw None).

(** What the sample service's answer resolves with: the first of the
    sample's three records has the URL. *)
Definition sample_result : SearchResult :=
  mkSearchResult sample_text
    (attach (@extract unary_source sample_text 0)
       [str "https://maps.example/1"]).

(** ** A chunk's URI *)

Section chunks.
Implicit Types (chunk : GroundingChunk) (u : jsstring).

(** A chunk that passes the loop's test gives a URI that is not empty. *)
Lemma has_uri_chunk_uri chunk :
  has_uri chunk = true → ∃ u, chunk_uri chunk = Some u ∧ u ≠ [].
Proof.
  unfold has_uri, chunk_uri, js_or.
  destruct (web_uri chunk) as [[|??]|], (maps_uri chunk) as [[|??]|];
    simpl; intros; by eauto.
Qed.

Lemma citation_uri_nonempty chunk u : citation_uri chunk = Some u → u ≠ [].
Proof.
  unfold citation_uri. destruct (has_uri chunk) eqn:Hc; [|done].
  destruct (has_uri_chunk_uri chunk Hc) as (u' & -> & Hu). naive_solver.
Qed.

Lemma citation_uri_has_uri chunk :
  has_uri chunk = true → ∃ u, citation_uri chunk = Some u ∧ chunk_uri chunk = Some u.
Proof.
  intros Hc. unfold citation_uri. rewrite Hc.
  destruct (has_uri_chunk_uri chunk Hc) as (u & -> & _). eauto.
Qed.

Lemma citation_uri_no_uri chunk : has_uri chunk = false → citation_uri chunk = None.
Proof. unfold citation_uri. by intros ->. Qed.

(** The map-specific URI is preferred. *)
Lemma citation_uri_maps chunk u :
  maps_uri chunk = Some u → u ≠ [] → citation_uri chunk = Some u.
Proof.
  unfold citation_uri, has_uri, chunk_uri, js_or. intros -> Hu.
  destruct u; [done|]. by destruct (web_uri chunk) as [[|??]|].
Qed.

(** The generic URI is taken when the chunk has no map-specific one. *)
Lemma citation_uri_web chunk u :
  truthy_opt (maps_uri chunk) = false → web_uri chunk = Some u → u ≠ [] →
  citation_uri chunk = Some u.
Proof.
  unfold citation_uri, has_uri, chunk_uri, js_or. intros Hm -> Hu.
  destruct u; [done|]. simpl. by rewrite Hm.
Qed.

(** A chunk with no URI, or with empty ones only, is passed over. *)
Lemma citation_uri_none chunk :
  truthy_opt (maps_uri chunk) = false → truthy_opt (web_uri chunk) = false →
  citation_uri chunk = None.
Proof.
  unfold citation_uri, has_uri, js_or. intros Hm Hw. by rewrite Hw, Hm.
Qed.

End chunks.

(** ** The walk in lock step *)

Section attach.
Implicit Types (data : list PlaceData) (uris : list jsstring) (k : nat).

Lemma attach_nil_r data : attach data [] = data.
Proof. by destruct data. Qed.

(** The records that take a URI, then the ones left as they were. *)
Lemma attach_zip_with data uris :
  attach data uris =
  zip_with (λ place u, with_url (Some u) place) data uris
  ++ drop (length uris) data.
Proof.
  revert uris. induction data as [|place data IH]; intros [|u uris]; simpl;
    try done.
  by rewrite IH.
Qed.

Lemma attach_length data uris : length (attach data uris) = length data.
Proof.
  revert uris. induction data as [|place data IH]; intros [|u uris]; simpl;
    try done.
  by rewrite IH.
Qed.

Lemma attach_lookup_lt data uris k place u :
  data !! k = Some place → uris !! k = Some u →
  attach data uris !! k = Some (with_url (Some u) place).
Proof.
  revert uris k. induction data as [|p data IH]; intros [|v uris] [|k] ??;
    simplify_eq/=; eauto.
Qed.

Lemma attach_lookup_ge data uris k :
  length uris ≤ k → attach data uris !! k = data !! k.
Proof.
  revert uris k. induction data as [|p data IH]; intros [|v uris] [|k] ?;
    simpl in *; try done; try lia.
  apply IH. lia.
Qed.

(** A property of the records that attaching a URI keeps. *)
Lemma attach_Forall (P : PlaceData → Prop) data uris :
  Forall P data →
  (∀ place u, P place → u ∈ uris → P (with_url (Some u) place)) →
  Forall P (attach data uris).
Proof.
  intros Hdata. revert uris.
  induction Hdata as [|p data Hp Hdata IH]; intros [|u uris] Hu; simpl;
    try (by constructor).
  constructor; [apply Hu; [done|left]|].
  apply IH. intros. apply Hu; [done|by right].
Qed.

(** The walk changes nothing but the URL. *)
Lemma attach_erase data uris :
  with_url None <$> attach data uris = with_url None <$> data.
Proof.
  revert uris. induction data as [|p data IH]; intros [|v uris]; simpl;
    try done.
  by rewrite IH.
Qed.

(** A function of the records that does not read the URL. *)
Lemma attach_fmap {B} (f : PlaceData → B) data uris :
  (∀ u place, f (with_url u place) = f place) →
  f <$> attach data uris = f <$> data.
Proof.
  intros Hf. revert uris.
  induction data as [|p data IH]; intros [|u uris]; simpl; try done.
  f_equal; [apply Hf|apply IH].
Qed.

(** The walk respects the equivalence of records up to identifiers. *)
#[export] Instance attach_proper : Proper ((≡) ==> (=) ==> (≡)) attach.
Proof.
  intros data data' Hdata uris ? <-. revert uris.
  induction Hdata as [|p q data data' Hpq Hdata IH]; intros [|u uris]; simpl;
    try done; [by constructor|].
  constructor; [by rewrite Hpq|apply IH].
Qed.

End attach.

(** ** The loop over the chunks *)

Section enrich.
Implicit Types (chunks : list GroundingChunk) (data : list PlaceData).
Implicit Types (place : PlaceData) (fuel i k : nat).

(** What one call of the callback does, in terms of the URIs that the
    chunks from the index on contribute. *)
Lemma passed_over_length chunks : passed_over chunks ≤ length chunks.
Proof. induction chunks; simpl; [done|]. case_match; lia. Qed.

Lemma passed_over_drop chunks i :
  passed_over (drop i chunks) ≤ length chunks - i.
Proof. rewrite <-length_drop. apply passed_over_length. Qed.

(** What the loop sees at an index that is inside the array. *)
Lemma passed_over_lookup chunks i chunk :
  chunks !! i = Some chunk →
  passed_over (drop i chunks) =
  if has_uri chunk then 0 else S (passed_over (drop (S i) chunks)).
Proof. intros Hi. by rewrite (drop_S _ _ _ Hi). Qed.

Lemma enrich_place_spec fuel chunks place i :
  passed_over (drop i chunks) < fuel →
  match omap citation_uri (drop i chunks) with
  | [] => enrich_place fuel chunks place i = Some (place, i `max` length chunks)
  | u :: us =>
      ∃ j, enrich_place fuel chunks place i = Some (with_url (Some u) place, j)
           ∧ i < j ≤ length chunks ∧ omap citation_uri (drop j chunks) = us
  end.
Proof.
  revert i. induction fuel as [|fuel IH]; intros i Hfuel; simpl; [lia|].
  destruct (Nat.ltb_spec i (length chunks)) as [Hi|Hi];
    [|rewrite drop_ge by lia; simpl; do 2 f_equal; lia].
  destruct (lookup_lt_is_Some_2 chunks i Hi) as [chunk Hchunk].
  rewrite (passed_over_lookup _ _ _ Hchunk) in Hfuel.
  rewrite Hchunk, (drop_S _ _ _ Hchunk), omap_cons.
  destruct (has_uri chunk) eqn:Hc.
  - destruct (citation_uri_has_uri chunk Hc) as (u & -> & ->).
    exists (S i). split_and!; [done|lia|lia|done].
  - rewrite (citation_uri_no_uri chunk Hc).
    specialize (IH (S i) ltac:(lia)).
    destruct (omap citation_uri (drop (S i) chunks)) as [|u us].
    + rewrite IH. do 2 f_equal. lia.
    + destruct IH as (j & -> & ? & ?). exists j. split_and!; [done|lia..|done].
Qed.

(** The loop with too little fuel: it has not returned when the fuel is
    spent on the chunks that it passes over. *)
Lemma enrich_place_None fuel chunks place i :
  fuel ≤ passed_over (drop i chunks) → enrich_place fuel chunks place i = None.
Proof.
  revert i. induction fuel as [|fuel IH]; intros i Hfuel; simpl; [done|].
  destruct (Nat.ltb_spec i (length chunks)) as [Hi|Hi];
    [|rewrite drop_ge in Hfuel by lia; simpl in Hfuel; lia].
  destruct (lookup_lt_is_Some_2 chunks i Hi) as [chunk Hchunk].
  rewrite (passed_over_lookup _ _ _ Hchunk) in Hfuel. rewrite Hchunk.
  destruct (has_uri chunk); [lia|]. apply IH. lia.
Qed.

(** The loop returns with the fuel that the pass gives it. *)
Lemma enrich_place_Some chunks place i :
  is_Some (enrich_place (S (length chunks)) chunks place i).
Proof.
  pose proof (passed_over_drop chunks i).
  pose proof (enrich_place_spec (S (length chunks)) chunks place i
                ltac:(lia)) as Hp.
  destruct (omap citation_uri (drop i chunks)); [by rewrite Hp|].
  by destruct Hp as (j & -> & _).
Qed.

(** The calls of the callback on the records, from any index. *)
Lemma map_state_enrich chunks data i :
  let r := map_state
             (λ place i, default (place, i)
                           (enrich_place (S (length chunks)) chunks place i))
             data i in
  r.1 = attach data (omap citation_uri (drop i chunks))
  ∧ (i ≤ length chunks → r.2 ≤ length chunks).
Proof.
  revert i. induction data as [|place data IH]; intros i; [done|].
  cbn [map_state]. cbv zeta in IH.
  pose proof (passed_over_drop chunks i).
  pose proof (enrich_place_spec (S (length chunks)) chunks place i
                ltac:(lia)) as Hp.
  destruct (omap citation_uri (drop i chunks)) as [|u us].
  - rewrite Hp. specialize (IH (i `max` length chunks)).
    rewrite drop_ge in IH by lia. cbn [omap list_omap] in IH.
    rewrite attach_nil_r in IH. cbn [from_option Datatypes.id].
    destruct (map_state _ data _) as [ys j]. cbn [fst snd] in *.
    destruct IH as [-> IH]. split; [done|]. intros. apply IH. lia.
  - destruct Hp as (j & -> & ? & <-). specialize (IH j).
    cbn [from_option Datatypes.id].
    destruct (map_state _ data _) as [ys j']. cbn [fst snd attach] in *.
    destruct IH as [-> IH]. split; [done|]. intros. apply IH. lia.
Qed.

Lemma enrich_attach chunks data :
  (enrich chunks data).1 = attach data (omap citation_uri chunks).
Proof. by apply (map_state_enrich chunks data 0). Qed.

(** The pass respects the equivalence of records up to identifiers. *)
Lemma enrich_equiv chunks data data' :
  data ≡ data' → (enrich chunks data).1 ≡ (enrich chunks data').1.
Proof. intros Hdata. rewrite !enrich_attach. by rewrite Hdata. Qed.

(** C3.  Refinement of the citation pass: the [map] whose callback
    advances the shared index returns the records walked in lock step with
    the citations that carry a URI, and the index never passes the number
    of chunks. *)
Theorem enrich_refines_attach chunks data :
  (enrich chunks data).1 = attach data (omap citation_uri chunks) ∧
  (enrich chunks data).2 ≤ length chunks.
Proof.
  split; [apply enrich_attach|].
  apply (map_state_enrich chunks data 0). lia.
Qed.

(** C12.  Termination of the [while] loop: from the index [i] the
    callback returns exactly when its fuel exceeds the number of chunks
    without URI that it passes over, one test of the loop's condition for
    each of them and one for the chunk that it takes or for the end of the
    array; these chunks are among those left from [i] on, so that one unit
    more than the number of chunks, which the pass gives, is enough from
    every index. *)
Theorem enrich_place_fuel fuel chunks place i :
  (is_Some (enrich_place fuel chunks place i) ↔
   passed_over (drop i chunks) < fuel) ∧
  passed_over (drop i chunks) ≤ length chunks - i ∧
  is_Some (enrich_place (S (length chunks)) chunks place i).
Proof.
  split_and!; [|apply passed_over_drop|apply enrich_place_Some].
  destruct (decide (passed_over (drop i chunks) < fuel)) as [Hlt|Hge].
  - split; [done|]. intros _.
    pose proof (enrich_place_spec fuel chunks place i Hlt) as Hp.
    destruct (omap citation_uri (drop i chunks)); [by rewrite Hp|].
    by destruct Hp as (j & -> & _).
  - rewrite enrich_place_None by lia. split; [by intros [??]|lia].
Qed.

(** The pass changes nothing but the URL: the records it returns are as
    many as it was given, in the same order, with the same identifiers and
    the same six fields. *)
Lemma enrich_preserves chunks data :
  length (enrich chunks data).1 = length data ∧
  with_url None <$> (enrich chunks data).1 = with_url None <$> data.
Proof. rewrite enrich_attach. split; [apply attach_length|apply attach_erase]. Qed.

(** The same, record by record: the k-th record receives the URI of the
    k-th citation that carries one; a record for which no such citation is
    left is returned as it was. *)
Lemma enrich_lookup chunks data k :
  (enrich chunks data).1 !! k =
  (λ place, from_option (λ u, with_url (Some u) place) place
              (omap citation_uri chunks !! k)) <$> data !! k.
Proof.
  rewrite enrich_attach.
  destruct (data !! k) as [place|] eqn:Hk; simpl.
  - destruct (omap citation_uri chunks !! k) as [u|] eqn:Hu; simpl.
    + by apply attach_lookup_lt.
    + rewrite attach_lookup_ge; [done|]. by apply lookup_ge_None.
  - apply lookup_ge_None. rewrite attach_length. by apply lookup_ge_None.
Qed.

(** C27.  The pass, chunk by chunk: a first chunk with a map URI that
    is not empty gives it to the first record; one without, and with a web
    URI that is not empty, gives the web URI, which is then the record's
    [googleMapsUrl]; in both cases the pass goes on with the chunks and the
    records that follow.  A first chunk with neither is passed over, and
    the first record is served by the chunks that follow.  The loop's test
    accepts a chunk for either URI: it does not look for a map chunk
    only. *)
Theorem enrich_cons chunk chunks place data :
  (enrich (chunk :: chunks) (place :: data)).1 =
  if truthy_opt (maps_uri chunk)
  then with_url (maps_uri chunk) place :: (enrich chunks data).1
  else if truthy_opt (web_uri chunk)
  then with_url (web_uri chunk) place :: (enrich chunks data).1
  else (enrich chunks (place :: data)).1.
Proof.
  rewrite !enrich_attach. simpl. unfold citation_uri, has_uri, chunk_uri, js_or.
  by destruct (maps_uri chunk) as [[|??]|], (web_uri chunk) as [[|??]|].
Qed.

(** C9.  Three records and five citations of which the second and the
    fourth carry a map URI and the others carry none: the first record
    receives the second citation's URI, the second record the fourth's, the
    third record none, and the index ends at five. *)
Theorem enrich_three_of_five p0 p1 p2 c0 c1 c2 c3 c4 u1 u3 :
  has_uri c0 = false → maps_uri c1 = Some u1 → u1 ≠ [] →
  has_uri c2 = false → maps_uri c3 = Some u3 → u3 ≠ [] →
  has_uri c4 = false →
  enrich [c0; c1; c2; c3; c4] [p0; p1; p2] =
  ([with_url (Some u1) p0; with_url (Some u3) p1; p2], 5).
Proof.
  intros H0 H1 Hu1 H2 H3 Hu3 H4.
  pose proof (citation_uri_maps c1 u1 H1 Hu1) as Hc1.
  pose proof (citation_uri_maps c3 u3 H3 Hu3) as Hc3.
  unfold citation_uri in Hc1, Hc3. unfold enrich. simpl.
  rewrite H0. simpl.
  destruct (has_uri c1); [|done]. rewrite Hc1. simpl.
  rewrite H2. simpl.
  destruct (has_uri c3); [|done]. rewrite Hc3. simpl.
  by rewrite H4.
Qed.

(** Every URL that the pass attaches is a string that is not empty. *)
Lemma enrich_urls_nonempty chunks data :
  Forall (λ place, googleMapsUrl place ≠ Some []) data →
  Forall (λ place, googleMapsUrl place ≠ Some []) (enrich chunks data).1.
Proof.
  rewrite enrich_attach.
  assert (Forall (λ u, u ≠ []) (omap citation_uri chunks)) as Hus.
  { apply Forall_forall. intros u (c & _ & Hc)%list_elem_of_omap.
    by eapply citation_uri_nonempty. }
  intros Hdata. apply attach_Forall; [done|].
  intros p u _ Hu. simpl. rewrite Forall_forall in Hus.
  specialize (Hus u Hu). congruence.
Qed.

(** Citations of which none carries a URI, and an empty list of
    citations, leave the records as they are. *)
Lemma enrich_no_uri chunks data :
  Forall (λ chunk, has_uri chunk = false) chunks →
  (enrich chunks data).1 = data.
Proof.
  intros Hall. rewrite enrich_attach, omap_None; [apply attach_nil_r|].
  eapply Forall_impl; [done|]. apply citation_uri_no_uri.
Qed.

End enrich.

(** From the first of three chunks of which the third carries a URI, the
    loop passes over two chunks: it returns with three units of fuel and
    not with two. *)
Lemma enrich_place_fuel_sample :
  let chunks := [no_uri_chunk; empty_web_chunk; maps_chunk (str "m")] in
  passed_over chunks = 2 ∧
  enrich_place 2 chunks (make_place [] sample_cells) 0 = None ∧
  enrich_place 3 chunks (make_place [] sample_cells) 0
  = Some (with_url (Some (str "m")) (make_place [] sample_cells), 3).
Proof. by vm_compute. Qed.

Lemma enrich_three_of_five_witness :
  enrich [no_uri_chunk; both_chunk (str "w1") (str "m1"); empty_web_chunk;
          maps_chunk (str "m3"); no_uri_chunk]
    [make_place (str "a") []; make_place (str "b") []; make_place (str "c") []]
  = ([with_url (Some (str "m1")) (make_place (str "a") []);
      with_url (Some (str "m3")) (make_place (str "b") []);
      make_place (str "c") []], 5).
Proof. by apply enrich_three_of_five. Defined.

(** A chunk with a web URI and no map reference, before a map chunk: the
    first record receives the web URI, the second the map URI. *)
Lemma enrich_cons_sample :
  (enrich [web_chunk (str "https://example.org/cafe"); maps_chunk (str "m")]
     [make_place (str "a") []; make_place (str "b") []]).1
  = [with_url (Some (str "https://example.org/cafe")) (make_place (str "a") []);
     with_url (Some (str "m")) (make_place (str "b") [])].
Proof. by vm_compute. Qed.

Lemma enrich_urls_nonempty_witness :
  Forall (λ place, googleMapsUrl place ≠ Some [])
    (enrich [empty_web_chunk; maps_chunk (str "m")] sample_data).1.
Proof. apply enrich_urls_nonempty. by repeat constructor. Defined.

Lemma enrich_no_uri_witness :
  (enrich [no_uri_chunk; empty_web_chunk] sample_data).1 = sample_data.
Proof. apply enrich_no_uri. by repeat constructor. Defined.

(** ** The request and its outcomes *)

Section searchPlaces.
Context `{U : UuidSource} `{G : GenAI}.
Implicit Types (apiKey query md : jsstring) (g : nat).
Implicit Types (response : GenerateContentResponse).

(** The guard on the number of records is not needed for the result: the
    pass over no record returns no record. *)
Lemma read_response_attach response g :
  let md := text response ||| [] in
  read_response response g =
  (mkSearchResult md (attach (extract md g) (response_uris response)),
   g + length (table_rows md)).
Proof.
  unfold read_response, response_uris. simpl.
  rewrite parse_extract, extract_length.
  destruct (grounding_chunks response) as [chunks|]; simpl;
    [|by rewrite attach_nil_r].
  destruct (Nat.ltb_spec 0 (length (table_rows (text response ||| []))))
    as [Hlen|Hlen]; [by rewrite enrich_attach|].
  rewrite (nil_length_inv (extract (text response ||| []) g)); [done|].
  rewrite extract_length. lia.
Qed.

Lemma extract_well_formed `{!UuidFresh U} md g uris :
  Forall (λ u, u ≠ []) uris → well_formed (attach (extract md g) uris).
Proof.
  intros Hus. split_and!.
  - rewrite attach_fmap by done. rewrite extract_ids. apply drawn_NoDup.
  - apply attach_Forall; [|done]. apply Forall_forall. intros p Hp.
    unfold populated. apply list_elem_of_fmap_2 with (f := columns_of) in Hp.
    rewrite extract_columns in Hp.
    apply list_elem_of_fmap in Hp as (cells & -> & _).
    apply pad_columns_nonempty.
  - apply attach_Forall.
    + apply Forall_forall. intros p Hp.
      apply list_elem_of_fmap_2 with (f := googleMapsUrl) in Hp.
      rewrite extract_urls in Hp.
      by apply list_elem_of_fmap in Hp as (cells & -> & _).
    + intros p u _ Hu. rewrite Forall_forall in Hus.
      specialize (Hus u Hu). simpl. congruence.
Qed.

Lemma response_uris_nonempty response :
  Forall (λ u, u ≠ []) (response_uris response).
Proof.
  unfold response_uris. destruct (grounding_chunks response); simpl; [|done].
  apply Forall_forall. intros u (c & _ & Hc)%list_elem_of_omap.
  by eapply citation_uri_nonempty.
Qed.

(** The three outcomes of a request, in one equation. *)
Lemma searchPlaces_cases apiKey query g :
  searchPlaces apiKey query g =
  if truthy apiKey then
    match generateContent (make_request query) with
    | Returned response =>
        mkRun (Resolved (mkSearchResult (text response ||| [])
                 (attach (extract (text response ||| []) g)
                    (response_uris response))))
          [make_request query] (g + length (table_rows (text response ||| [])))
    | Threw message =>
        mkRun (Rejected (message ||| FETCH_FAILED)) [make_request query] g
    end
  else mkRun (Rejected API_KEY_MISSING) [] g.
Proof.
  unfold searchPlaces. destruct (truthy apiKey); simpl; [|done].
  destruct (generateContent _) as [response|thrown]; simpl; [|done].
  by rewrite read_response_attach.
Qed.

(** C7.  Success: when the service returns, the request resolves with
    the response's text (the empty string when it has none) and with the
    records of that text, each with the URI of the citation of its rank;
    one call was made and one identifier is drawn for each row. *)
Theorem searchPlaces_returned apiKey query g response :
  apiKey ≠ [] → generateContent (make_request query) = Returned response →
  searchPlaces apiKey query g =
  mkRun (Resolved (mkSearchResult (text response ||| [])
           (attach (extract (text response ||| []) g) (response_uris response))))
    [make_request query] (g + length (table_rows (text response ||| []))).
Proof.
  intros Hkey%truthy_nonempty Hret. by rewrite searchPlaces_cases, Hkey, Hret.
Qed.

(** C28.  Errors as values: a request is rejected in exactly two cases,
    each with its message.  Without credential, with the configuration
    message (and then no call is made); with a credential, when the service
    throws, with the thrown message, or with the default message when the
    thrown value has none or an empty one.  In both cases no identifier is
    drawn.  The parse and the citation pass never reject. *)
Theorem searchPlaces_rejected_iff apiKey query g message :
  outcome (searchPlaces apiKey query g) = Rejected message ↔
  (apiKey = [] ∧ message = API_KEY_MISSING
   ∧ searchPlaces apiKey query g = mkRun (Rejected message) [] g) ∨
  (apiKey ≠ [] ∧ ∃ thrown,
     generateContent (make_request query) = Threw thrown
     ∧ message = thrown ||| FETCH_FAILED
     ∧ searchPlaces apiKey query g
       = mkRun (Rejected message) [make_request query] g).
Proof.
  rewrite searchPlaces_cases. destruct apiKey as [|c apiKey]; simpl.
  { split; [intros [= <-]; by left|]. by intros [(_ & -> & _)|[? _]]. }
  destruct (generateContent _) as [response|thrown]; simpl.
  - split; [done|]. by intros [[? _]|(_ & ? & ? & _)].
  - split; [intros [= <-]; right; eauto|].
    by intros [[? _]|(_ & ? & [= <-] & -> & _)].
Qed.

(** A rejection carries a message that is not empty. *)
Lemma searchPlaces_rejected apiKey query g message :
  outcome (searchPlaces apiKey query g) = Rejected message → message ≠ [].
Proof.
  unfold searchPlaces. destruct (truthy apiKey); simpl; [|by intros [= <-]].
  destruct (generateContent _) as [response|thrown]; simpl.
  - by destruct (read_response response g).
  - intros [= <-]. by apply or_default_nonempty.
Qed.

(** The records a request resolves with are well formed. *)
Lemma searchPlaces_resolved `{!UuidFresh U} apiKey query g result :
  outcome (searchPlaces apiKey query g) = Resolved result →
  well_formed (result_data result).
Proof.
  unfold searchPlaces. destruct (truthy apiKey); simpl; [|done].
  destruct (generateContent _) as [response|thrown]; simpl; [|done].
  rewrite read_response_attach. simpl. intros [= <-]. simpl.
  apply extract_well_formed, response_uris_nonempty.
Qed.

(** A request makes no call without credential, and otherwise one. *)
Lemma searchPlaces_calls apiKey query g :
  calls (searchPlaces apiKey query g) = searchPlaces_request apiKey query.
Proof.
  unfold searchPlaces, searchPlaces_request.
  destruct (truthy apiKey); simpl; [|done].
  destruct (generateContent _) as [response|thrown]; simpl; [|done].
  by destruct (read_response response g).
Qed.

(** The identifiers drawn by a request: one for each record. *)
Lemma searchPlaces_uuid_next apiKey query g :
  uuid_next (searchPlaces apiKey query g) =
  g + match outcome (searchPlaces apiKey query g) with
      | Resolved result => length (result_data result)
      | Rejected _ => 0
      end.
Proof.
  unfold searchPlaces. destruct (truthy apiKey); simpl; [|lia].
  destruct (generateContent _) as [response|thrown]; simpl; [|lia].
  rewrite read_response_attach. simpl.
  by rewrite attach_length, extract_length.
Qed.

(** The credential of the module is usable exactly when the variable of the
    environment is set and not empty. *)
Lemma truthy_module_apiKey API_KEY :
  truthy (module_apiKey API_KEY) = truthy_opt API_KEY.
Proof. by destruct API_KEY as [[|c s]|]. Qed.

(** Without the variable, or with an empty one, every request is rejected
    with the configuration error, and the service is not called. *)
Lemma searchPlaces_no_key API_KEY query g :
  truthy_opt API_KEY = false →
  searchPlaces (module_apiKey API_KEY) query g =
  mkRun (Rejected API_KEY_MISSING) [] g.
Proof.
  intros Hkey. unfold searchPlaces.
  by rewrite truthy_module_apiKey, Hkey.
Qed.

End searchPlaces.

Lemma searchPlaces_returned_witness :
  @searchPlaces unary_source sample_service (str "key") (str "Gyms in Baku") 4
  = mkRun (Resolved (mkSearchResult (text sample_response ||| [])
             (attach (@extract unary_source (text sample_response ||| []) 4)
                (response_uris sample_response))))
      [make_request (str "Gyms in Baku")]
      (4 + length (table_rows (text sample_response ||| []))).
Proof. by apply (@searchPlaces_returned unary_source sample_service). Defined.
