(* ===== verification/App.v ===== *)
(** * The form, its handlers and the session

    Models [src/App.tsx]: the component's state (the six [useState] cells),
    its handlers ([handleCategoryChange], [handleSearch], [handleExport],
    the [onBlur] of the custom category and the Reset button) and the
    conditions under which the view lets an event happen (the [disabled]
    attributes and the conditional rendering).

    [handleSearch] is asynchronous: [handleSearch_submit] is the part before
    the [await], [handleSearch_settle] the part after it.  A session is a
    [System]: the component's state, the queries of the calls to
    [searchPlaces] that have not settled, the requests made, the number of
    identifiers drawn and the page's downloads.  [step] is
    the transition relation: an event that the view enables, handled by its
    handler.  The event [Settle] carries the reply of the service to the
    call that it settles: nothing is assumed of the service, which may
    answer one request in two ways.  [run] is the state after a sequence of
    events.  The invariants are proved of every reachable state by
    induction on [reachable], in two parts: [invariant], which holds
    whatever the identifiers drawn, and [records_ok], on the records and
    the downloads, which holds when the identifiers drawn are distinct.
    [queries] and [requests_of] account for the
    requests of a sequence of events.  [machine] is the busy/idle machine
    that the specification describes, and [phase] the phase of a state: the
    session is shown to implement the machine. *)

From S2P Require Import Prelude JsString Types Extern Parser Csv Gemini.

(** ** The component's state *)

Definition PRESET_CATEGORIES : list jsstring :=
  str <$> [
    "Coffee Shops";
    "Restaurants";
    "Hotels";
    "Hospitals";
    "Gyms & Fitness";
    "Pharmacies";
    "Supermarkets";
    "Banks";
    "Real Estate Agencies";
    "Car Repair"
  ]%string.

(** [PRESET_CATEGORIES[0]]. *)
Definition FIRST_CATEGORY : jsstring := default [] (PRESET_CATEGORIES !! 0).

(** The value of the select's last option. *)
Definition CUSTOM : jsstring := str "custom".

Definition NO_DATA : jsstring :=
  str "No business data found. Try refining the location or category.".

Record State := mkState {
  location : jsstring;
  category : jsstring;
  customCategory : jsstring;
  isCustomCategory : bool;
  data : list PlaceData;
  status : ScrapeStatus
}.

(** The state of the first render. *)
Definition initial_state : State :=
  mkState [] FIRST_CATEGORY [] false [] (mkScrapeStatus false None false).

(** The setters that [useState] returns. *)
Definition setLocation (v : jsstring) (s : State) : State :=
  mkState v (category s) (customCategory s) (isCustomCategory s) (data s)
    (status s).
Definition setCategory (v : jsstring) (s : State) : State :=
  mkState (location s) v (customCategory s) (isCustomCategory s) (data s)
    (status s).
Definition setCustomCategory (v : jsstring) (s : State) : State :=
  mkState (location s) (category s) v (isCustomCategory s) (data s) (status s).
Definition setIsCustomCategory (v : bool) (s : State) : State :=
  mkState (location s) (category s) (customCategory s) v (data s) (status s).
Definition setData (v : list PlaceData) (s : State) : State :=
  mkState (location s) (category s) (customCategory s) (isCustomCategory s) v
    (status s).
Definition setStatus (v : ScrapeStatus) (s : State) : State :=
  mkState (location s) (category s) (customCategory s) (isCustomCategory s)
    (data s) v.

(** ** The handlers *)

Definition handleCategoryChange (val : jsstring) (s : State) : State :=
  if decide (val = CUSTOM) then setCategory [] (setIsCustomCategory true s)
  else setCategory val (setIsCustomCategory false s).

(** [isCustomCategory ? customCategory : category]. *)
Definition finalCategory (s : State) : jsstring :=
  if isCustomCategory s then customCategory s else category s.

Definition fullQuery (s : State) : jsstring :=
  finalCategory s ++ str " in " ++ location s.

(** [handleSearch] up to the [await]: the new state, and the query that
    [searchPlaces] is called with, if it is called. *)
Definition handleSearch_submit (s : State) : State * option jsstring :=
  if negb (truthy (trim (location s)))
     || negb (truthy (trim (finalCategory s)))
  then (s, None)
  else (setData [] (setStatus (mkScrapeStatus true None false) s),
        Some (fullQuery s)).

(** [handleSearch] after the [await], given what the promise settled
    with. *)
Definition handleSearch_settle (settled : Outcome SearchResult) (s : State)
    : State :=
  match settled with
  | Resolved result =>
      let s := setData (result_data result) s in
      if length (result_data result) =? 0 then
        setStatus (mkScrapeStatus false (Some NO_DATA) true) s
      else setStatus (mkScrapeStatus false None true) s
  | Rejected message =>
      setStatus (mkScrapeStatus false (Some message) true) s
  end.

(** The name of the exported file. *)
Definition make_filename (s : State) : jsstring :=
  toLowerCase (replace_non_alnum HYPHEN (finalCategory s ++ [HYPHEN] ++ location s))
  ++ str ".csv".

Definition handleExport (supported : bool) (s : State) (page : Page) : Page :=
  if length (data s) =? 0 then page
  else downloadCSV supported (convertToCSV (data s)) (make_filename s) page.

(** The custom category's [onBlur]. *)
Definition handleCustomBlur (s : State) : State :=
  if negb (truthy (trim (customCategory s))) then
    setCategory FIRST_CATEGORY (setIsCustomCategory false s)
  else s.

(** The Reset button's [onClick]. *)
Definition handleReset (s : State) : State :=
  setCategory FIRST_CATEGORY (setIsCustomCategory false s).

(** ** The view's conditions *)

(** The location input is not disabled. *)
Definition location_enabled (s : State) : bool := negb (loading (status s)).

(** The select is rendered, and it is not disabled; its options are the
    preset categories and [custom]. *)
Definition select_shown (s : State) : bool := negb (isCustomCategory s).
Definition select_enabled (s : State) : bool := negb (loading (status s)).
Definition select_options : list jsstring := PRESET_CATEGORIES ++ [CUSTOM].

(** The custom category's input is rendered, and it is not disabled. *)
Definition custom_shown (s : State) : bool := isCustomCategory s.
Definition custom_enabled (s : State) : bool := negb (loading (status s)).

(** The Reset button is rendered; nothing disables it. *)
Definition reset_shown (s : State) : bool := isCustomCategory s.

(** The submit button is not disabled. *)
Definition submit_enabled (s : State) : bool :=
  negb (loading (status s) || negb (truthy (trim (location s)))).

(** The error banner is rendered. *)
Definition error_shown (s : State) : bool := truthy_opt (error (status s)).

(** The export button is not disabled. *)
Definition export_enabled (s : State) : bool := negb (length (data s) =? 0).

(** ** The session *)

Inductive Event :=
  | ChangeLocation (value : jsstring)
  | ChangeCategory (value : jsstring)
  | ChangeCustomCategory (value : jsstring)
  | BlurCustomCategory
  | ClickReset
  | Submit
  | Settle (k : nat) (reply : Reply)
  | ClickExport.

Record System := mkSystem {
  app : State;
  pending : list jsstring;
  sent : list Request;
  uuids : nat;
  page : Page
}.

Definition initial : System :=
  mkSystem initial_state [] [] 0 (mkPage [] []).

(** The events that the view lets happen: a change of a field that is
    rendered and not disabled, a submission by the button, the settling of
    a call that is pending, a click on a button that is rendered and not
    disabled. *)
Definition enabled (e : Event) (w : System) : bool :=
  match e with
  | ChangeLocation _ => location_enabled (app w)
  | ChangeCategory value =>
      select_shown (app w) && select_enabled (app w)
      && bool_decide (value ∈ select_options)
  | ChangeCustomCategory _ => custom_shown (app w) && custom_enabled (app w)
  | BlurCustomCategory => custom_shown (app w)
  | ClickReset => reset_shown (app w)
  | Submit => submit_enabled (app w)
  | Settle k _ => bool_decide (is_Some (pending w !! k))
  | ClickExport => export_enabled (app w)
  end.

(** The query that an event submits: the one of [handleSearch], when its
    guards let it through. *)
Definition submitted (e : Event) (s : State) : list jsstring :=
  match e with
  | Submit => option_list (handleSearch_submit s).2
  | _ => []
  end.

Section session.
Context `{U : UuidSource}.
Context (apiKey : jsstring) (supported : bool).

(** An event, handled. *)
Definition handle (e : Event) (w : System) : System :=
  match e with
  | ChangeLocation value =>
      mkSystem (setLocation value (app w)) (pending w) (sent w) (uuids w) (page w)
  | ChangeCategory value =>
      mkSystem (handleCategoryChange value (app w)) (pending w) (sent w)
        (uuids w) (page w)
  | ChangeCustomCategory value =>
      mkSystem (setCustomCategory value (app w)) (pending w) (sent w) (uuids w)
        (page w)
  | BlurCustomCategory =>
      mkSystem (handleCustomBlur (app w)) (pending w) (sent w) (uuids w) (page w)
  | ClickReset =>
      mkSystem (handleReset (app w)) (pending w) (sent w) (uuids w) (page w)
  | Submit =>
      let '(s, query) := handleSearch_submit (app w) in
      mkSystem s (pending w ++ option_list query)
        (sent w ++ (option_list query ≫= searchPlaces_request apiKey))
        (uuids w) (page w)
  | Settle k reply =>
      match pending w !! k with
      | Some query =>
          let run := @searchPlaces U (answering reply) apiKey query (uuids w) in
          mkSystem (handleSearch_settle (outcome run) (app w))
            (delete k (pending w)) (sent w) (uuid_next run) (page w)
      | None => w
      end
  | ClickExport =>
      mkSystem (app w) (pending w) (sent w) (uuids w)
        (handleExport supported (app w) (page w))
  end.

(** One transition. *)
Inductive step : System → Event → System → Prop :=
  | step_event e w : enabled e w = true → step w e (handle e w).

(** The states of a session. *)
Inductive reachable : System → Prop :=
  | reachable_initial : reachable initial
  | reachable_step w e w' : reachable w → step w e w' → reachable w'.

(** The state after a sequence of events, if the view enables each of
    them in its turn. *)
Fixpoint run (events : list Event) (w : System) : option System :=
  match events with
  | [] => Some w
  | e :: events' => if enabled e w then run events' (handle e w) else None
  end.

(** [handleSearch] when the promise settles before any other event, the
    service answering with [reply]. *)
Definition handleSearch (reply : Reply) (w : System) : System :=
  let w' := handle Submit w in
  handle (Settle (length (pending w)) reply) w'.

(** The queries that a sequence of events submits, in the order of the
    submissions, each read from the form as it is at that time. *)
Fixpoint queries (events : list Event) (w : System) : list jsstring :=
  match events with
  | [] => []
  | e :: events' => submitted e (app w) ++ queries events' (handle e w)
  end.

(** The requests that [searchPlaces] makes for queries, one after the
    other. *)
Definition requests_of (asked : list jsstring) : list Request :=
  asked ≫= searchPlaces_request apiKey.

End session.

(** ** What holds of every state of a session *)

(** One request at a time: at most one call is pending, and the busy flag
    is set exactly while one is. *)
Definition one_in_flight (w : System) : Prop :=
  length (pending w) ≤ 1 ∧
  loading (status (app w)) = bool_decide (pending w ≠ []).

(** The status and the records agree: while busy there is no record and
    no error; an error has a message and comes with no record; otherwise
    the search is complete exactly when there are records. *)
Definition status_ok (s : State) : Prop :=
  if loading (status s) then
    data s = [] ∧ error (status s) = None ∧ complete (status s) = false
  else
    match error (status s) with
    | Some message => message ≠ [] ∧ data s = [] ∧ complete (status s) = true
    | None => complete (status s) = bool_decide (data s ≠ [])
    end.

(** The select's value is one of its options: a preset category, or the
    empty string while the custom category is edited. *)
Definition category_ok (s : State) : Prop :=
  if isCustomCategory s then category s = []
  else category s ∈ PRESET_CATEGORIES.

(** A query names a category and a location, neither of them blank. *)
Definition query_ok (query : jsstring) : Prop :=
  ∃ cat loc, query = cat ++ str " in " ++ loc ∧ trim cat ≠ [] ∧ trim loc ≠ [].

(** A file name: lower-case letters, digits and hyphens, then [.csv]. *)
Definition filename_ok (filename : jsstring) : Prop :=
  ∃ stem, filename = stem ++ str ".csv" ∧
          Forall (λ c, is_lower_alnum c = true ∨ c = HYPHEN) stem.

(** A download: the CSV text of well-formed records, at least one, after a
    byte-order mark, under the CSV type and a file name. *)
Definition download_ok (d : Download) : Prop :=
  blob_type d = str "text/csv;charset=utf-8;" ∧ filename_ok (download_name d) ∧
  ∃ records, records ≠ [] ∧ well_formed records ∧
             blob_content d = BOM :: convertToCSV records.

Definition page_ok (p : Page) : Prop :=
  body_children p = [] ∧ Forall download_ok (started p).

(** The requests sent carry the queries of the form; none is sent without
    credential. *)
Definition sent_ok (apiKey : jsstring) (requests : list Request) : Prop :=
  Forall (λ r, ∃ query, query_ok query ∧ r = make_request query) requests ∧
  (apiKey = [] → requests = []).

Record invariant (apiKey : jsstring) (w : System) : Prop := mkInvariant {
  inv_flight : one_in_flight w;
  inv_status : status_ok (app w);
  inv_category : category_ok (app w);
  inv_pending : Forall query_ok (pending w);
  inv_sent : sent_ok apiKey (sent w)
}.

(** The records shown and the downloads started are well formed.  This part
    of the invariant is the only one that rests on the identifiers drawn
    being distinct, and is kept apart for that reason. *)
Record records_ok (w : System) : Prop := mkRecordsOk {
  rec_data : well_formed (data (app w));
  rec_page : page_ok (page w)
}.

(** ** The busy/idle machine

    What the session promises, as the specification words it: a search is
    idle, requesting, and then succeeded or failed; from there a new search
    can be requested. *)

Inductive Phase := Idle | Requesting | Succeeded | Failed.

#[export] Instance Phase_eq_dec : EqDecision Phase.
Proof. solve_decision. Defined.

(** The phase that a state of the form is in. *)
Definition phase (s : State) : Phase :=
  if loading (status s) then Requesting
  else if complete (status s) then
         match error (status s) with Some _ => Failed | None => Succeeded end
       else Idle.

(** The events that edit the form, and those of them that can happen
    while a request is pending (the focus leaving the custom category, and
    the Reset button, which nothing disables). *)
Definition edits (e : Event) : bool :=
  match e with
  | ChangeLocation _ | ChangeCategory _ | ChangeCustomCategory _
  | BlurCustomCategory | ClickReset => true
  | _ => false
  end.

Definition edits_while_busy (e : Event) : bool :=
  match e with BlurCustomCategory | ClickReset => true | _ => false end.

(** The transitions of the machine: a submission starts a request, or is
    ignored, unless one is pending; the pending request settles with
    success or failure; an export leaves a success as it is; an edit
    changes no phase. *)
Inductive machine : Phase → Event → Phase → Prop :=
  | machine_submit p : p ≠ Requesting → machine p Submit Requesting
  | machine_ignored p : p ≠ Requesting → machine p Submit p
  | machine_settle p k reply :
      p = Succeeded ∨ p = Failed → machine Requesting (Settle k reply) p
  | machine_export : machine Succeeded ClickExport Succeeded
  | machine_edit p e :
      edits e = true → (p = Requesting → edits_while_busy e = true) →
      machine p e p.

(** ** Values for evaluation *)

(** A form filled in with a preset category. *)
Definition coffee_state : State :=
  mkState (str "Baku, Azerbaijan") (str "Coffee Shops") [] false []
    (mkScrapeStatus false None false).

(** A session: a custom category is typed, the search is submitted, the
    category is reset while the request is pending, the request settles,
    the records are exported. *)
Definition reset_session : list Event :=
  [ ChangeLocation (str "Baku"); ChangeCategory CUSTOM;
    ChangeCustomCategory (str "Vegan"); Submit; ClickReset;
    Settle 0 (Returned sample_response);
    ClickExport ].

(** The state of that session while the request is pending, and its last
    state, with the sample service, a credential and a browser that
    supports downloads. *)
Definition busy_system : System :=
  default initial
    (@run unary_source (str "key") true (take 4 reset_session)
       initial).

Definition exported_system : System :=
  default initial
    (@run unary_source (str "key") true reset_session initial).

(** A session of two searches: the second is submitted after the first has
    settled, and is pending at the end. *)
Definition search_twice : list Event :=
  [ ChangeLocation (str "Baku"); Submit; Settle 0 (Returned sample_response);
    ChangeCategory (str "Hotels"); Submit ].

Definition twice_system : System :=
  default initial
    (@run unary_source (str "key") true search_twice initial).

(** The state of that session once the first search has settled. *)
Definition found_system : System :=
  default initial
    (@run unary_source (str "key") true (take 3 search_twice)
       initial).

(** ** The handlers *)

Section handlers.
Implicit Types (s : State) (value query : jsstring).

Lemma FIRST_CATEGORY_preset : FIRST_CATEGORY ∈ PRESET_CATEGORIES.
Proof. compute_done. Qed.

Lemma handleCategoryChange_ok value s :
  value ∈ select_options → category_ok (handleCategoryChange value s).
Proof.
  unfold handleCategoryChange, category_ok, select_options.
  intros [Hv|Hv%list_elem_of_singleton]%elem_of_app; case_decide; simpl;
    try done.
Qed.

Lemma handleCustomBlur_ok s : category_ok s → category_ok (handleCustomBlur s).
Proof.
  unfold handleCustomBlur. case_match; [|done]. intros _.
  apply FIRST_CATEGORY_preset.
Qed.

(** The query of a submission is the category, [ in ] and the location, the
    category being the one that the form shows. *)
Lemma handleSearch_submit_query s s' query :
  handleSearch_submit s = (s', Some query) →
  query = fullQuery s ∧ query_ok query ∧
  s' = setData [] (setStatus (mkScrapeStatus true None false) s).
Proof.
  unfold handleSearch_submit. case_match eqn:Hguard; [done|].
  intros [= <- <-]. apply orb_false_iff in Hguard as [Hl Hc].
  apply negb_false_iff, truthy_nonempty in Hl, Hc.
  split_and!; [done| |done]. by exists (finalCategory s), (location s).
Qed.

Lemma handleSearch_submit_none s s' :
  handleSearch_submit s = (s', None) → s' = s.
Proof. unfold handleSearch_submit. case_match; by intros [= <-]. Qed.

(** After the promise settles the form is not busy, whatever it settled
    with. *)
Lemma handleSearch_settle_idle settled s :
  loading (status (handleSearch_settle settled s)) = false ∧
  complete (status (handleSearch_settle settled s)) = true.
Proof. destruct settled; simpl; [case_match|]; done. Qed.

Lemma handleSearch_settle_form settled s :
  let s' := handleSearch_settle settled s in
  location s' = location s ∧ category s' = category s ∧
  customCategory s' = customCategory s ∧
  isCustomCategory s' = isCustomCategory s.
Proof. destruct settled; simpl; [case_match|]; done. Qed.

(** The file name's characters. *)
Lemma make_filename_ok s : filename_ok (make_filename s).
Proof.
  eexists. split; [done|]. by apply toLowerCase_replace_non_alnum.
Qed.

(** The status after the promise settles, from its outcome. *)
Lemma handleSearch_settle_status settled s :
  status_ok s → loading (status s) = true →
  (∀ message, settled = Rejected message → message ≠ []) →
  status_ok (handleSearch_settle settled s).
Proof.
  unfold status_ok. intros Hs Hl Hmsg. rewrite Hl in Hs.
  destruct Hs as (Hdata & _ & _).
  destruct settled as [result|message]; simpl; [|by eauto].
  by destruct (result_data result).
Qed.

Lemma handleSearch_settle_data (P : list PlaceData → Prop) settled s :
  P (data s) → (∀ result, settled = Resolved result → P (result_data result)) →
  P (data (handleSearch_settle settled s)).
Proof.
  intros Hs Hr. destruct settled as [result|message]; simpl; [|done].
  case_match; simpl; by apply Hr.
Qed.

End handlers.

(** ** The invariant *)

Section invariant.
Context `{U : UuidSource}.
Context (apiKey : jsstring) (supported : bool).
Implicit Types (w : System) (s : State) (e : Event) (k : nat).

Lemma well_formed_nil : well_formed [].
Proof. split_and!; constructor. Qed.

Lemma invariant_initial : invariant apiKey initial.
Proof.
  constructor.
  - split; [simpl; lia|done].
  - done.
  - apply FIRST_CATEGORY_preset.
  - constructor.
  - by split.
Qed.

(** An event that changes the form's fields only. *)
Lemma invariant_form w s :
  invariant apiKey w → status s = status (app w) → data s = data (app w) →
  category_ok s →
  invariant apiKey (mkSystem s (pending w) (sent w) (uuids w) (page w)).
Proof.
  intros [] Hs Hd Hc. constructor; simpl; try done.
  - unfold one_in_flight. simpl. by rewrite Hs.
  - unfold status_ok. by rewrite Hs, Hd.
Qed.

(** While no call is pending the form is not busy, and conversely. *)
Lemma one_in_flight_idle w :
  one_in_flight w → loading (status (app w)) = false → pending w = [].
Proof.
  intros [_ Hl] Hidle. rewrite Hl in Hidle.
  apply bool_decide_eq_false in Hidle.
  destruct (pending w); [done|]. by destruct Hidle.
Qed.

Lemma one_in_flight_pending w k query :
  one_in_flight w → pending w !! k = Some query →
  pending w = [query] ∧ k = 0 ∧ loading (status (app w)) = true.
Proof.
  intros [Hlen Hl] Hk. rewrite Hl.
  destruct (pending w) as [|q [|??]], k; simplify_eq/=; try done; lia.
Qed.

(** The requests sent, after a call for a query of the form. *)
Lemma sent_ok_request requests query :
  sent_ok apiKey requests → query_ok query →
  sent_ok apiKey (requests ++ searchPlaces_request apiKey query).
Proof.
  intros [Hall Hkey] Hq. unfold searchPlaces_request. split.
  - apply Forall_app. split; [done|]. case_match; repeat constructor.
    by exists query.
  - intros ->. simpl. rewrite app_nil_r. by apply Hkey.
Qed.

(** A submission: the view enables it only while no call is pending. *)
Lemma invariant_submit w :
  invariant apiKey w → enabled Submit w = true →
  invariant apiKey (handle apiKey supported Submit w).
Proof.
  intros Hinv Hen. pose proof Hinv as []. simpl in *.
  unfold submit_enabled in Hen.
  apply negb_true_iff, orb_false_iff in Hen as [Hidle _].
  pose proof (one_in_flight_idle w inv_flight0 Hidle) as Hnone.
  destruct (handleSearch_submit (app w)) as [s [query|]] eqn:Hs.
  - apply handleSearch_submit_query in Hs as (_ & Hq & ->).
    rewrite Hnone. constructor; simpl; try done.
    + by constructor.
    + rewrite app_nil_r. by apply sent_ok_request.
  - apply handleSearch_submit_none in Hs as ->.
    rewrite !app_nil_r. by destruct w.
Qed.


(** The settling of the pending call. *)
Lemma invariant_settle w k reply :
  invariant apiKey w → enabled (Settle k reply) w = true →
  invariant apiKey (handle apiKey supported (Settle k reply) w).
Proof.
  intros [] [query Hk]%bool_decide_eq_true. simpl. rewrite Hk.
  destruct (one_in_flight_pending w k query inv_flight0 Hk) as (Hp & -> & Hl).
  rewrite Hp in *. apply Forall_cons in inv_pending0 as [Hq _].
  set (r := searchPlaces apiKey query (uuids w)).
  pose proof (handleSearch_settle_idle (outcome r) (app w)) as [Hidle _].
  constructor; simpl; try done.
  - split; cbn [app pending]; [simpl; lia|by rewrite Hidle].
  - apply handleSearch_settle_status; [done..|].
    intros message. apply searchPlaces_rejected.
  - unfold category_ok in *.
    by destruct (handleSearch_settle_form (outcome r) (app w))
      as (_ & -> & _ & ->).
Qed.

(** An export. *)
Lemma invariant_export w :
  invariant apiKey w → invariant apiKey (handle apiKey supported ClickExport w).
Proof.
  intros []. by constructor.
Qed.

(** Every transition keeps the invariant. *)
Lemma invariant_step w e w' :
  invariant apiKey w → step apiKey supported w e w' → invariant apiKey w'.
Proof.
  intros Hinv Hstep. destruct Hstep as [e w Hen]. pose proof Hinv as [].
  destruct e; simpl in Hen.
  - by apply invariant_form.
  - apply andb_true_iff in Hen as [_ Hv%bool_decide_eq_true].
    apply invariant_form; [done| | |by apply handleCategoryChange_ok];
      unfold handleCategoryChange; by case_decide.
  - by apply invariant_form.
  - apply invariant_form; [done| | |by apply handleCustomBlur_ok];
      unfold handleCustomBlur; by case_match.
  - apply invariant_form; [done..|]. apply FIRST_CATEGORY_preset.
  - by apply invariant_submit.
  - by apply invariant_settle.
  - by apply invariant_export.
Qed.

Lemma invariant_reachable w :
  reachable apiKey supported w → invariant apiKey w.
Proof.
  induction 1 as [|w e w' _ IH Hstep]; [apply invariant_initial|].
  by eapply invariant_step.
Qed.

(** A sequence of events that the view enables, one after the other, leads
    to a state of the session. *)
Lemma run_reachable events w w' :
  reachable apiKey supported w → run apiKey supported events w = Some w' →
  reachable apiKey supported w'.
Proof.
  revert w. induction events as [|e events IH]; intros w Hw; simpl.
  { by intros [= <-]. }
  destruct (enabled e w) eqn:Hen; [|done]. apply IH.
  eapply reachable_step; [done|]. by constructor.
Qed.

(** Every state of a session is the end of a sequence of events that the
    view enables. *)
Lemma run_snoc events e w :
  run apiKey supported (events ++ [e]) w =
  w' ← run apiKey supported events w;
  if enabled e w' then Some (handle apiKey supported e w') else None.
Proof.
  revert w. induction events as [|e' events IH]; intros w; simpl.
  - by destruct (enabled e w).
  - destruct (enabled e' w); [apply IH|done].
Qed.

Lemma reachable_run w :
  reachable apiKey supported w →
  ∃ events, run apiKey supported events initial = Some w.
Proof.
  induction 1 as [|w e w' _ [events IH] Hstep]; [by exists []|].
  destruct Hstep as [e w Hen]. exists (events ++ [e]).
  rewrite run_snoc, IH. simpl. by rewrite Hen.
Qed.

(** *** The requests of a session *)

(** One request for each query with a credential, none without. *)
Lemma requests_of_key asked :
  requests_of apiKey asked =
  if truthy apiKey then make_request <$> asked else [].
Proof.
  unfold requests_of, searchPlaces_request.
  destruct (truthy apiKey); simpl;
    induction asked as [|query asked IH]; simpl; by f_equal.
Qed.

Lemma submitted_ok e s : Forall query_ok (submitted e s).
Proof.
  destruct e; try constructor. simpl.
  destruct (handleSearch_submit s) as [s' [query|]] eqn:Hs; repeat constructor.
  by apply handleSearch_submit_query in Hs as (_ & Hq & _).
Qed.

Lemma queries_ok events w :
  Forall query_ok (queries apiKey supported events w).
Proof.
  revert w. induction events as [|e events IH]; intros w; [constructor|].
  apply Forall_app. split; [apply submitted_ok|apply IH].
Qed.

(** One event: the query it submits joins the pending ones and its
    request the requests made; the call it settles leaves the pending
    ones. *)
Lemma handle_accounts w e :
  one_in_flight w → enabled e w = true →
  let w' := handle apiKey supported e w in
  sent w' = sent w ++ requests_of apiKey (submitted e (app w)) ∧
  ∃ settled, pending w ++ submitted e (app w) = settled ++ pending w'.
Proof.
  intros Hflight Hen.
  destruct e; simpl; try (split; [|exists []]; by rewrite !app_nil_r).
  - split; [|exists []]; by destruct (handleSearch_submit (app w)).
  - apply bool_decide_eq_true in Hen as [query Hk]. rewrite Hk.
    destruct (one_in_flight_pending w k query Hflight Hk) as (Hp & -> & _).
    split; [by rewrite app_nil_r|]. exists [query]. by rewrite Hp.
Qed.

Lemma run_accounts events w w' :
  invariant apiKey w → run apiKey supported events w = Some w' →
  sent w' = sent w ++ requests_of apiKey (queries apiKey supported events w) ∧
  ∃ settled,
    pending w ++ queries apiKey supported events w = settled ++ pending w'.
Proof.
  revert w. induction events as [|e events IH]; intros w Hinv; simpl.
  { intros [= <-]. split; [|exists []]; by rewrite !app_nil_r. }
  destruct (enabled e w) eqn:Hen; [|done]. intros Hrun.
  destruct (handle_accounts w e (inv_flight _ _ Hinv) Hen) as (Hs1 & s1 & Hp1).
  assert (invariant apiKey (handle apiKey supported e w)) as Hinv'.
  { eapply invariant_step; [done|]. by constructor. }
  destruct (IH _ Hinv' Hrun) as (Hs2 & s2 & Hp2). split.
  - unfold requests_of in *. by rewrite Hs2, Hs1, bind_app, app_assoc.
  - exists (s1 ++ s2). by rewrite app_assoc, Hp1, <- app_assoc, Hp2, app_assoc.
Qed.

(** C4.  One request at a time: in every state of a session at most one
    call to [searchPlaces] is pending, and the form is busy exactly while
    one is.  The handler has no guard of its own: it is the disabled submit
    button that blocks a second submission. *)
Theorem reachable_one_request w :
  reachable apiKey supported w →
  length (pending w) ≤ 1 ∧
  loading (status (app w)) = bool_decide (pending w ≠ []).
Proof. intros Hw. by destruct (invariant_reachable w Hw). Qed.

(** C8.  The status and the records agree in every state of a session:
    while the form is busy there is no record and no error (a new search
    discards the previous result); an error, the absence of data included,
    carries a message and comes with no record; otherwise the search is
    complete exactly when records are shown. *)
Theorem reachable_status_ok w :
  reachable apiKey supported w → status_ok (app w).
Proof. intros Hw. by destruct (invariant_reachable w Hw). Qed.

(** C31.  The requests of a session are those of its submissions, in
    their order: after any sequence of events that the view enables, the
    requests made are those of the queries submitted, each read from the
    form at the time of its submission, one each and in that order (none
    without a credential): no request is made twice, whatever the service
    answers; the query that is pending, if any, is the last one submitted;
    and every query submitted names a category and a location that are not
    blank. *)
Theorem run_requests events w :
  run apiKey supported events initial = Some w →
  let asked := queries apiKey supported events initial in
  sent w = (if truthy apiKey then make_request <$> asked else []) ∧
  (∃ settled, asked = settled ++ pending w) ∧
  Forall query_ok asked.
Proof.
  intros Hrun asked.
  destruct (run_accounts events initial w invariant_initial Hrun)
    as (Hs & settled & Hp).
  rewrite <- requests_of_key. split_and!; [done|by exists settled|].
  apply queries_ok.
Qed.

(** No state of a session is stuck: while the form is busy the pending
    call can settle, and otherwise the location can be edited. *)
Lemma reachable_progress w :
  reachable apiKey supported w → ∃ e, enabled e w = true.
Proof.
  intros [[_ Hb] _ _ _ _]%invariant_reachable.
  destruct (loading (status (app w))) eqn:Hl.
  - exists (Settle 0 (Threw None)). symmetry in Hb.
    apply bool_decide_eq_true in Hb. simpl. apply bool_decide_eq_true.
    by destruct (pending w).
  - exists (ChangeLocation []). simpl. unfold location_enabled. by rewrite Hl.
Qed.

(** C33.  The busy state is left: in a state of a session where the
    form is busy the pending call can settle, and when it does, whatever
    it settles with, the form is idle and complete, no call is pending,
    and the fields of the form are as they were. *)
Theorem settle_leaves_idle w reply :
  reachable apiKey supported w → loading (status (app w)) = true →
  enabled (Settle 0 reply) w = true ∧
  let w' := handle apiKey supported (Settle 0 reply) w in
  loading (status (app w')) = false ∧ complete (status (app w')) = true ∧
  pending w' = [] ∧ location (app w') = location (app w) ∧
  finalCategory (app w') = finalCategory (app w).
Proof.
  intros Hw Hl. destruct (invariant_reachable w Hw) as [[Hlen Hb] _ _ _ _].
  rewrite Hl in Hb. symmetry in Hb. apply bool_decide_eq_true in Hb.
  destruct (pending w) as [|query [|??]] eqn:Hp; [done| |simpl in Hlen; lia].
  split; [simpl; by rewrite Hp|]. simpl. rewrite Hp. simpl.
  set (r := searchPlaces apiKey query (uuids w)).
  destruct (handleSearch_settle_idle (outcome r) (app w)) as [-> ->].
  destruct (handleSearch_settle_form (outcome r) (app w)) as (Hloc & Hc & Hcc & Hi).
  unfold finalCategory. by rewrite Hloc, Hc, Hcc, Hi.
Qed.

End invariant.

(** ** The records and the downloads

    The second part of the invariant.  The identifiers drawn are assumed
    pairwise distinct here, and only here: it is what makes the identifiers
    of the records of one search distinct. *)

Section records.
Context `{U : UuidSource} `{!UuidFresh U}.
Context (apiKey : jsstring) (supported : bool).
Implicit Types (w : System) (s : State) (e : Event) (k : nat).

Lemma records_ok_initial : records_ok initial.
Proof. split; [apply well_formed_nil|by split]. Qed.

(** An edit of the form changes neither the records shown nor the page. *)
Lemma edits_records e w :
  edits e = true →
  data (app (handle apiKey supported e w)) = data (app w) ∧
  page (handle apiKey supported e w) = page w.
Proof.
  destruct e; try done; intros _; simpl; split; try done.
  - unfold handleCategoryChange. by case_decide.
  - unfold handleCustomBlur. by case_match.
Qed.

(** A submission shows the records that were shown or none. *)
Lemma records_ok_submit w :
  records_ok w → records_ok (handle apiKey supported Submit w).
Proof.
  intros []. simpl.
  destruct (handleSearch_submit (app w)) as [s [query|]] eqn:Hs.
  - apply handleSearch_submit_query in Hs as (_ & _ & ->).
    split; [apply well_formed_nil|done].
  - apply handleSearch_submit_none in Hs as ->. by split.
Qed.

(** The settling of a call shows the records of its reply or none. *)
Lemma records_ok_settle w k reply :
  records_ok w → records_ok (handle apiKey supported (Settle k reply) w).
Proof.
  intros []. simpl. destruct (pending w !! k) as [query|]; [|done].
  split; [|done]. simpl.
  apply (handleSearch_settle_data well_formed); [done|].
  intros result. apply searchPlaces_resolved.
Qed.

(** An export starts a download of the records shown, if there is one. *)
Lemma records_ok_export w :
  records_ok w → records_ok (handle apiKey supported ClickExport w).
Proof.
  intros [Hdata [Hbody Hstarted]]. split; [done|]. simpl.
  unfold handleExport. destruct (data (app w)) as [|p records] eqn:Hd; [done|].
  simpl.
  destruct (downloadCSV_page supported (convertToCSV (p :: records))
              (make_filename (app w)) (page w)) as [Hb Hs].
  split; [by rewrite Hb|]. rewrite Hs. apply Forall_app. split; [done|].
  destruct supported; repeat constructor; simpl.
  - apply make_filename_ok.
  - by exists (p :: records).
Qed.

(** Every transition keeps the records and the downloads well formed. *)
Lemma records_ok_step w e w' :
  records_ok w → step apiKey supported w e w' → records_ok w'.
Proof.
  intros Hok Hstep. destruct Hstep as [e w _].
  destruct (edits e) eqn:He.
  - destruct (edits_records e w He) as [Hd Hp], Hok.
    split; by rewrite ?Hd, ?Hp.
  - destruct e; try done.
    + by apply records_ok_submit.
    + by apply records_ok_settle.
    + by apply records_ok_export.
Qed.

Lemma records_ok_reachable w :
  reachable apiKey supported w → records_ok w.
Proof.
  induction 1 as [|w e w' _ IH Hstep]; [apply records_ok_initial|].
  by eapply records_ok_step.
Qed.

(** C30.  When the identifiers drawn are pairwise distinct, the records
    shown in any state of a session have pairwise distinct identifiers, six
    populated fields each and no empty URL. *)
Theorem reachable_well_formed w :
  reachable apiKey supported w → well_formed (data (app w)).
Proof. intros Hw. by destruct (records_ok_reachable w Hw). Qed.

(** C32.  The downloads of a session, when the identifiers drawn are
    pairwise distinct: the page's body is never left
    with a link in it, and every download started is the CSV text of the
    records shown at that time, at least one, after a byte-order mark,
    under the CSV type and a name of lower-case letters, digits and hyphens
    that ends in [.csv]. *)
Theorem reachable_downloads w :
  reachable apiKey supported w →
  body_children (page w) = [] ∧ Forall download_ok (started (page w)).
Proof. intros Hw. by destruct (records_ok_reachable w Hw). Qed.

End records.

(** ** The session implements the busy/idle machine *)

Section machine.
Context `{U : UuidSource}.
Context (apiKey : jsstring) (supported : bool).
Implicit Types (w : System) (s : State) (e : Event).

Lemma phase_status s s' : status s' = status s → phase s' = phase s.
Proof. unfold phase. by intros ->. Qed.

Lemma phase_idle s : loading (status s) = false → phase s ≠ Requesting.
Proof. unfold phase. intros ->. by repeat case_match. Qed.

Lemma phase_settle settled s :
  let p := phase (handleSearch_settle settled s) in p = Succeeded ∨ p = Failed.
Proof. destruct settled as [result|message]; simpl; [case_match|]; auto. Qed.

(** An edit of the form, while idle or by an event that nothing disables. *)
Lemma machine_form w s e :
  status s = status (app w) → edits e = true →
  loading (status (app w)) = false ∨ edits_while_busy e = true →
  machine (phase (app w)) e (phase s).
Proof.
  intros Hs He Hbusy. rewrite (phase_status _ _ Hs). constructor; [done|].
  destruct Hbusy as [Hidle|Hbusy]; [|done]. intros Hp.
  by apply phase_idle in Hidle.
Qed.

(** Records are shown exactly after a success. *)
Lemma reachable_phase_records w :
  reachable apiKey supported w →
  phase (app w) = Succeeded ↔ data (app w) ≠ [].
Proof.
  intros Hw. destruct (invariant_reachable apiKey supported w Hw)
    as [_ Hs _ _ _].
  unfold status_ok in Hs. unfold phase.
  destruct (loading _); [by destruct Hs as (-> & _)|].
  destruct (error _); [by destruct Hs as (_ & -> & ->)|].
  rewrite Hs. case_bool_decide; naive_solver.
Qed.

(** C26.  The session implements the busy/idle machine of the
    specification: every transition of a session is a transition of the
    machine between the phases of its two states.  A submission starts a
    request (or is ignored) only when none is pending, a pending request
    settles with success or failure, an export happens after a success
    only, and while a request is pending the form cannot be edited except
    by the Reset button and the custom category losing the focus. *)
Theorem session_refines_machine w e w' :
  reachable apiKey supported w → step apiKey supported w e w' →
  machine (phase (app w)) e (phase (app w')).
Proof.
  intros Hw Hstep. destruct Hstep as [e w Hen].
  destruct (invariant_reachable apiKey supported w Hw) as [Hf Hs _ _ _].
  destruct e; simpl in *.
  - apply machine_form; [done..|]. left. by apply negb_true_iff.
  - apply andb_true_iff in Hen as [[_ Hen%negb_true_iff]%andb_true_iff _].
    apply machine_form; [unfold handleCategoryChange; by case_decide|done|auto].
  - apply andb_true_iff in Hen as [_ Hen%negb_true_iff].
    apply machine_form; auto.
  - apply machine_form; [unfold handleCustomBlur; by case_match|done|auto].
  - apply machine_form; auto.
  - apply negb_true_iff, orb_false_iff in Hen as [Hidle _].
    unfold handleSearch_submit. destruct (_ || _); simpl.
    + by apply machine_ignored, phase_idle.
    + by apply machine_submit, phase_idle.
  - apply bool_decide_eq_true in Hen as [query Hq]. rewrite Hq. simpl.
    destruct (one_in_flight_pending w k query Hf Hq) as (_ & _ & Hl).
    unfold phase at 1. rewrite Hl. apply machine_settle, phase_settle.
  - unfold export_enabled in Hen. unfold status_ok in Hs. unfold phase.
    destruct (data (app w)) as [|p records] eqn:Hd; [done|].
    destruct (loading _); [by destruct Hs|].
    destruct (error _); [by destruct Hs as (_ & ? & _)|]. rewrite Hs. simpl.
    constructor.
Qed.

End machine.

(** ** The handlers' guards and the file name *)

Section guards.
Implicit Types (s : State).

(** A blank location or a blank category: the submission changes nothing
    and calls nothing. *)
Lemma handleSearch_submit_blank s :
  trim (location s) = [] ∨ trim (finalCategory s) = [] →
  handleSearch_submit s = (s, None).
Proof.
  unfold handleSearch_submit. intros [-> | ->]; simpl; [done|].
  by rewrite orb_true_r.
Qed.

(** The category [Coffee Shops] and the location [Baku, Azerbaijan]: the
    comma and the space after it become two hyphens. *)
Lemma make_filename_example :
  make_filename coffee_state = str "coffee-shops-baku--azerbaijan.csv".
Proof. by vm_compute. Qed.

(** C35.  The file name is derived from the category and the location
    that the form shows: one character for each of theirs and one for the
    hyphen between them, each a lower-case letter, a digit or a hyphen, and
    then [.csv]; the characters replaced are in the domain of the model of
    [toLowerCase].  For the category [Coffee Shops] and the location
    [Baku, Azerbaijan] the name is [coffee-shops-baku--azerbaijan.csv]. *)
Theorem make_filename_chars s :
  (∃ stem, make_filename s = stem ++ str ".csv" ∧
     length stem = length (finalCategory s) + 1 + length (location s) ∧
     Forall (λ c, is_lower_alnum c = true ∨ c = HYPHEN) stem ∧
     Forall (λ c, is_ascii c = true)
       (replace_non_alnum HYPHEN (finalCategory s ++ [HYPHEN] ++ location s)))
  ∧ make_filename coffee_state = str "coffee-shops-baku--azerbaijan.csv".
Proof.
  split; [|apply make_filename_example]. eexists. split_and!; [done| | |].
  - rewrite toLowerCase_length, replace_non_alnum_length, !length_app.
    simpl. lia.
  - by apply toLowerCase_replace_non_alnum.
  - by apply replace_non_alnum_ascii.
Qed.

End guards.

(** ** An export after an edit *)

Section export.
Context `{U : UuidSource}.
Context (apiKey : jsstring) (supported : bool).
Implicit Types (w : System) (e : Event).

(** C36.  The file name follows the form, not the query: an edit of the
    form (a field changed, the custom category left or reset) leaves the
    records shown as they are, and an export after it writes those records,
    found for the query of the earlier submission, under the name derived
    from the form as edited.  In a browser without support for downloads
    nothing is written. *)
Theorem export_follows_form e w :
  edits e = true → data (app w) ≠ [] →
  let w' := handle apiKey supported e w in
  data (app w') = data (app w) ∧
  started (page (handle apiKey supported ClickExport w')) =
  started (page w) ++
  (if supported
   then [mkDownload (BOM :: convertToCSV (data (app w)))
           (str "text/csv;charset=utf-8;") (make_filename (app w'))]
   else []).
Proof.
  intros He Hd w'. destruct (edits_records apiKey supported e w He) as [Hd' Hp].
  split; [done|].
  change (page (handle apiKey supported ClickExport w'))
    with (handleExport supported (app w') (page w')).
  unfold handleExport. subst w'. rewrite Hd', Hp.
  destruct (data (app w)) as [|p records]; [done|]. apply downloadCSV_page.
Qed.

End export.

(** The states of the session [reset_session], with the sample service, a
    credential and a browser that supports downloads: the state while the
    request is pending, and the last state. *)
Lemma busy_system_reachable :
  @reachable unary_source (str "key") true busy_system.
Proof.
  apply (@run_reachable unary_source (str "key") true
           (take 4 reset_session) initial); [constructor|by vm_compute].
Qed.

Lemma exported_system_reachable :
  @reachable unary_source (str "key") true exported_system.
Proof.
  apply (@run_reachable unary_source (str "key") true
           reset_session initial); [constructor|by vm_compute].
Qed.

Lemma found_system_reachable :
  @reachable unary_source (str "key") true found_system.
Proof.
  apply (@run_reachable unary_source (str "key") true
           (take 3 search_twice) initial); [constructor|by vm_compute].
Qed.

(** The machine has no phase to spare: each of the four is the phase of a
    state of a session. *)
Lemma phases_reachable p :
  ∃ w, @reachable unary_source (str "key") true w ∧ phase (app w) = p.
Proof.
  destruct p.
  - exists initial. split; [constructor|done].
  - exists busy_system. split; [apply busy_system_reachable|by vm_compute].
  - exists found_system. split; [apply found_system_reachable|by vm_compute].
  - exists (@handle unary_source (str "key") true (Settle 0 (Threw None))
              busy_system).
    split; [|by vm_compute].
    eapply reachable_step; [apply busy_system_reachable|by constructor].
Qed.

Lemma reachable_one_request_witness :
  length (pending busy_system) ≤ 1 ∧
  loading (status (app busy_system)) = bool_decide (pending busy_system ≠ []).
Proof.
  apply (@reachable_one_request unary_source
           (str "key") true), busy_system_reachable.
Defined.

Lemma reachable_status_ok_witness : status_ok (app exported_system).
Proof.
  apply (@reachable_status_ok unary_source
           (str "key") true), exported_system_reachable.
Defined.

Lemma reachable_well_formed_witness : well_formed (data (app exported_system)).
Proof.
  apply (@reachable_well_formed unary_source unary_fresh
           (str "key") true), exported_system_reachable.
Defined.

Lemma run_requests_witness :
  let asked := @queries unary_source (str "key") true search_twice initial in
  sent twice_system
  = (if truthy (str "key") then make_request <$> asked else []) ∧
  (∃ settled, asked = settled ++ pending twice_system) ∧
  Forall query_ok asked.
Proof.
  apply (@run_requests unary_source (str "key")
           true search_twice twice_system).
  by vm_compute.
Defined.

(** In that session two requests are made; the call of the first has
    settled and the second is pending. *)
Lemma search_twice_queries :
  @queries unary_source (str "key") true search_twice initial
  = [str "Coffee Shops in Baku"; str "Hotels in Baku"] ∧
  sent twice_system = [make_request (str "Coffee Shops in Baku");
                       make_request (str "Hotels in Baku")] ∧
  pending twice_system = [str "Hotels in Baku"].
Proof. split_and!; by vm_compute. Qed.

Lemma reachable_downloads_witness :
  body_children (page exported_system) = [] ∧
  Forall download_ok (started (page exported_system)).
Proof.
  apply (@reachable_downloads unary_source unary_fresh
           (str "key") true), exported_system_reachable.
Defined.

Lemma session_refines_machine_witness :
  machine (phase (app busy_system)) (Settle 0 (Threw None))
    (phase (app (@handle unary_source (str "key") true
                   (Settle 0 (Threw None)) busy_system))).
Proof.
  apply (@session_refines_machine unary_source
           (str "key") true); [apply busy_system_reachable|].
  by constructor.
Defined.

Lemma settle_leaves_idle_witness :
  enabled (Settle 0 (Threw None)) busy_system = true ∧
  let w' := @handle unary_source (str "key") true (Settle 0 (Threw None))
              busy_system in
  loading (status (app w')) = false ∧ complete (status (app w')) = true ∧
  pending w' = [] ∧ location (app w') = location (app busy_system) ∧
  finalCategory (app w') = finalCategory (app busy_system).
Proof.
  apply (@settle_leaves_idle unary_source
           (str "key") true); [apply busy_system_reachable|done].
Defined.

(** The session [reset_session]: the one request sent asks for
    [Vegan in Baku], the category is reset while the request is pending
    (nothing disables the Reset button), and the records of that request
    are then exported under the name of the first preset category. *)
Lemma reset_session_export :
  @run unary_source (str "key") true reset_session initial
  = Some exported_system ∧
  sent exported_system = [make_request (str "Vegan in Baku")] ∧
  data (app exported_system) = result_data sample_result ∧
  download_name <$> started (page exported_system)
  = [str "coffee-shops-baku.csv"].
Proof. split_and!; by vm_compute. Qed.

Lemma export_follows_form_witness :
  let w' := @handle unary_source (str "key") true
              (ChangeLocation (str "Ganja")) found_system in
  data (app w') = data (app found_system) ∧
  started (page (@handle unary_source (str "key") true
                   ClickExport w')) =
  started (page found_system) ++
  [mkDownload (BOM :: convertToCSV (data (app found_system)))
     (str "text/csv;charset=utf-8;") (make_filename (app w'))].
Proof.
  apply (@export_follows_form unary_source (str "key") true
           (ChangeLocation (str "Ganja")) found_system); [done|].
  by vm_compute.
Defined.

(** There the records found for [Coffee Shops in Baku] are written to a
    file named after Ganja. *)
Lemma found_system_export :
  sent found_system = [make_request (str "Coffee Shops in Baku")] ∧
  download_name <$>
    started (page (@handle unary_source (str "key") true
                     ClickExport
                     (@handle unary_source (str "key") true
                        (ChangeLocation (str "Ganja")) found_system)))
  = [str "coffee-shops-ganja.csv"].
Proof. split; by vm_compute. Qed.

Lemma handleSearch_submit_blank_witness :
  handleSearch_submit (setLocation (str "  ") coffee_state) =
  (setLocation (str "  ") coffee_state, None).
Proof. apply handleSearch_submit_blank. by left. Defined.
