(* ===== verification/Dom.v ===== *)
(** * Elements and documents

    What React and the browser make of the JSX that a component returns, as
    far as the view of [App] needs it: a tree of elements with their props,
    the handlers that it attaches, the events that a user can cause on it,
    and what makes it a well-formed document.

    The trees are polymorphic in the type [E] of the events that a handler
    reacts to: a handler prop carries the event of the session that names
    its handler.  [nodes] lists a tree in the order of the document, and
    [collect] gathers what each node contributes; the identifiers, the
    handlers and the text of a document are collected that way, so that
    their lemmas are the four equations of [collect]. *)

From S2P Require Import Prelude JsString Types.

(** ** Elements *)

(** The props that the JSX passes. *)
Inductive Attr (E : Type) :=
  | className (v : jsstring)
  | id_ (v : jsstring)
  | htmlFor (v : jsstring)
  | type_ (v : jsstring)
  | value (v : jsstring)
  | placeholder (v : jsstring)
  | key (v : jsstring)
  | disabled (v : bool)
  | required
  | autoFocus
  | data_ (v : list PlaceData)
  | onChange (h : jsstring → E)
  | onBlur (e : E)
  | onClick (e : E)
  | onSubmit (e : E).

Arguments className {E} v.
Arguments id_ {E} v.
Arguments htmlFor {E} v.
Arguments type_ {E} v.
Arguments value {E} v.
Arguments placeholder {E} v.
Arguments key {E} v.
Arguments disabled {E} v.
Arguments required {E}.
Arguments autoFocus {E}.
Arguments data_ {E} v.
Arguments onChange {E} h.
Arguments onBlur {E} e.
Arguments onClick {E} e.
Arguments onSubmit {E} e.

(** What a component returns: a text, an element (a component that is not
    expanded and an icon are elements whose tag is the component's name), a
    fragment (also the array that [map] returns), or what a condition that
    fails or [null] leaves among the children. *)
Unset Elimination Schemes.
Inductive Node (E : Type) :=
  | Text (s : jsstring)
  | Element (tag : string) (attrs : list (Attr E)) (children : list (Node E))
  | Fragment (children : list (Node E))
  | Nothing.
Set Elimination Schemes.

Arguments Text {E} s.
Arguments Element {E} tag attrs children.
Arguments Fragment {E} children.
Arguments Nothing {E}.

(** A handler that a document attaches and that can run: on a change, with
    the values that can be chosen when the field is a select; when the
    focus leaves; on a click; on the submission of the form. *)
Inductive Listener (E : Type) :=
  | Change (h : jsstring → E) (choices : option (list jsstring))
  | Blur (e : E)
  | Click (e : E)
  | SubmitForm (e : E).

Arguments Change {E} h choices.
Arguments Blur {E} e.
Arguments Click {E} e.
Arguments SubmitForm {E} e.

(** Induction on a tree, with the property of all the children at hand. *)
Section Node_ind.
Context {E : Type} (P : Node E → Prop).
Context (HText : ∀ s, P (Text s)).
Context (HElement : ∀ tag attrs children,
           Forall P children → P (Element tag attrs children)).
Context (HFragment : ∀ children, Forall P children → P (Fragment children)).
Context (HNothing : P Nothing).

Fixpoint Node_ind (n : Node E) : P n :=
  let all := fix all (l : list (Node E)) : Forall P l :=
    match l with
    | [] => List.Forall_nil P
    | m :: l' => List.Forall_cons P m l' (Node_ind m) (all l')
    end in
  match n with
  | Text s => HText s
  | Element tag attrs children => HElement tag attrs children (all children)
  | Fragment children => HFragment children (all children)
  | Nothing => HNothing
  end.

End Node_ind.

Section dom.
Context {E : Type}.
Implicit Types (a : Attr E) (attrs : list (Attr E)).
Implicit Types (n m : Node E) (children : list (Node E)).

(** ** Reading a tree *)

Definition attr_id a : option jsstring :=
  match a with id_ v => Some v | _ => None end.
Definition attr_htmlFor a : option jsstring :=
  match a with htmlFor v => Some v | _ => None end.
Definition attr_type a : option jsstring :=
  match a with type_ v => Some v | _ => None end.
Definition attr_value a : option jsstring :=
  match a with value v => Some v | _ => None end.
Definition attr_key a : option jsstring :=
  match a with key v => Some v | _ => None end.
Definition attr_disabled a : option bool :=
  match a with disabled v => Some v | _ => None end.
Definition attr_onChange a : option (jsstring → E) :=
  match a with onChange h => Some h | _ => None end.

(** The value of an attribute of an element, if it has it. *)
Definition get {A} (f : Attr E → option A) attrs : option A :=
  head (omap f attrs).

Definition is_disabled attrs : bool :=
  default false (get attr_disabled attrs).

(** The attributes of a node: those of the element, if it is one. *)
Definition attributes n : list (Attr E) :=
  match n with Element _ attrs _ => attrs | _ => [] end.

Definition has_tag (tag : string) n : bool :=
  match n with Element tag' _ _ => String.eqb tag' tag | _ => false end.

(** A node and all the nodes below it, in the order of the document. *)
Fixpoint nodes n : list (Node E) :=
  n :: match n with
       | Element _ _ children | Fragment children => children ≫= nodes
       | _ => []
       end.

(** The nodes that a child stands for in its parent: a fragment stands
    for its children, a condition that fails for nothing. *)
Fixpoint flatten n : list (Node E) :=
  match n with
  | Fragment children => children ≫= flatten
  | Nothing => []
  | _ => [n]
  end.

(** [textContent]. *)
Fixpoint textContent n : jsstring :=
  match n with
  | Text s => s
  | Element _ _ children | Fragment children => children ≫= textContent
  | Nothing => []
  end.

(** What the nodes of a tree contribute, in the order of the document. *)
Definition collect {A} (f : Node E → list A) n : list A := nodes n ≫= f.

(** The identifiers of the document, and the identifiers that its labels
    refer to. *)
Definition ids n : list jsstring :=
  collect (λ m, option_list (get attr_id (attributes m))) n.

Definition label_targets n : list jsstring :=
  collect (λ m, if has_tag "label" m
                then option_list (get attr_htmlFor (attributes m)) else []) n.

(** The keys of the children of a node. *)
Definition keys children : list jsstring :=
  omap (λ m, get attr_key (attributes m)) children.

(** The values of the options of a select. *)
Definition option_values children : list jsstring :=
  omap (λ m, get attr_value (attributes m))
    (filter (λ m, has_tag "option" m = true) (children ≫= flatten)).

(** ** The events that a document offers *)

(** A button that submits its form: its type is [submit], which is also
    the type of a button that has none, and it is not disabled. *)
Definition submits n : bool :=
  has_tag "button" n
  && bool_decide ((get attr_type (attributes n) ||| str "submit") = str "submit")
  && negb (is_disabled (attributes n)).

(** The handlers of one element that can run.  A disabled field or button
    takes no change and no click; a form is submitted through a button that
    submits it (by a click, or by the Enter key in one of its fields); the
    focus is taken to leave a field whether it is disabled or not. *)
Definition element_listeners (tag : string) attrs children
    : list (Listener E) :=
  let choices :=
    if String.eqb tag "select" then Some (option_values children) else None in
  omap (λ a, match a with
             | onChange h =>
                 if is_disabled attrs then None else Some (Change h choices)
             | onClick e => if is_disabled attrs then None else Some (Click e)
             | onBlur e => Some (Blur e)
             | onSubmit e =>
                 if existsb submits (children ≫= nodes) then Some (SubmitForm e)
                 else None
             | _ => None
             end) attrs.

Definition node_listeners n : list (Listener E) :=
  match n with
  | Element tag attrs children => element_listeners tag attrs children
  | _ => []
  end.

Definition listeners n : list (Listener E) := collect node_listeners n.

(** The events that a handler reacts to. *)
Definition emits (l : Listener E) (e : E) : Prop :=
  match l with
  | Change h None => ∃ v, e = h v
  | Change h (Some choices) => ∃ v, v ∈ choices ∧ e = h v
  | Blur e' | Click e' | SubmitForm e' => e = e'
  end.

(** The events that a user can cause on a document. *)
Definition offers n (e : E) : Prop := ∃ l, l ∈ listeners n ∧ emits l e.

(** ** Well-formed documents *)

(** What holds of an element on its own: the keys of its children are
    pairwise distinct; a field that is given a value has a handler for its
    changes; an input has no child; the children of a select are
    options. *)
Definition element_ok (tag : string) attrs children : bool :=
  bool_decide (NoDup (keys (children ≫= flatten)))
  && implb (bool_decide (is_Some (get attr_value attrs)))
       (bool_decide (is_Some (get attr_onChange attrs))
        || String.eqb tag "option")
  && implb (String.eqb tag "input") (bool_decide (length children = 0))
  && implb (String.eqb tag "select")
       (forallb (has_tag "option") (children ≫= flatten)).

Definition node_ok n : bool :=
  match n with
  | Element tag attrs children => element_ok tag attrs children
  | _ => true
  end.

(** A tree whose elements are all well formed. *)
Fixpoint wf n : bool :=
  match n with
  | Element tag attrs children =>
      element_ok tag attrs children && forallb wf children
  | Fragment children => forallb wf children
  | _ => true
  end.

(** The selects of a document that are given a value: the value, and the
    values of the options. *)
Definition selected n : list (jsstring * list jsstring) :=
  collect (λ m, match m with
                | Element tag attrs children =>
                    if String.eqb tag "select" then
                      option_list
                        ((λ v, (v, option_values children))
                           <$> get attr_value attrs)
                    else []
                | _ => []
                end) n.

(** A document: a well-formed tree in which no identifier occurs twice and
    the value of each select is the value of one of its options. *)
Definition document n : Prop :=
  wf n = true ∧ NoDup (ids n) ∧ Forall (λ p, p.1 ∈ p.2) (selected n).

End dom.

(** ** Lemmas on lists *)

Lemma bind_nil {A B} (f : A → list B) : [] ≫= f = [].
Proof. done. Qed.

Lemma Exists_guard {A} (P : A → Prop) (b : bool) (l : list A) :
  Exists P (if b then l else []) ↔ b = true ∧ Exists P l.
Proof. destruct b; rewrite ?Exists_nil; intuition discriminate. Qed.

(** ** What a tree contributes *)

Section collect.
Context {E A : Type} (f : Node E → list A).
Implicit Types (n : Node E) (children : list (Node E)).

Lemma bind_nodes children : (children ≫= nodes) ≫= f = children ≫= collect f.
Proof.
  induction children as [|m children IH]; [done|].
  rewrite !bind_cons, bind_app. by f_equal.
Qed.

Lemma collect_Element tag attrs children :
  collect f (Element tag attrs children) =
  f (Element tag attrs children) ++ (children ≫= collect f).
Proof.
  unfold collect at 1.
  change (nodes (Element tag attrs children))
    with (Element tag attrs children :: children ≫= nodes).
  by rewrite bind_cons, bind_nodes.
Qed.

Lemma collect_Fragment children :
  collect f (Fragment children) =
  f (Fragment children) ++ (children ≫= collect f).
Proof.
  unfold collect at 1.
  change (nodes (Fragment children))
    with (Fragment children :: children ≫= nodes).
  by rewrite bind_cons, bind_nodes.
Qed.

Lemma collect_Text s : collect f (Text s) = f (Text s).
Proof. unfold collect. simpl. apply app_nil_r. Qed.

Lemma collect_Nothing : collect f Nothing = f Nothing.
Proof. unfold collect. simpl. apply app_nil_r. Qed.

End collect.

Create Rewrite HintDb view.
#[export] Hint Rewrite @bind_cons @bind_nil @collect_Element @collect_Fragment
  @collect_Text @collect_Nothing : view.

(** Distribute a collection over the tree, then compute what each node
    contributes. *)
Ltac view_simpl := autorewrite with view; cbn.

(** Compute the text of a tree, as a concatenation of its texts. *)
Ltac text_simpl :=
  repeat (progress (cbn [textContent]; autorewrite with view));
  rewrite ?app_nil_r, <- ?app_assoc.

(** Split a hypothesis into its cases and its parts. *)
Ltac cases H :=
  repeat match type of H with
         | _ ∨ _ => destruct H as [H|H]
         | _ ∧ _ => destruct H as [? H]
         | ex _ => destruct H as [? H]
         end;
  repeat match goal with H' : _ ∧ _ |- _ => destruct H' end.

(** Prove the disjunct that holds. *)
Ltac pick := first [solve [split_and?; eauto] | left; pick | right; pick].

Section trees.
Context {E : Type}.
Implicit Types (n : Node E) (e : E).

(** A tree is well formed exactly when each of its nodes is. *)
Lemma wf_nodes n : wf n = forallb node_ok (nodes n).
Proof.
  induction n as [s|tag attrs children IH|children IH|] using Node_ind;
    try done; simpl; [f_equal|];
    (induction IH as [|m children Hm _ IH]; [done|]);
    simpl; rewrite forallb_app; by f_equal.
Qed.

(** The text of a tree is the text of its text nodes, in order. *)
Lemma textContent_collect n :
  textContent n = collect (λ m, match m with Text s => s | _ => [] end) n.
Proof.
  induction n as [s|tag attrs children IH|children IH|] using Node_ind;
    autorewrite with view; simpl; try done;
    (induction IH as [|m children Hm _ IH]; [done|]);
    rewrite !bind_cons; by f_equal.
Qed.

(** An event is offered when a handler that can run reacts to it. *)
Lemma offers_Exists n e : offers n e ↔ Exists (λ l, emits l e) (listeners n).
Proof. unfold offers. by rewrite Exists_exists. Qed.

(** A tree without handler offers nothing. *)
Lemma offers_no_listener n e : listeners n = [] → ¬ offers n e.
Proof. intros Hn. rewrite offers_Exists, Hn, Exists_nil. tauto. Qed.

End trees.
