(* ===== verification/View.v ===== *)
(** * The view: what the component renders

    Models the JSX that [App] returns ([src/App.tsx], lines 79 to 239) and
    the [Header] component ([src/components/Header.tsx]) as a function from
    the component's state to a tree of elements of [Dom].

    A handler prop carries the [Event] of the session that the handler of
    the code reacts to.  [App_view] is the tree for a state; it is composed
    of one definition for each part of the page, as the JSX is nested.

    The theorems show that the tree is a well-formed document in every
    state of a session, and that the events it offers are the events that
    the session of [App] takes for enabled: the transition relation [step]
    is the one of the page as it is rendered. *)

From stdpp Require Import pretty.
From S2P Require Import Prelude JsString Types Extern Csv Gemini App Dom.

(** The trees of this file: their handlers carry events of the session. *)
Abbreviation Node := (Dom.Node Event).
Abbreviation Listener := (Dom.Listener Event).

(** ** The header *)

Definition Header_view : Node :=
  Element "header"
    [className (str "bg-white border-b border-slate-200 sticky top-0 z-10")]
    [Element "div"
       [className (str "max-w-7xl mx-auto px-4 sm:px-6 lg:px-8 h-16 flex items-center justify-between")]
       [Element "div" [className (str "flex items-center space-x-3")]
          [Element "div" [className (str "bg-blue-600 p-2 rounded-lg")]
             [Element "MapPin" [className (str "h-6 w-6 text-white")] []];
           Element "div" []
             [Element "h1"
                [className (str "text-xl font-bold text-slate-900 tracking-tight")]
                [Text (str "Maps Data Extractor")];
              Element "p"
                [className (str "text-xs text-slate-500 font-medium")]
                [Text (str "Targeted Business Lead Generation")]]];
        Element "div"
          [className (str "hidden md:flex items-center space-x-2 text-sm font-medium text-slate-600 bg-slate-100 px-3 py-1.5 rounded-full")]
          [Element "Database" [className (str "w-4 h-4")] [];
           Element "span" [] [Text (str "Ready to Export")]]]].

(** ** The search form *)

Section view.
Context (s : State).

(** The location and its label. *)
Definition location_field : Node :=
  Element "div" [className (str "space-y-2")]
    [Element "label"
       [htmlFor (str "location");
        className (str "block text-sm font-medium text-slate-700")]
       [Text (str "Target Location (City, Country)")];
     Element "div" [className (str "relative")]
       [Element "div"
          [className (str "absolute inset-y-0 left-0 pl-3 flex items-center pointer-events-none")]
          [Element "MapPin" [className (str "h-5 w-5 text-slate-400")] []];
        Element "input"
          [id_ (str "location");
           type_ (str "text");
           value (location s);
           onChange ChangeLocation;
           placeholder (str "e.g. Baku, Azerbaijan");
           className (str "block w-full pl-10 pr-4 py-3 border border-slate-300 rounded-lg focus:ring-2 focus:ring-blue-500 focus:border-blue-500 transition-shadow outline-none placeholder-slate-400");
           disabled (loading (status s));
           required]
          []]].

(** The select of the preset categories, with its last option. *)
Definition category_select : Node :=
  Element "select"
    [id_ (str "category");
     value (category s);
     onChange ChangeCategory;
     className (str "block w-full pl-10 pr-4 py-3 border border-slate-300 rounded-lg focus:ring-2 focus:ring-blue-500 focus:border-blue-500 transition-shadow outline-none bg-white appearance-none");
     disabled (loading (status s))]
    [Fragment
       ((λ cat, Element "option" [key cat; value cat] [Text cat])
          <$> PRESET_CATEGORIES);
     Element "option" [value (str "custom")]
       [Text (str "Other (Type custom...)")]].

(** The input of the custom category. *)
Definition category_input : Node :=
  Element "input"
    [type_ (str "text");
     value (customCategory s);
     onChange ChangeCustomCategory;
     placeholder (str "e.g. Vegan Restaurants");
     className (str "block w-full pl-10 pr-4 py-3 border border-slate-300 rounded-lg focus:ring-2 focus:ring-blue-500 focus:border-blue-500 transition-shadow outline-none placeholder-slate-400");
     disabled (loading (status s));
     autoFocus;
     onBlur BlurCustomCategory]
    [].

(** The Reset button, rendered while the custom category is edited. *)
Definition reset_button : Node :=
  if isCustomCategory s then
    Element "button"
      [type_ (str "button");
       onClick ClickReset;
       className (str "px-3 py-2 text-sm text-blue-600 font-medium hover:bg-blue-50 rounded-lg")]
      [Text (str "Reset")]
  else Nothing.

(** The category and its label: the select or the custom input, and the
    Reset button. *)
Definition category_field : Node :=
  Element "div" [className (str "space-y-2")]
    [Element "label"
       [htmlFor (str "category");
        className (str "block text-sm font-medium text-slate-700")]
       [Text (str "Business Category")];
     Element "div" [className (str "flex space-x-2")]
       [Element "div" [className (str "relative flex-grow")]
          [Element "div"
             [className (str "absolute inset-y-0 left-0 pl-3 flex items-center pointer-events-none")]
             [Element "Layers" [className (str "h-5 w-5 text-slate-400")] []];
           if negb (isCustomCategory s) then category_select
           else category_input];
        reset_button]].

(** The submit button; while a request is pending it names the search. *)
Definition submit_button : Node :=
  Element "div" [className (str "pt-2")]
    [Element "button"
       [type_ (str "submit");
        disabled (loading (status s) || negb (truthy (trim (location s))));
        className
          (str "w-full md:w-auto flex items-center justify-center px-8 py-3 border border-transparent text-base font-medium rounded-lg text-white transition-all"
           ++ [LF] ++ replicate 20 SPACE
           ++ (if loading (status s) || negb (truthy (trim (location s)))
               then str "bg-blue-400 cursor-not-allowed"
               else str "bg-blue-600 hover:bg-blue-700 shadow-md hover:shadow-lg")
           ++ [LF] ++ replicate 18 SPACE)]
       [if loading (status s) then
          Fragment
            [Element "Loader2"
               [className (str "animate-spin -ml-1 mr-2 h-5 w-5")] [];
             Text (str "Extracting ");
             Text (if isCustomCategory s then customCategory s else category s);
             Text (str " in ");
             Text (location s);
             Text (str "...")]
        else
          Fragment
            [Element "RefreshCw" [className (str "mr-2 h-5 w-5")] [];
             Text (str "Start Extraction")]]].

Definition search_form : Node :=
  Element "form" [onSubmit Submit; className (str "space-y-4")]
    [Element "div" [className (str "grid grid-cols-1 md:grid-cols-2 gap-4")]
       [location_field; category_field];
     submit_button].

Definition search_section : Node :=
  Element "section" [className (str "mb-8")]
    [Element "div"
       [className (str "bg-white p-6 rounded-2xl shadow-sm border border-slate-200")]
       [Element "h2" [className (str "text-lg font-semibold mb-4 text-slate-800")]
          [Text (str "Extraction Settings")];
        search_form;
        Element "p"
          [className (str "mt-4 text-sm text-slate-500 border-t border-slate-100 pt-3")]
          [Text (str "Select a category and location to generate a targeted list of businesses with addresses, ratings, and contact info.")]]].

(** ** The status message and the results *)

(** The banner with the error's message; [status.error && ...] leaves the
    error itself among the children when it is [null] or empty. *)
Definition error_banner : Node :=
  match error (status s) with
  | None => Nothing
  | Some message =>
      if truthy message then
        Element "div"
          [className (str "mb-8 p-4 bg-red-50 border border-red-200 rounded-lg flex items-start")]
          [Element "AlertCircle"
             [className (str "h-5 w-5 text-red-500 mt-0.5 mr-3 flex-shrink-0")] [];
           Element "div" []
             [Element "h3" [className (str "text-sm font-medium text-red-800")]
                [Text (str "Extraction Failed")];
              Element "p" [className (str "mt-1 text-sm text-red-700")]
                [Text message]]]
      else Text message
  end.

(** The title above the table: the number of records, in decimal. *)
Definition results_title : jsstring :=
  if 0 <? length (data s)
  then str "Found " ++ str (pretty (length (data s))) ++ str " Results"
  else str "Extracted Data".

Definition export_button : Node :=
  Element "button"
    [onClick ClickExport;
     disabled (length (data s) =? 0);
     className
       (str "flex items-center px-4 py-2 border border-slate-300 rounded-lg text-sm font-medium transition-colors"
        ++ [LF] ++ replicate 16 SPACE
        ++ (if length (data s) =? 0
            then str "bg-slate-100 text-slate-400 cursor-not-allowed"
            else str "bg-green-600 text-white hover:bg-green-700 shadow-sm border-transparent")
        ++ [LF] ++ replicate 14 SPACE)]
    [Element "FileSpreadsheet" [className (str "mr-2 h-4 w-4")] [];
     Text (str "Export to Excel")].

Definition results_section : Node :=
  Element "section" [className (str "flex flex-col h-full")]
    [Element "div" [className (str "flex justify-between items-center mb-4")]
       [Element "h2" [className (str "text-xl font-bold text-slate-800")]
          [Text results_title];
        export_button];
     Element "div" [className (str "flex-grow")]
       [Element "ResultsTable" [data_ (data s)] []]].

(** ** The page *)

Definition App_view : Node :=
  Element "div"
    [className (str "min-h-screen bg-slate-50 flex flex-col font-sans text-slate-900")]
    [Header_view;
     Element "main"
       [className (str "flex-grow max-w-7xl w-full mx-auto px-4 sm:px-6 lg:px-8 py-8")]
       [search_section; error_banner; results_section]].

End view.

(** The handlers that can run in a state, from the conditions of the view
    that the session of [App] names: what [listeners] is to find on the
    rendered page. *)
Definition live_listeners (s : State) : list Listener :=
  (if submit_enabled s then [SubmitForm Submit] else [])
  ++ (if location_enabled s then [Change ChangeLocation None] else [])
  ++ (if isCustomCategory s then
        (if custom_enabled s then [Change ChangeCustomCategory None] else [])
        ++ [Blur BlurCustomCategory; Click ClickReset]
      else if select_enabled s
           then [Change ChangeCategory (Some select_options)] else [])
  ++ (if export_enabled s then [Click ClickExport] else []).

(** The events of a session that the page offers in a state: those that a
    user can cause on the rendered document, and the settling of a call
    that is pending. *)
Definition view_enabled (e : Event) (w : System) : Prop :=
  match e with
  | Settle k _ => is_Some (pending w !! k)
  | _ => offers (App_view (app w)) e
  end.

(** ** Values for evaluation *)

(** The state while the custom category is edited. *)
Definition custom_state : State :=
  handleCategoryChange CUSTOM (setLocation (str "Baku") initial_state).

(** A session in which the service fails, and its last state. *)
Definition failed_session : list Event :=
  [ChangeLocation (str "Baku"); Submit; Settle 0 (Threw None)].

Definition failed_system : System :=
  default initial
    (@run unary_source (str "key") true failed_session initial).

(** The state of the session [reset_session] after the category is reset,
    while the request is pending. *)
Definition reset_system : System :=
  default initial
    (@run unary_source (str "key") true (take 5 reset_session)
       initial).

#[local] Arguments str : simpl never.

(** Prove a fact of the page by computation, in each of the cases that the
    JSX distinguishes. *)
Ltac by_rendering s :=
  unfold App_view, search_section, search_form, location_field, category_field,
    category_select, category_input, reset_button, submit_button, error_banner,
    results_section, export_button, select_shown;
  destruct (isCustomCategory s), (loading (status s)),
    (error (status s)) as [message|]; try destruct (truthy message);
  by vm_compute.

(** Compute the text of a tree, as a concatenation of its texts. *)
(** ** The handlers that the page attaches *)

Section listeners.
Context (s : State).

Lemma listeners_Header : listeners Header_view = [].
Proof. done. Qed.

Lemma listeners_location_field :
  listeners (location_field s) =
  if location_enabled s then [Change ChangeLocation None] else [].
Proof.
  unfold listeners, location_field, location_enabled. view_simpl.
  by destruct (loading (status s)).
Qed.

(** The values of the select's options: the preset categories and
    [custom]. *)
Lemma option_values_select :
  option_values (E := Event)
    [Fragment
       ((λ cat, Element "option" [key cat; value cat] [Text cat])
          <$> PRESET_CATEGORIES);
     Element "option" [value (str "custom")]
       [Text (str "Other (Type custom...)")]] = select_options.
Proof. done. Qed.

Lemma listeners_category_select :
  listeners (category_select s) =
  if select_enabled s then [Change ChangeCategory (Some select_options)]
  else [].
Proof.
  unfold listeners, category_select, select_enabled. rewrite collect_Element.
  cbn [node_listeners element_listeners omap list_omap String.eqb Ascii.eqb
         Bool.eqb is_disabled get head default attr_disabled].
  rewrite option_values_select. by destruct (loading (status s)).
Qed.

Lemma listeners_category_input :
  listeners (category_input s) =
  (if custom_enabled s then [Change ChangeCustomCategory None] else [])
  ++ [Blur BlurCustomCategory].
Proof.
  unfold listeners, category_input, custom_enabled. view_simpl.
  by destruct (loading (status s)).
Qed.

Lemma listeners_reset_button :
  listeners (reset_button s) = if reset_shown s then [Click ClickReset] else [].
Proof.
  unfold listeners, reset_button, reset_shown. by destruct (isCustomCategory s).
Qed.

Lemma listeners_category_field :
  listeners (category_field s) =
  (if select_shown s then listeners (category_select s)
   else listeners (category_input s))
  ++ listeners (reset_button s).
Proof.
  unfold listeners, category_field, select_shown. autorewrite with view.
  cbn [node_listeners element_listeners omap list_omap].
  destruct (negb _); simpl; by rewrite !app_nil_r.
Qed.

Lemma listeners_submit_button : listeners (submit_button s) = [].
Proof.
  unfold listeners, submit_button. destruct (loading (status s)); by view_simpl.
Qed.

(** The form has a button that submits it and is not disabled exactly when
    the submit button is enabled: the Reset button does not submit. *)
Lemma submits_search_form :
  existsb submits
    ([Element "div" [className (str "grid grid-cols-1 md:grid-cols-2 gap-4")]
        [location_field s; category_field s];
      submit_button s] ≫= nodes) = submit_enabled s.
Proof.
  unfold submit_enabled, location_field, category_field, reset_button,
    category_select, category_input, submit_button.
  destruct (isCustomCategory s), (loading (status s)); cbn; try done;
    by destruct (truthy _).
Qed.

Lemma listeners_search_section :
  listeners (search_section s) =
  (if submit_enabled s then [SubmitForm Submit] else [])
  ++ (if location_enabled s then [Change ChangeLocation None] else [])
  ++ (if isCustomCategory s then
        (if custom_enabled s then [Change ChangeCustomCategory None] else [])
        ++ [Blur BlurCustomCategory; Click ClickReset]
      else if select_enabled s
           then [Change ChangeCategory (Some select_options)] else []).
Proof.
  unfold listeners, search_section, search_form. autorewrite with view.
  cbn [node_listeners element_listeners omap list_omap].
  rewrite submits_search_form.
  fold (listeners (location_field s)) (listeners (category_field s))
    (listeners (submit_button s)).
  rewrite listeners_location_field, listeners_category_field,
    listeners_submit_button, listeners_category_select,
    listeners_category_input, listeners_reset_button.
  unfold select_shown, reset_shown.
  destruct (submit_enabled s), (isCustomCategory s); simpl;
    by rewrite ?app_nil_r, <- ?app_assoc.
Qed.

Lemma listeners_error_banner : listeners (error_banner s) = [].
Proof.
  unfold listeners, error_banner.
  destruct (error (status s)) as [message|]; [|done].
  by destruct (truthy message).
Qed.

Lemma listeners_results_section :
  listeners (results_section s) =
  if export_enabled s then [Click ClickExport] else [].
Proof.
  unfold listeners, results_section, export_button, export_enabled.
  view_simpl. by destruct (length (data s) =? 0).
Qed.

(** The handlers that can run on the page are those that the conditions of
    the view name. *)
Lemma listeners_App_view : listeners (App_view s) = live_listeners s.
Proof.
  unfold listeners, App_view. autorewrite with view.
  cbn [node_listeners element_listeners omap list_omap].
  fold (listeners Header_view) (listeners (search_section s))
    (listeners (error_banner s)) (listeners (results_section s)).
  rewrite listeners_Header, listeners_search_section, listeners_error_banner,
    listeners_results_section.
  unfold live_listeners. simpl. by rewrite !app_nil_r, <- !app_assoc.
Qed.

End listeners.

(** The events that the page offers, one case for each handler. *)
Lemma offers_App_view s e :
  offers (App_view s) e ↔
  (submit_enabled s = true ∧ e = Submit)
  ∨ (location_enabled s = true ∧ ∃ v, e = ChangeLocation v)
  ∨ (select_shown s = true ∧ select_enabled s = true ∧
     ∃ v, v ∈ select_options ∧ e = ChangeCategory v)
  ∨ (custom_shown s = true ∧ custom_enabled s = true ∧
     ∃ v, e = ChangeCustomCategory v)
  ∨ (custom_shown s = true ∧ e = BlurCustomCategory)
  ∨ (reset_shown s = true ∧ e = ClickReset)
  ∨ (export_enabled s = true ∧ e = ClickExport).
Proof.
  unfold offers. rewrite listeners_App_view, <- Exists_exists.
  unfold live_listeners, select_shown, custom_shown, reset_shown.
  destruct (isCustomCategory s);
    rewrite !Exists_app, !Exists_guard, !Exists_cons, !Exists_nil; simpl;
    intuition discriminate.
Qed.

Lemma view_enabled_enabled e w : view_enabled e w ↔ enabled e w = true.
Proof.
  destruct e; simpl; try (by rewrite bool_decide_eq_true);
    rewrite offers_App_view, ?andb_true_iff, ?bool_decide_eq_true.
  all: split; intros H; [cases H; simplify_eq; by split_and?|cases H; pick].
Qed.

(** ** The page as a document *)

Section document.
Context (s : State).

Lemma wf_App_view : wf (App_view s) = true.
Proof. by_rendering s. Qed.

Lemma ids_App_view :
  ids (App_view s) =
  str "location" :: if select_shown s then [str "category"] else [].
Proof. by_rendering s. Qed.

Lemma label_targets_App_view :
  label_targets (App_view s) = [str "location"; str "category"].
Proof. by_rendering s. Qed.

Lemma selected_App_view :
  selected (App_view s) =
  if select_shown s then [(category s, select_options)] else [].
Proof. by_rendering s. Qed.

(** The page of a state whose category is a preset one, or that edits a
    custom one, is a document. *)
Lemma App_view_document : category_ok s → document (App_view s).
Proof.
  intros Hc. split_and!; [apply wf_App_view| |].
  - rewrite ids_App_view. destruct (select_shown s); compute_done.
  - rewrite selected_App_view. unfold category_ok, select_shown in *.
    destruct (isCustomCategory s); constructor; [|constructor]. simpl.
    apply elem_of_app. by left.
Qed.

(** C25.  The labels and their fields: the page has two labels, for
    [location] and for [category]; the field that each refers to is in the
    document exactly when the select is rendered.  While a custom category
    is edited the label of the category refers to no element: the input
    that replaces the select has no identifier. *)
Theorem labels_resolve :
  label_targets (App_view s) ⊆ ids (App_view s) ↔ isCustomCategory s = false.
Proof.
  rewrite label_targets_App_view, ids_App_view. unfold select_shown.
  destruct (isCustomCategory s); simpl; split; try done.
  intros H. specialize (H (str "category")).
  rewrite !elem_of_cons, !elem_of_nil in H.
  destruct H as [H|H]; [by right; left|by vm_compute in H|done].
Qed.

(** ** The texts of the page *)

(** The submit button names the search while a request is pending: the
    category and the location that the form shows at that time. *)
Lemma textContent_submit_button :
  textContent (submit_button s) =
  if loading (status s) then str "Extracting " ++ fullQuery s ++ str "..."
  else str "Start Extraction".
Proof.
  unfold submit_button, fullQuery, finalCategory.
  destruct (loading (status s)); text_simpl; [|done].
  by destruct (isCustomCategory s).
Qed.

Lemma textContent_error_banner message :
  error (status s) = Some message → message ≠ [] →
  textContent (error_banner s) = str "Extraction Failed" ++ message.
Proof.
  intros He Hm%truthy_nonempty. unfold error_banner. rewrite He, Hm.
  by text_simpl.
Qed.

End document.

(** A search that finds nothing is shown as a failure: the message is
    stored in the error of the status, the phase is [Failed], and the banner
    reads [Extraction Failed] before the message. *)
Lemma no_data_banner s result :
  result_data result = [] →
  let s' := handleSearch_settle (Resolved result) s in
  phase s' = Failed ∧
  textContent (error_banner s') = str "Extraction Failed" ++ NO_DATA.
Proof.
  intros Hd. unfold handleSearch_settle. rewrite Hd. split; [done|].
  by apply textContent_error_banner.
Qed.

(** The title of the results counts the records: two states have the same
    title exactly when they show as many records; with no record the title
    is [Extracted Data], otherwise the number is written in decimal between
    [Found] and [Results]. *)
Lemma results_title_count s s' :
  results_title s = results_title s' ↔ length (data s) = length (data s').
Proof.
  unfold results_title. split; [|by intros ->].
  destruct (Nat.ltb_spec 0 (length (data s))),
    (Nat.ltb_spec 0 (length (data s'))); intros Heq;
    [|by vm_compute in Heq..|lia].
  by apply app_inv_head, app_inv_tail, (inj str), (inj pretty) in Heq.
Qed.

(** The title for the three records of the sample response. *)
Lemma results_title_example :
  results_title (setData (result_data sample_result) initial_state)
  = str "Found 3 Results".
Proof. by vm_compute. Qed.

(** ** The page in a session *)

Section session.
Context `{U : UuidSource}.
Context (apiKey : jsstring) (supported : bool).
Implicit Types (w : System) (e : Event).

(** C23.  The session of [App] is the session of the page: a transition
    is an event that a user can cause on the rendered document (a change of
    a field that is rendered and not disabled, to one of the options when
    it is the select; the loss of the focus; a click on a button that is not
    disabled; a submission through a submit button that is not disabled) or
    the settling of a pending call, handled by its handler. *)
Theorem step_view w e w' :
  step apiKey supported w e w' ↔
  view_enabled e w ∧ w' = handle apiKey supported e w.
Proof.
  split.
  - intros [e' w0 Hen]. split; [by apply view_enabled_enabled|done].
  - intros [Hen%view_enabled_enabled ->]. by constructor.
Qed.

(** C19.  The page is a document in every state of a session: each of
    its elements is well formed (distinct keys among siblings, a handler
    for the changes of each field that is given a value, no child in an
    input, options only in the select), no identifier occurs twice, and the
    value of the select is the value of one of its options. *)
Theorem reachable_document w :
  reachable apiKey supported w → document (App_view (app w)).
Proof.
  intros Hw. apply App_view_document.
  by destruct (invariant_reachable apiKey supported w Hw).
Qed.

(** The submission of a form whose location is not blank: nothing happens
    when the category is blank; otherwise the records are discarded, the
    form is busy, its query is pending and the request for it is made. *)
Lemma handle_Submit w :
  trim (location (app w)) ≠ [] →
  let w' := handle apiKey supported Submit w in
  if decide (trim (finalCategory (app w)) = []) then w' = w
  else pending w' = pending w ++ [fullQuery (app w)] ∧
       loading (status (app w')) = true ∧ data (app w') = [] ∧
       sent w' = sent w ++ searchPlaces_request apiKey (fullQuery (app w)).
Proof.
  intros Hl%truthy_nonempty. simpl. unfold handleSearch_submit. rewrite Hl.
  case_decide as Hc.
  - rewrite Hc. simpl. rewrite !app_nil_r. by destruct w.
  - apply truthy_nonempty in Hc. rewrite Hc. simpl. by rewrite app_nil_r.
Qed.

(** C24.  From idle to requesting, once: in a state of a session where
    the page offers the submission of the form no call is pending and the
    location is not blank; the submission does nothing when a blank custom
    category is edited, and otherwise leaves the form busy, without
    records, with the query of the form as the one pending call, and makes
    the request for that query, unless the credential is missing. *)
Theorem offers_submit_idle w :
  reachable apiKey supported w → offers (App_view (app w)) Submit →
  pending w = [] ∧ trim (location (app w)) ≠ [] ∧
  let w' := handle apiKey supported Submit w in
  if decide (trim (finalCategory (app w)) = []) then w' = w
  else pending w' = [fullQuery (app w)] ∧
       loading (status (app w')) = true ∧ data (app w') = [] ∧
       sent w' = sent w ++ searchPlaces_request apiKey (fullQuery (app w)).
Proof.
  intros Hw Hen. change (view_enabled Submit w) in Hen.
  apply view_enabled_enabled in Hen. simpl in Hen. unfold submit_enabled in Hen.
  apply negb_true_iff, orb_false_iff in Hen as [Hidle Hl].
  apply negb_false_iff, truthy_nonempty in Hl.
  destruct (invariant_reachable apiKey supported w Hw) as [Hflight _ _ _ _].
  pose proof (one_in_flight_idle w Hflight Hidle) as Hnone.
  pose proof (handle_Submit w Hl) as Hsubmit.
  rewrite Hnone in Hsubmit. by split_and!.
Qed.

(** C34.  The error and the results exclude each other in every state of
    a session: when the status carries an error the banner is rendered with
    its message, no record is shown, the title is [Extracted Data] and the
    export is not offered; without error no banner is rendered. *)
Theorem reachable_banner w :
  reachable apiKey supported w →
  match error (status (app w)) with
  | Some message =>
      textContent (error_banner (app w)) = str "Extraction Failed" ++ message ∧
      data (app w) = [] ∧ results_title (app w) = str "Extracted Data" ∧
      ¬ offers (App_view (app w)) ClickExport
  | None => error_banner (app w) = Nothing
  end.
Proof.
  intros Hw. destruct (invariant_reachable apiKey supported w Hw) as [_ Hs _ _ _].
  unfold status_ok in Hs.
  destruct (error (status (app w))) as [message|] eqn:He;
    [|unfold error_banner; by rewrite He].
  destruct (loading (status (app w))); [by destruct Hs as (_ & ? & _)|].
  destruct Hs as (Hm & Hd & _).
  split_and!; [by apply textContent_error_banner|done| |].
  - unfold results_title. by rewrite Hd.
  - intros Hen. change (view_enabled ClickExport w) in Hen.
    apply view_enabled_enabled in Hen. simpl in Hen. unfold export_enabled in Hen.
    by rewrite Hd in Hen.
Qed.

End session.

(** ** The guard of the submission is in the view *)

Lemma failed_system_reachable :
  @reachable unary_source (str "key") true failed_system.
Proof.
  apply (@run_reachable unary_source (str "key") true
           failed_session initial); [constructor|by vm_compute].
Qed.

Lemma reset_system_reachable :
  @reachable unary_source (str "key") true reset_system.
Proof.
  apply (@run_reachable unary_source (str "key") true
           (take 5 reset_session) initial); [constructor|by vm_compute].
Qed.

(** [handleSearch] has no guard on the busy flag: while a request is
    pending the page does not offer a submission, and the handler, were it
    called, would start a second request. *)
Lemma submit_unguarded :
  enabled Submit busy_system = false ∧
  pending (@handle unary_source (str "key") true Submit
             busy_system)
  = [str "Vegan in Baku"; str "Vegan in Baku"].
Proof. split; by vm_compute. Qed.

(** The busy button follows the form: after the category is reset while
    the request for [Vegan in Baku] is pending, the button names a search
    that was never sent. *)
Lemma busy_label_follows_form :
  pending reset_system = [str "Vegan in Baku"] ∧
  textContent (submit_button (app reset_system))
  = str "Extracting Coffee Shops in Baku...".
Proof. split; by vm_compute. Qed.

Lemma reachable_document_witness : document (App_view (app exported_system)).
Proof.
  apply (@reachable_document unary_source
           (str "key") true), exported_system_reachable.
Defined.

Lemma offers_submit_idle_witness :
  pending exported_system = [] ∧ trim (location (app exported_system)) ≠ [] ∧
  let w' := @handle unary_source (str "key") true Submit
              exported_system in
  if decide (trim (finalCategory (app exported_system)) = [])
  then w' = exported_system
  else pending w' = [fullQuery (app exported_system)] ∧
       loading (status (app w')) = true ∧ data (app w') = [] ∧
       sent w' = sent exported_system
                 ++ searchPlaces_request (str "key")
                      (fullQuery (app exported_system)).
Proof.
  apply (@offers_submit_idle unary_source
           (str "key") true); [apply exported_system_reachable|].
  apply offers_App_view. left. split; by vm_compute.
Defined.

Lemma reachable_banner_witness :
  match error (status (app failed_system)) with
  | Some message =>
      textContent (error_banner (app failed_system))
      = str "Extraction Failed" ++ message ∧
      data (app failed_system) = [] ∧
      results_title (app failed_system) = str "Extracted Data" ∧
      ¬ offers (App_view (app failed_system)) ClickExport
  | None => error_banner (app failed_system) = Nothing
  end.
Proof.
  apply (@reachable_banner unary_source
           (str "key") true), failed_system_reachable.
Defined.
