(* ===== verification/Pipeline.v ===== *)
(** * The parts together

    Theorems that cross the components: a search from the form to the
    records ([handleSearch] of [App], [searchPlaces] of [Gemini], the
    extractor of [Parser]) and to what the page shows of them ([View]), and
    the export of the extractor's records ([convertToCSV] of [Csv] on what
    [parseMarkdownTableToData] returns).

    [search_spec] says what a search promises, case by case, for a reply of
    the service; [search_and_export] is a whole use of the page;
    [exported_text]
    is the CSV text of a table's records and [exported_fields] what is read
    back for one row; [unconfigured] is what holds of a session whose
    environment gives no credential. *)

From stdpp Require Import pretty.
From S2P Require Import Prelude JsString Types Extern Parser Csv Gemini App.
From S2P Require Import Dom View.

(** ** Definitions *)

Section definitions.
Context `{U : UuidSource}.

(** What a search promises, from the form [s], the credential, the
    service's [reply] and the number [g] of identifiers drawn so far: the
    form with its fields as they were and, without credential, the
    configuration error and no record; when the service throws, its message
    (or the default one) and no record; when it returns, the records of the
    table in the text with their citations, and the no-data message exactly
    when there is no record. *)
Definition search_spec (apiKey : jsstring) (reply : Reply) (s : State)
    (g : nat) : State :=
  if truthy apiKey then
    match reply with
    | Returned response =>
        let records := attach (extract (text response ||| []) g)
                         (response_uris response) in
        setStatus
          (mkScrapeStatus false
             (if decide (records = []) then Some NO_DATA else None) true)
          (setData records s)
    | Threw message =>
        setStatus (mkScrapeStatus false (Some (message ||| FETCH_FAILED)) true)
          (setData [] s)
    end
  else
    setStatus (mkScrapeStatus false (Some API_KEY_MISSING) true) (setData [] s).

(** The CSV text of the records that the extractor returns for a text. *)
Definition exported_text (md : jsstring) (g : nat) : jsstring :=
  convertToCSV (parseMarkdownTableToData md g).1.

End definitions.

(** The state of the form after a search that settles with [settled]. *)
Definition searched (settled : Outcome SearchResult) (s : State) : State :=
  handleSearch_settle settled
    (setData [] (setStatus (mkScrapeStatus true None false) s)).

(** A session without credential: no request is sent, no record is shown,
    no download is started, and a search that is complete carries the
    configuration error. *)
Definition unconfigured (w : System) : Prop :=
  sent w = [] ∧ data (app w) = [] ∧ started (page w) = [] ∧
  match error (status (app w)) with
  | Some message => message = API_KEY_MISSING
  | None => complete (status (app w)) = false
  end.

(** A whole use of the page: the location is typed, the form is submitted
    with the first preset category, the request settles with the service's
    [reply], the records are exported.  [located] is the state after the
    first of these events. *)
Definition search_and_export (loc : jsstring) (reply : Reply) : list Event :=
  [ChangeLocation loc; Submit; Settle 0 reply; ClickExport].

Definition located (loc : jsstring) : System :=
  mkSystem (setLocation loc initial_state) [] [] 0 (mkPage [] []).

(** The seven fields that are read back for a row of the table: its six
    columns and an empty URL. *)
Definition exported_fields (cells : list jsstring) : list jsstring :=
  pad_columns cells ++ [[]].

(** ** Values for evaluation *)

(** A table whose second row has a quote in its rating. *)
Definition quoted_rows : list (list jsstring) :=
  [ [str "Cafe A"; str "1 Main St"; str "4.5"; str "120"; str "N/A"; str "555"];
    [str "Cafe B"; str "2 Side St"; str "4" ++ [QUOTE] ++ str "5"; str "7";
     str "N/A"; str "N/A"] ].

(** A search in a build whose environment has no [API_KEY]. *)
Definition search_session : list Event :=
  [ChangeLocation (str "Baku"); Submit; Settle 0 (Returned sample_response)].

Definition unconfigured_system : System :=
  default initial
    (@run unary_source (module_apiKey None) true search_session
       initial).

(** ** A search, from the form to the records *)

Section search.
Context `{U : UuidSource}.
Context (apiKey : jsstring) (supported : bool).
Implicit Types (w : System).

(** A search on a form that is filled in, with no call pending: one run of
    [searchPlaces] on the query of the form, and its request. *)
Lemma handleSearch_run reply w :
  pending w = [] →
  trim (location (app w)) ≠ [] → trim (finalCategory (app w)) ≠ [] →
  handleSearch apiKey supported reply w =
  let r := @searchPlaces U (answering reply) apiKey (fullQuery (app w))
             (uuids w) in
  mkSystem (searched (outcome r) (app w)) []
    (sent w ++ searchPlaces_request apiKey (fullQuery (app w))) (uuid_next r)
    (page w).
Proof.
  intros Hp Hl%truthy_nonempty Hc%truthy_nonempty.
  unfold handleSearch. simpl. unfold handleSearch_submit.
  rewrite Hl, Hc, Hp. simpl. by rewrite app_nil_r.
Qed.

(** A search whose promise settles before any other event: on a form that
    is filled in, with no call pending, the handler leaves the form in the
    state that [search_spec] describes. *)
Lemma handleSearch_outcome reply w :
  pending w = [] →
  trim (location (app w)) ≠ [] → trim (finalCategory (app w)) ≠ [] →
  app (handleSearch apiKey supported reply w)
  = search_spec apiKey reply (app w) (uuids w).
Proof.
  intros Hp Hl Hc. rewrite handleSearch_run by done. simpl.
  unfold search_spec. rewrite searchPlaces_cases.
  destruct (truthy apiKey); [|done]. simpl.
  destruct reply as [response|message]; [|done].
  unfold searched. simpl. by destruct (attach _ _).
Qed.

(** The records of a reply: none exactly when its table has no row. *)
Lemma records_nil md g uris :
  attach (extract md g) uris = [] ↔ table_rows md = [].
Proof.
  rewrite <- !length_zero_iff_nil. by rewrite attach_length, extract_length.
Qed.

(** What [search_spec] describes is a success exactly when there is a
    credential and the service returns a text whose table has a row. *)
Lemma search_spec_succeeded reply s g :
  phase (search_spec apiKey reply s g) = Succeeded ↔
  apiKey ≠ [] ∧
  ∃ response, reply = Returned response ∧
              table_rows (text response ||| []) ≠ [].
Proof.
  unfold search_spec. rewrite <- truthy_nonempty.
  destruct (truthy apiKey), reply as [response|message];
    try (split; [done|by intros (? & ? & ? & ?)]).
  unfold phase. simpl. case_decide as Hrecords; rewrite records_nil in Hrecords.
  - split; [done|]. by intros (_ & ? & [= <-] & ?).
  - split; [|done]. intros _. split; [done|]. by exists response.
Qed.

(** The pending call settles into what [search_spec] describes. *)
Lemma settle_search_spec w k reply :
  reachable apiKey supported w → enabled (Settle k reply) w = true →
  app (handle apiKey supported (Settle k reply) w)
  = search_spec apiKey reply (app w) (uuids w).
Proof.
  intros Hw [query Hk]%bool_decide_eq_true.
  destruct (invariant_reachable apiKey supported w Hw)
    as [Hflight Hstatus _ _ _].
  destruct (one_in_flight_pending w k query Hflight Hk) as (_ & _ & Hl).
  unfold status_ok in Hstatus. rewrite Hl in Hstatus.
  destruct Hstatus as (Hd & _). simpl. rewrite Hk. simpl.
  unfold search_spec. rewrite searchPlaces_cases.
  destruct (truthy apiKey), reply as [response|message]; simpl;
    try (by rewrite <- Hd; destruct (app w)).
  by destruct (attach _ _).
Qed.

(** C37.  A search, end to end: in any state of a session, when the
    pending call settles, whatever the service answers and whatever was
    edited in the form since the submission, the handler of the form, the
    request and the extractor together leave the form in the state that
    [search_spec] describes: the fields as they are, and the configuration
    error, the service's error, or the records of the table in the reply
    with their citations and the no-data message exactly when there is
    none.  The search has succeeded exactly when there is a credential and
    the service returned a text whose table has a row. *)
Theorem settle_outcome w k reply :
  reachable apiKey supported w → enabled (Settle k reply) w = true →
  let s := app (handle apiKey supported (Settle k reply) w) in
  s = search_spec apiKey reply (app w) (uuids w) ∧
  (phase s = Succeeded ↔
   apiKey ≠ [] ∧
   ∃ response, reply = Returned response ∧
               table_rows (text response ||| []) ≠ []).
Proof.
  intros Hw Hen s. subst s. rewrite settle_search_spec by done.
  split; [done|apply search_spec_succeeded].
Qed.

(** ** From the form to the file *)

Lemma run_cons e events w :
  enabled e w = true →
  run apiKey supported (e :: events) w
  = run apiKey supported events (handle apiKey supported e w).
Proof. simpl. by intros ->. Qed.

Lemma data_searched result s :
  data (searched (Resolved result) s) = result_data result.
Proof. unfold searched. simpl. by case_match. Qed.

(** What the page shows of a search that found records: their number in
    the title, and no banner. *)
Lemma searched_view result s :
  result_data result ≠ [] →
  results_title (searched (Resolved result) s)
  = str "Found " ++ str (pretty (length (result_data result))) ++ str " Results" ∧
  error_banner (searched (Resolved result) s) = Nothing.
Proof.
  intros Hd. unfold results_title, error_banner. rewrite data_searched.
  unfold searched, handleSearch_settle.
  destruct (result_data result) as [|p records]; [done|]. by split.
Qed.

Lemma handle_Submit_located loc :
  trim loc ≠ [] →
  handle apiKey supported Submit (located loc) =
  mkSystem (setData [] (setStatus (mkScrapeStatus true None false)
                          (setLocation loc initial_state)))
    [FIRST_CATEGORY ++ str " in " ++ loc]
    (searchPlaces_request apiKey (FIRST_CATEGORY ++ str " in " ++ loc))
    0 (mkPage [] []).
Proof.
  intros Hloc%truthy_nonempty. simpl. unfold handleSearch_submit. simpl.
  rewrite Hloc. simpl. by rewrite app_nil_r.
Qed.

(** The search for the first preset category in a location, when the
    service returns. *)
Lemma handleSearch_located loc response :
  apiKey ≠ [] → trim loc ≠ [] →
  handleSearch apiKey supported (Returned response) (located loc) =
  let md := text response ||| [] in
  let records := attach (extract md 0) (response_uris response) in
  mkSystem (searched (Resolved (mkSearchResult md records))
              (setLocation loc initial_state))
    [] [make_request (FIRST_CATEGORY ++ str " in " ++ loc)]
    (length (table_rows md)) (mkPage [] []).
Proof.
  intros Hkey Hloc.
  rewrite handleSearch_run; [|done..|by vm_compute].
  change (fullQuery (app (located loc)))
    with (FIRST_CATEGORY ++ str " in " ++ loc).
  apply truthy_nonempty in Hkey. unfold searchPlaces_request.
  by rewrite searchPlaces_cases, Hkey.
Qed.

(** C18.  From the form to the file: with a credential, a location that
    is not blank and a service that returns a text with at least one row,
    the page lets the user type the location, submit, and export once the
    request has settled; one request was sent, for the first preset category
    in that location; the records shown are those of the table in the text
    with their citations; and the download, in a browser that supports it,
    is their CSV text after a byte-order mark, under the CSV type and the
    name derived from the form; the page shows no error, and its title
    counts the rows of the table. *)
Theorem session_export loc response :
  apiKey ≠ [] → trim loc ≠ [] →
  let records := attach (extract (text response ||| []) 0)
                   (response_uris response) in
  records ≠ [] →
  ∃ w, run apiKey supported (search_and_export loc (Returned response))
         initial = Some w ∧
       data (app w) = records ∧
       sent w = [make_request (FIRST_CATEGORY ++ str " in " ++ loc)] ∧
       error_banner (app w) = Nothing ∧
       results_title (app w)
       = str "Found "
         ++ str (pretty (length (table_rows (text response ||| []))))
         ++ str " Results" ∧
       started (page w) =
       if supported then
         [mkDownload (BOM :: convertToCSV records)
            (str "text/csv;charset=utf-8;")
            (make_filename (setLocation loc initial_state))]
       else [].
Proof.
  intros Hkey Hloc records Hrecords.
  pose proof (handleSearch_located loc response Hkey Hloc) as Hsearch.
  cbv zeta in Hsearch. fold records in Hsearch.
  assert (length records = length (table_rows (text response ||| [])))
    as <- by (unfold records; by rewrite attach_length, extract_length).
  clearbody records.
  destruct (searched_view (mkSearchResult (text response ||| []) records)
              (setLocation loc initial_state) Hrecords) as [Htitle Hbanner].
  eexists. unfold search_and_export.
  rewrite run_cons by done.
  change (handle apiKey supported (ChangeLocation loc) initial)
    with (located loc).
  rewrite run_cons
    by (apply truthy_nonempty in Hloc; simpl; unfold submit_enabled; simpl;
        by rewrite Hloc).
  rewrite run_cons by (by rewrite handle_Submit_located).
  change (handle apiKey supported (Settle 0 (Returned response))
            (handle apiKey supported Submit (located loc)))
    with (handleSearch apiKey supported (Returned response) (located loc)).
  rewrite Hsearch, run_cons.
  2: { cbn [enabled app]. unfold export_enabled. rewrite data_searched.
       by destruct records. }
  split; [done|]. cbn [handle app sent page]. unfold handleExport.
  rewrite data_searched. cbn [result_data].
  destruct records as [|p records]; [done|].
  split_and!; [done..|]. cbn [length Nat.eqb].
  by destruct (downloadCSV_page supported (convertToCSV (p :: records))
                 (make_filename
                    (searched
                       (Resolved (mkSearchResult (text response ||| [])
                                    (p :: records)))
                       (setLocation loc initial_state)))
                 (mkPage [] [])) as [_ ->].
Qed.

End search.

(** ** A session without credential *)

Section no_key.
Context `{U : UuidSource}.
Context (API_KEY : option jsstring) (supported : bool).
Context (Hkey : truthy_opt API_KEY = false).
Implicit Types (w : System) (e : Event).

(** An event that changes neither the status nor the records. *)
Lemma unconfigured_form w s :
  unconfigured w → status s = status (app w) → data s = data (app w) →
  unconfigured (mkSystem s (pending w) (sent w) (uuids w) (page w)).
Proof. unfold unconfigured. simpl. by intros ? -> ->. Qed.

(** Without credential no request is made. *)
Lemma request_no_key query :
  searchPlaces_request (module_apiKey API_KEY) query = [].
Proof. unfold searchPlaces_request. by rewrite truthy_module_apiKey, Hkey. Qed.

Lemma unconfigured_step w e :
  unconfigured w → enabled e w = true →
  unconfigured (handle (module_apiKey API_KEY) supported e w).
Proof.
  intros Hw Hen. destruct e; simpl; try (by apply unconfigured_form).
  - apply unconfigured_form; [done|..]; unfold handleCategoryChange;
      by case_decide.
  - apply unconfigured_form; [done|..]; unfold handleCustomBlur; by case_match.
  - destruct Hw as (Hs & Hd & Hp & He). unfold handleSearch_submit.
    destruct (_ || _); unfold unconfigured; simpl;
      rewrite ?request_no_key, Hs; by split_and!.
  - apply bool_decide_eq_true in Hen as [query Hq]. rewrite Hq.
    rewrite searchPlaces_no_key by done.
    destruct Hw as (Hs & Hd & Hp & He). unfold unconfigured. simpl.
    rewrite Hs. by split_and!.
  - destruct Hw as (Hs & Hd & Hp & He). unfold unconfigured, handleExport.
    simpl. by rewrite Hd.
Qed.

(** C14.  Without credential: when the variable [API_KEY] of the
    environment is not set, or is empty, then in every state of a session
    no request has been sent, no record is shown, no download has been
    started, and a search that is complete shows the configuration error
    and no other. *)
Theorem reachable_no_key w :
  reachable (module_apiKey API_KEY) supported w → unconfigured w.
Proof.
  induction 1 as [|w e w' _ IH Hstep]; [by unfold unconfigured|].
  destruct Hstep as [e w Hen]. by apply unconfigured_step.
Qed.

End no_key.

(** ** The export of the extractor's records *)

Section export.
Context `{U : UuidSource}.
Implicit Types (md : jsstring) (g : nat) (cells : list jsstring).

Lemma csv_fields_extract md g :
  csv_fields <$> extract md g = exported_fields <$> table_rows md.
Proof.
  unfold extract. apply fmap_zip_with_right; [done|]. by rewrite drawn_length.
Qed.

Lemma pad_columns_Forall (P : jsstring → Prop) cells :
  P NA → Forall P cells → Forall P (pad_columns cells).
Proof.
  intros HNA Hall. apply Forall_fmap, Forall_true. intros k. simpl.
  destruct (or_default_cases (cells !! k) NA) as [(s & Hs & _ & ->)|[_ ->]];
    [|done].
  rewrite Forall_forall in Hall. by eapply Hall, list_elem_of_lookup_2.
Qed.

(** A property of the cells of a table holds of the fields that are
    exported for its records, when it holds of [N/A] and of the empty
    string. *)
Lemma extract_fields_Forall (P : jsstring → Prop) md g :
  P NA → P [] → Forall (Forall P) (table_rows md) →
  Forall (λ place, Forall P (csv_fields place)) (extract md g).
Proof.
  intros HNA Hnil Hrows. apply Forall_forall. intros p Hp.
  apply list_elem_of_fmap_2 with (f := csv_fields) in Hp.
  rewrite csv_fields_extract in Hp.
  apply list_elem_of_fmap in Hp as (cells & -> & Hcells).
  rewrite Forall_forall in Hrows.
  apply Forall_app. split; [|by repeat constructor].
  apply pad_columns_Forall; [done|by apply Hrows].
Qed.

(** The records of a table without quotes have no quote in the fields
    that the serializer leaves as they are. *)
Lemma extract_quote_free md g :
  Forall (Forall (λ s, QUOTE ∉ s)) (table_rows md) →
  Forall quote_free (extract md g).
Proof.
  intros Hrows.
  eapply Forall_impl;
    [apply (extract_fields_Forall (λ s, QUOTE ∉ s));
       [compute_done|apply not_elem_of_nil|done]|].
  intros p Hall. unfold csv_fields in Hall. unfold quote_free.
  by do 2 apply Forall_cons in Hall as [_ Hall].
Qed.

(** C38.  From the text to the file and back: when no cell of the table
    holds a quote, the CSV text of the records that the extractor returns
    is read back as the header's names and then, for each row of the table
    in order, its six columns (with [N/A] for an empty or a missing one) and
    an empty URL. *)
Theorem export_parsed_roundtrip md g :
  Forall (Forall (λ s, QUOTE ∉ s)) (table_rows md) →
  csv_read (exported_text md g) =
  csv_headers :: (exported_fields <$> table_rows md).
Proof.
  intros Hrows. unfold exported_text. rewrite parse_extract. simpl.
  rewrite csv_read_convertToCSV by by apply extract_quote_free.
  by rewrite csv_fields_extract.
Qed.

(** One line for each row: the CSV text of the records that the extractor
    returns has, whatever the text, one line for the header and one line
    for each row of the table; a cell cannot break a line. *)
Lemma export_parsed_lines md g :
  length (split LF (exported_text md g)) = S (length (table_rows md)).
Proof.
  unfold exported_text. rewrite parse_extract. simpl.
  rewrite split_convertToCSV.
  - by rewrite length_cons, length_fmap, extract_length.
  - apply (extract_fields_Forall (λ s, LF ∉ s));
      [compute_done|apply not_elem_of_nil|].
    eapply Forall_impl; [apply table_rows_tidy|]. intros cells Hcells.
    eapply Forall_impl; [done|]. by intros s (_ & _ & ?).
Qed.

(** The record of a row without quote has no quote in the fields that
    the serializer leaves as they are. *)
Lemma make_place_quote_free uuid cells :
  Forall (λ s, QUOTE ∉ s) cells → quote_free (make_place uuid cells).
Proof.
  intros Hcells.
  pose proof (pad_columns_Forall (λ s, QUOTE ∉ s) cells ltac:(compute_done)
                Hcells) as Hall.
  unfold pad_columns in Hall. simpl in Hall. unfold quote_free. simpl.
  repeat (apply Forall_cons in Hall as [? Hall]).
  repeat (constructor; [first [done|apply not_elem_of_nil]|]). constructor.
Qed.

(** The records of a table, the last row apart, and the record of the last
    row. *)
Lemma extract_snoc md g rows cells :
  table_rows md = rows ++ [cells] →
  extract md g =
  zip_with make_place (drawn g (length rows)) rows
  ++ [make_place (randomUUID (g + length rows)) cells].
Proof.
  intros Hrows. unfold extract.
  rewrite Hrows, length_app, Nat.add_1_r, drawn_S.
  rewrite zip_with_app by (by rewrite drawn_length). done.
Qed.

(** C40.  A quote in a cell that is not the name or the address: when the
    last row of the table holds one quote in one of its columns from the
    third on, with no quote in the columns from the third up to it, and no
    quote, no comma and no line feed in the columns after it, then the CSV
    text of the records that the extractor returns is read back with the
    lines of the rows before as they are and, for the last row, the columns
    before the quote and then one cell that holds the rest of the line: it
    is not read back as the rows of the table.  The URL, which a record of
    the extractor does not have, is an empty cell after the last column, so
    that a quote in the phone number breaks the line as well. *)
Theorem export_parsed_quote md g rows cells before pre post after :
  table_rows md = rows ++ [cells] →
  Forall (Forall (λ s, QUOTE ∉ s)) rows →
  drop 2 (pad_columns cells) = before ++ (pre ++ [QUOTE] ++ post) :: after →
  Forall (λ s, QUOTE ∉ s) (pre :: before) → Forall plain (post :: after) →
  csv_read (exported_text md g) =
  csv_headers :: (exported_fields <$> rows)
  ++ [take 2 (pad_columns cells) ++ before
      ++ [unquote (join [COMMA]
                     (quote <$> (pre ++ [QUOTE] ++ post) :: after ++ [[]]))]]
  ∧ csv_read (exported_text md g)
    ≠ csv_headers :: (exported_fields <$> table_rows md).
Proof.
  intros Hrows Hfree Hdrop Hbefore Hplain.
  unfold exported_text. rewrite parse_extract. cbn [fst].
  rewrite <-(csv_fields_extract md g), (extract_snoc md g rows cells Hrows).
  set (data := zip_with make_place _ rows).
  set (place := make_place _ cells).
  assert (csv_fields <$> data = exported_fields <$> rows) as <-.
  { apply fmap_zip_with_right; [done|by rewrite drawn_length]. }
  apply (csv_read_one_quote data place before pre post (after ++ [[]])).
  - apply Forall_forall. intros p (uuid & row & -> & _ & Hrow)%elem_of_zip_with.
    rewrite Forall_forall in Hfree. by apply make_place_quote_free, Hfree.
  - change (unescaped place) with (drop 2 (pad_columns cells) ++ [[]]).
    by rewrite Hdrop, <-app_assoc.
  - by destruct after.
  - done.
  - apply Forall_cons in Hplain as [Hpost Hafter]. constructor; [done|].
    apply Forall_app. split; [done|]. constructor; [|constructor].
    split_and!; apply not_elem_of_nil.
Qed.

End export.

(** C29.  The exported text does not depend on the identifiers: two
    extractions of a text, with any two generators of identifiers and at
    any two moments of a session, export the same file. *)
Theorem exported_text_ids (U U' : UuidSource) md g g' :
  @exported_text U md g = @exported_text U' md g'.
Proof.
  unfold exported_text. rewrite !parse_extract. simpl.
  by rewrite (extract_equiv U U' md g g').
Qed.

(** The table with the rows [quoted_rows]: it is extracted as two records
    with the cells as they were written, and the CSV text of these records
    is read back as the header's seven cells, a line of seven cells, and a
    line of three cells. *)
Lemma export_quoted_rows :
  columns_of <$>
    (@parseMarkdownTableToData unary_source
       (render_table sample_header quoted_rows) 0).1 = quoted_rows ∧
  length <$>
    csv_read (@exported_text unary_source
                (render_table sample_header quoted_rows) 0) = [7; 7; 3].
Proof. split; by vm_compute. Qed.

Lemma export_parsed_quote_witness :
  let md := render_table sample_header quoted_rows in
  let cells := [str "Cafe B"; str "2 Side St"; str "4" ++ [QUOTE] ++ str "5";
                str "7"; str "N/A"; str "N/A"] in
  csv_read (@exported_text unary_source md 0) =
  csv_headers :: (exported_fields <$> take 1 quoted_rows)
  ++ [take 2 (pad_columns cells) ++ []
      ++ [unquote (join [COMMA]
                     (quote <$> (str "4" ++ [QUOTE] ++ str "5")
                        :: [str "7"; str "N/A"; str "N/A"] ++ [[]]))]]
  ∧ csv_read (@exported_text unary_source md 0)
    ≠ csv_headers :: (exported_fields <$> table_rows md).
Proof.
  apply (@export_parsed_quote unary_source);
    [by vm_compute|compute_done|done|compute_done..].
Defined.

Lemma settle_outcome_witness :
  let s := app (@handle unary_source (str "key") true (Settle 0 (Threw None))
                  busy_system) in
  s = @search_spec unary_source (str "key") (Threw None) (app busy_system)
        (uuids busy_system) ∧
  (phase s = Succeeded ↔
   str "key" ≠ [] ∧
   ∃ response, Threw None = Returned response ∧
               table_rows (text response ||| []) ≠ []).
Proof.
  apply (@settle_outcome unary_source (str "key") true);
    [apply busy_system_reachable|done].
Defined.

(** The search of [search_session] without [API_KEY] ends with the
    configuration error. *)
Lemma unconfigured_system_status :
  status (app unconfigured_system) =
  mkScrapeStatus false (Some API_KEY_MISSING) true.
Proof. by vm_compute. Qed.

Lemma reachable_no_key_witness : unconfigured unconfigured_system.
Proof.
  apply (@reachable_no_key unary_source None true); [done|].
  apply (@run_reachable unary_source (module_apiKey None) true
           search_session initial); [constructor|by vm_compute].
Defined.

Lemma session_export_witness :
  let records := attach (@extract unary_source (text sample_response ||| []) 0)
                   (response_uris sample_response) in
  ∃ w, @run unary_source (str "key") true
         (search_and_export (str "Baku") (Returned sample_response)) initial
       = Some w ∧
       data (app w) = records ∧
       sent w = [make_request (FIRST_CATEGORY ++ str " in " ++ str "Baku")] ∧
       error_banner (app w) = Nothing ∧
       results_title (app w)
       = str "Found "
         ++ str (pretty (length (table_rows (text sample_response ||| []))))
         ++ str " Results" ∧
       started (page w) =
       [mkDownload (BOM :: convertToCSV records)
          (str "text/csv;charset=utf-8;")
          (make_filename (setLocation (str "Baku") initial_state))].
Proof.
  intros records.
  apply (@session_export unary_source (str "key") true
           (str "Baku") sample_response); by vm_compute.
Defined.

Lemma export_parsed_roundtrip_witness :
  csv_read (@exported_text unary_source sample_text 3)
  = csv_headers :: (exported_fields <$> table_rows sample_text).
Proof. apply (@export_parsed_roundtrip unary_source). compute_done. Defined.
